(** * vd-ct: a version-controlled key-value store over HTTP

    Shallow embedding of the storage backends ([src/database.js],
    [src/database-serverless.js], [src/database-mongodb.js], the [Map] of
    [api/index.js]), of the Joi validators ([src/validators.js]) and of the
    [/object] handlers of the servers, followed by the properties of the
    versioned store. *)

From Stdlib Require Import ZArith List String Ascii Lia Bool.
From Stdlib Require Import DecimalString DecimalN DecimalFacts.
From stdpp Require Import base gmap strings list.
Import ListNotations.

Set Warnings "-register-all".

Open Scope list_scope.
Open Scope string_scope.
Open Scope Z_scope.

(** ** JSON values, [JSON.stringify] and [JSON.parse]

    The values a request body can carry after [express.json()].  The
    embedding computes with the fragment in which numbers are integers of
    magnitude at most [Number.MAX_SAFE_INTEGER], strings are made of code
    units below 256, and the keys of an object are pairwise distinct and are
    not array-index strings (for which JavaScript reorders the properties).
    A text is a string of code units below 256.  [JSON_parse] tells apart
    the JSON texts it reads into the fragment, the other JSON texts, on
    which JSON.parse returns a value that the embedding does not compute,
    and the texts that are no JSON at all, on which JSON.parse throws. *)
Module Json.

Inductive json : Type :=
| JNull
| JBool (b : bool)
| JNum (z : Z)
| JStr (s : string)
| JArr (items : list json)
| JObj (fields : list (string * json)).

(** [typeof value === 'string'] *)
Definition is_string (v : json) : bool :=
  match v with JStr _ => true | _ => false end.

Definition MAX_SAFE_INTEGER : Z := 9007199254740991.

(** *** Characters *)

(** The double quote. *)
Definition dquote : ascii := ascii_of_N 34.

Definition code (c : ascii) : N := N_of_ascii c.

Definition is_digit (c : ascii) : bool :=
  ((48 <=? code c) && (code c <=? 57))%N.

(** The four white space characters of the JSON grammar. *)
Definition is_ws (c : ascii) : bool :=
  ((code c =? 32) || (code c =? 9) || (code c =? 10) || (code c =? 13))%N.

Definition hex_char (n : N) : ascii :=
  if (n <? 10)%N then ascii_of_N (48 + n) else ascii_of_N (87 + n).

Definition hex_value (c : ascii) : option N :=
  let n := code c in
  if ((48 <=? n) && (n <=? 57))%N then Some (n - 48)%N
  else if ((97 <=? n) && (n <=? 102))%N then Some (n - 87)%N
  else if ((65 <=? n) && (n <=? 70))%N then Some (n - 55)%N
  else None.

(** *** JSON.stringify *)

(** Quote(): the escape of one code unit. *)
Definition escape_char (c : ascii) : string :=
  let n := code c in
  if (n =? 34)%N then String "\" (String dquote "")
  else if (n =? 92)%N then "\\"
  else if (n =? 8)%N then "\b"
  else if (n =? 9)%N then "\t"
  else if (n =? 10)%N then "\n"
  else if (n =? 12)%N then "\f"
  else if (n =? 13)%N then "\r"
  else if (n <? 32)%N then
    String "\" (String "u" (String "0" (String "0"
      (String (hex_char (n / 16)) (String (hex_char (n mod 16)) "")))))
  else String c "".

Fixpoint escape (s : string) : string :=
  match s with
  | EmptyString => ""
  | String c s' => escape_char c ++ escape s'
  end.

Definition quote (s : string) : string :=
  String dquote (escape s ++ String dquote "").

Definition digits_of_N (n : N) : string :=
  NilEmpty.string_of_uint (N.to_uint n).

Definition stringify_number (z : Z) : string :=
  if z <? 0 then String "-" (digits_of_N (Z.abs_N z)) else digits_of_N (Z.to_N z).

Fixpoint JSON_stringify (v : json) : string :=
  match v with
  | JNull => "null"
  | JBool true => "true"
  | JBool false => "false"
  | JNum z => stringify_number z
  | JStr s => quote s
  | JArr items =>
      let fix elements (l : list json) : string :=
        match l with
        | [] => ""
        | [x] => JSON_stringify x
        | x :: l' => JSON_stringify x ++ String "," (elements l')
        end in
      String "[" (elements items ++ "]")
  | JObj fields =>
      let fix members (l : list (string * json)) : string :=
        match l with
        | [] => ""
        | [(k, x)] => quote k ++ String ":" (JSON_stringify x)
        | (k, x) :: l' =>
            quote k ++ String ":" (JSON_stringify x ++ String "," (members l'))
        end in
      String "{" (members fields ++ "}")
  end.

(** *** JSON.parse *)

Fixpoint skip_ws (s : string) : string :=
  match s with
  | String c s' => if is_ws c then skip_ws s' else s
  | EmptyString => s
  end.

Fixpoint span_digits (s : string) : string * string :=
  match s with
  | String c s' =>
      if is_digit c then
        let (d, r) := span_digits s' in (String c d, r)
      else (EmptyString, s)
  | EmptyString => (EmptyString, EmptyString)
  end.

(** A fraction or an exponent follows: the literal is not an integer. *)
Definition starts_fraction (s : string) : bool :=
  match s with
  | String c _ => ((code c =? 46) || (code c =? 101) || (code c =? 69))%N
  | EmptyString => false
  end.

Definition leading_zero (ds : string) : bool :=
  match ds with
  | String c (String _ _) => (code c =? 48)%N
  | _ => false
  end.

Definition parse_digits (s : string) : option (Z * string) :=
  let (ds, rest) := span_digits s in
  match ds with
  | EmptyString => None
  | _ =>
      if leading_zero ds || starts_fraction rest then None
      else
        match NilEmpty.uint_of_string ds with
        | Some u =>
            let n := Z.of_N (N.of_uint u) in
            if n <=? MAX_SAFE_INTEGER then Some (n, rest) else None
        | None => None
        end
  end.

Definition parse_number (s : string) : option (Z * string) :=
  match s with
  | String c s' =>
      if (code c =? 45)%N then
        match parse_digits s' with
        | Some (n, rest) => Some (- n, rest)
        | None => None
        end
      else parse_digits s
  | EmptyString => None
  end.

Definition unescape (c : ascii) : option ascii :=
  let n := code c in
  if (n =? 34)%N then Some dquote
  else if (n =? 92)%N then Some "\"%char
  else if (n =? 47)%N then Some "/"%char
  else if (n =? 98)%N then Some (ascii_of_N 8)
  else if (n =? 102)%N then Some (ascii_of_N 12)
  else if (n =? 110)%N then Some (ascii_of_N 10)
  else if (n =? 114)%N then Some (ascii_of_N 13)
  else if (n =? 116)%N then Some (ascii_of_N 9)
  else None.

(** [\uXXXX] with a code unit below 256. *)
Definition unescape_hex (h1 h2 h3 h4 : ascii) : option ascii :=
  match hex_value h1, hex_value h2, hex_value h3, hex_value h4 with
  | Some 0%N, Some 0%N, Some a, Some b => Some (ascii_of_N (16 * a + b))
  | _, _, _, _ => None
  end.

Definition cons_char (c : ascii) (r : option (string * string)) :
  option (string * string) :=
  match r with
  | Some (s, rest) => Some (String c s, rest)
  | None => None
  end.

(** The characters of a string literal, after its opening quote. *)
Fixpoint parse_chars (s : string) : option (string * string) :=
  match s with
  | EmptyString => None
  | String c s' =>
      if (code c =? 34)%N then Some ("", s')
      else if (code c =? 92)%N then
        match s' with
        | String e s'' =>
            if (code e =? 117)%N then
              match s'' with
              | String h1 (String h2 (String h3 (String h4 s3))) =>
                  match unescape_hex h1 h2 h3 h4 with
                  | Some c' => cons_char c' (parse_chars s3)
                  | None => None
                  end
              | _ => None
              end
            else
              match unescape e with
              | Some c' => cons_char c' (parse_chars s'')
              | None => None
              end
        | EmptyString => None
        end
      else if (code c <? 32)%N then None
      else cons_char c (parse_chars s')
  end.

Fixpoint strip_prefix (lit s : string) : option string :=
  match lit with
  | EmptyString => Some s
  | String c lit' =>
      match s with
      | String c' s' => if Ascii.eqb c c' then strip_prefix lit' s' else None
      | EmptyString => None
      end
  end.

Definition parse_literal (lit : string) (v : json) (s : string) :
  option (json * string) :=
  match strip_prefix lit s with
  | Some rest => Some (v, rest)
  | None => None
  end.

(** An all-digit key without a leading zero is an array index. *)
Fixpoint all_digits (s : string) : bool :=
  match s with
  | EmptyString => true
  | String c s' => is_digit c && all_digits s'
  end.

Definition array_index_key (k : string) : bool :=
  match k with
  | EmptyString => false
  | _ => all_digits k && negb (leading_zero k)
  end.

Definition key_in (k : string) (fields : list (string * json)) : bool :=
  existsb (fun f => String.eqb k (fst f)) fields.

Fixpoint parse_value (fuel : nat) (s : string) : option (json * string) :=
  match fuel with
  | O => None
  | S fuel' =>
      match skip_ws s with
      | EmptyString => None
      | String c s' =>
          let n := code c in
          if (n =? 110)%N then parse_literal "null" JNull (String c s')
          else if (n =? 116)%N then parse_literal "true" (JBool true) (String c s')
          else if (n =? 102)%N then parse_literal "false" (JBool false) (String c s')
          else if (n =? 34)%N then
            match parse_chars s' with
            | Some (str, rest) => Some (JStr str, rest)
            | None => None
            end
          else if (n =? 91)%N then
            match skip_ws s' with
            | String c1 r1 =>
                if (code c1 =? 93)%N then Some (JArr [], r1)
                else
                  match parse_elements fuel' s' with
                  | Some (items, rest) => Some (JArr items, rest)
                  | None => None
                  end
            | EmptyString => None
            end
          else if (n =? 123)%N then
            match skip_ws s' with
            | String c1 r1 =>
                if (code c1 =? 125)%N then Some (JObj [], r1)
                else
                  match parse_members fuel' s' with
                  | Some (fields, rest) => Some (JObj fields, rest)
                  | None => None
                  end
            | EmptyString => None
            end
          else
            match parse_number (String c s') with
            | Some (z, rest) => Some (JNum z, rest)
            | None => None
            end
      end
  end

with parse_elements (fuel : nat) (s : string) : option (list json * string) :=
  match fuel with
  | O => None
  | S fuel' =>
      match parse_value fuel' s with
      | Some (v, r) =>
          match skip_ws r with
          | String c r' =>
              if (code c =? 44)%N then
                match parse_elements fuel' r' with
                | Some (vs, rest) => Some (v :: vs, rest)
                | None => None
                end
              else if (code c =? 93)%N then Some ([v], r')
              else None
          | EmptyString => None
          end
      | None => None
      end
  end

with parse_members (fuel : nat) (s : string) :
  option (list (string * json) * string) :=
  match fuel with
  | O => None
  | S fuel' =>
      match skip_ws s with
      | String q s1 =>
          if (code q =? 34)%N then
            match parse_chars s1 with
            | Some (k, r0) =>
                match skip_ws r0 with
                | String colon r1 =>
                    if (code colon =? 58)%N then
                      match parse_value fuel' r1 with
                      | Some (v, r) =>
                          match skip_ws r with
                          | String c r' =>
                              if (code c =? 44)%N then
                                match parse_members fuel' r' with
                                | Some (fs, rest) =>
                                    if array_index_key k || key_in k fs then None
                                    else Some ((k, v) :: fs, rest)
                                | None => None
                                end
                              else if (code c =? 125)%N then
                                if array_index_key k then None
                                else Some ([(k, v)], r')
                              else None
                          | EmptyString => None
                          end
                      | None => None
                      end
                    else None
                | EmptyString => None
                end
            | None => None
            end
          else None
      | EmptyString => None
      end
  end.

(** One value between optional white space, for the texts written with
    integers, escapes below 256 and distinct keys that are no array index:
    [Some v] is the value JavaScript builds from the text.  The fuel is
    spent by the brackets and the elements, fewer than the characters. *)
Definition parse_fragment (text : string) : option json :=
  match parse_value (S (String.length text)) text with
  | Some (v, rest) =>
      match skip_ws rest with
      | EmptyString => Some v
      | String _ _ => None
      end
  | None => None
  end.

(** *** The JSON grammar

    The whole grammar of ECMA-404, on which [JSON.parse] throws a
    [SyntaxError] exactly for the texts that are not derived from it: any
    four hexadecimal digits after [\u], fractions and exponents, integers of
    any length, any keys.  Each function returns the text left after what it
    read. *)

Definition is_hex (c : ascii) : bool :=
  match hex_value c with
  | Some _ => true
  | None => false
  end.

(** The characters of a string literal, after its opening quote. *)
Fixpoint scan_chars (s : string) : option string :=
  match s with
  | EmptyString => None
  | String c s' =>
      if (code c =? 34)%N then Some s'
      else if (code c =? 92)%N then
        match s' with
        | String e s'' =>
            if (code e =? 117)%N then
              match s'' with
              | String h1 (String h2 (String h3 (String h4 s3))) =>
                  if is_hex h1 && is_hex h2 && is_hex h3 && is_hex h4
                  then scan_chars s3 else None
              | _ => None
              end
            else
              match unescape e with
              | Some _ => scan_chars s''
              | None => None
              end
        | EmptyString => None
        end
      else if (code c <? 32)%N then None
      else scan_chars s'
  end.

(** One digit at least. *)
Definition scan_digits (s : string) : option string :=
  let (ds, rest) := span_digits s in
  match ds with
  | EmptyString => None
  | _ => Some rest
  end.

(** A number: an optional minus, the digits of an integer without a leading
    zero, an optional fraction (a dot and digits), an optional exponent ([e]
    or [E], an optional sign, digits). *)
Definition scan_number (s : string) : option string :=
  let unsigned :=
    match s with
    | String c s' => if (code c =? 45)%N then s' else s
    | EmptyString => s
    end in
  let (ds, r) := span_digits unsigned in
  match ds with
  | EmptyString => None
  | _ =>
      if leading_zero ds then None
      else
        let after_fraction :=
          match r with
          | String c r' => if (code c =? 46)%N then scan_digits r' else Some r
          | EmptyString => Some r
          end in
        match after_fraction with
        | Some (String c r') =>
            if ((code c =? 101) || (code c =? 69))%N then
              match r' with
              | String sign r'' =>
                  if ((code sign =? 43) || (code sign =? 45))%N
                  then scan_digits r'' else scan_digits r'
              | EmptyString => None
              end
            else after_fraction
        | _ => after_fraction
        end
  end.

Fixpoint scan_value (fuel : nat) (s : string) : option string :=
  match fuel with
  | O => None
  | S fuel' =>
      match skip_ws s with
      | EmptyString => None
      | String c s' =>
          let n := code c in
          if (n =? 110)%N then strip_prefix "null" (String c s')
          else if (n =? 116)%N then strip_prefix "true" (String c s')
          else if (n =? 102)%N then strip_prefix "false" (String c s')
          else if (n =? 34)%N then scan_chars s'
          else if (n =? 91)%N then
            match skip_ws s' with
            | String c1 r1 =>
                if (code c1 =? 93)%N then Some r1 else scan_elements fuel' s'
            | EmptyString => None
            end
          else if (n =? 123)%N then
            match skip_ws s' with
            | String c1 r1 =>
                if (code c1 =? 125)%N then Some r1 else scan_members fuel' s'
            | EmptyString => None
            end
          else scan_number (String c s')
      end
  end

with scan_elements (fuel : nat) (s : string) : option string :=
  match fuel with
  | O => None
  | S fuel' =>
      match scan_value fuel' s with
      | Some r =>
          match skip_ws r with
          | String c r' =>
              if (code c =? 44)%N then scan_elements fuel' r'
              else if (code c =? 93)%N then Some r'
              else None
          | EmptyString => None
          end
      | None => None
      end
  end

with scan_members (fuel : nat) (s : string) : option string :=
  match fuel with
  | O => None
  | S fuel' =>
      match skip_ws s with
      | String q s1 =>
          if (code q =? 34)%N then
            match scan_chars s1 with
            | Some r0 =>
                match skip_ws r0 with
                | String colon r1 =>
                    if (code colon =? 58)%N then
                      match scan_value fuel' r1 with
                      | Some r =>
                          match skip_ws r with
                          | String c r' =>
                              if (code c =? 44)%N then scan_members fuel' r'
                              else if (code c =? 125)%N then Some r'
                              else None
                          | EmptyString => None
                          end
                      | None => None
                      end
                    else None
                | EmptyString => None
                end
            | None => None
            end
          else None
      | EmptyString => None
      end
  end.

(** The text is one JSON value between optional white space. *)
Definition JSON_text (text : string) : bool :=
  match scan_value (S (String.length text)) text with
  | Some rest =>
      match skip_ws rest with
      | EmptyString => true
      | String _ _ => false
      end
  | None => false
  end.

(** What [JSON.parse(text)] does: it returns [v]; it returns a value that
    the embedding does not compute, the text being a JSON text that
    [parse_fragment] does not read (a number with a fraction, an exponent or
    more than the safe integers hold, an escape from [\u0100] on, an object
    with an array-index key or a repeated key); or it throws. *)
Inductive parsed : Type :=
| Parsed (v : json)
| ParsedBeyond
| SyntaxError.

Definition JSON_parse (text : string) : parsed :=
  match parse_fragment text with
  | Some v => Parsed v
  | None => if JSON_text text then ParsedBeyond else SyntaxError
  end.

(** The two local functions of [JSON_stringify], and the fuel that
    [parse_value] needs for a value. *)
Fixpoint stringify_elements (l : list json) : string :=
  match l with
  | [] => ""
  | [x] => JSON_stringify x
  | x :: l' => JSON_stringify x ++ String "," (stringify_elements l')
  end.

Fixpoint stringify_members (l : list (string * json)) : string :=
  match l with
  | [] => ""
  | [(k, x)] => quote k ++ String ":" (JSON_stringify x)
  | (k, x) :: l' =>
      quote k ++ String ":" (JSON_stringify x ++ String "," (stringify_members l'))
  end.

Fixpoint size (v : json) : nat :=
  match v with
  | JArr items => S (fold_right (fun x n => S (size x + n)) O items)
  | JObj fields => S (fold_right (fun f n => S (size (snd f) + n)) O fields)
  | _ => 1
  end.

(** The values of the fragment. *)
Fixpoint wf_json (v : json) : bool :=
  match v with
  | JNull | JBool _ | JStr _ => true
  | JNum z => (- MAX_SAFE_INTEGER <=? z) && (z <=? MAX_SAFE_INTEGER)
  | JArr items => forallb wf_json items
  | JObj fields =>
      (fix wf_fields (l : list (string * json)) : bool :=
         match l with
         | [] => true
         | (k, x) :: l' =>
             negb (array_index_key k) && negb (key_in k l')
             && wf_json x && wf_fields l'
         end) fields
  end.

Fixpoint wf_fields (l : list (string * json)) : bool :=
  match l with
  | [] => true
  | (k, x) :: l' =>
      negb (array_index_key k) && negb (key_in k l') && wf_json x && wf_fields l'
  end.

(** A text that opens with the first character of a value. *)
Definition value_start (s : string) : bool :=
  match s with
  | String c _ => negb (is_ws c) && negb (code c =? 93)%N && negb (code c =? 125)%N
  | EmptyString => false
  end.

Definition size_elements (items : list json) : nat :=
  fold_right (fun x n => S (size x + n)) O items.

Definition size_members (fields : list (string * json)) : nat :=
  fold_right (fun f n => S (size (snd f) + n)) O fields.

(** The text after a number does not continue it. *)
Definition number_end (rest : string) : bool :=
  match rest with
  | EmptyString => true
  | String c _ => negb (is_digit c) && negb (starts_fraction rest)
  end.

(** With enough fuel [parse_value] reads back the text of [v]. *)
Definition roundtrip_at (v : json) : Prop :=
  forall fuel rest,
    (size v <= fuel)%nat -> number_end rest = true ->
    parse_value fuel (JSON_stringify v ++ rest) = Some (v, rest).

(** With enough fuel [scan_value] reads the text of [v]. *)
Definition scans (v : json) : Prop :=
  forall fuel rest,
    (size v <= fuel)%nat -> number_end rest = true ->
    scan_value fuel (JSON_stringify v ++ rest) = Some rest.

End Json.

(** ** JavaScript helpers *)
Module Js.

Import Json.

(** A settled promise. *)
Inductive promise (A : Type) : Type :=
| Resolved (a : A)
| Rejected (message : string).
Arguments Resolved {A} a.
Arguments Rejected {A} message.

(** [Math.floor(Date.now() / 1000)], the clock being read in milliseconds. *)
Definition unix_seconds (now_ms : Z) : Z := now_ms / 1000.

(** The number a string of decimal digits denotes, most significant first. *)
Fixpoint decimal_acc (acc : Z) (s : string) : Z :=
  match s with
  | EmptyString => acc
  | String c s' => decimal_acc (10 * acc + Z.of_N (code c - 48)) s'
  end.

(** [parseInt(s)] on the strings that reach it, those matching [/^\d+$/];
    [None] is [NaN].  The number is exact up to 2^53, and beyond it the
    rounding of JavaScript keeps it above every clock reading. *)
Definition parseInt (s : string) : option Z :=
  match s with
  | EmptyString => None
  | _ => if all_digits s then Some (decimal_acc 0 s) else None
  end.

(** What [req.query.timestamp] holds when the parameter is present. *)
Inductive query_value : Type :=
| QString (s : string)
| QArray (items : list string)
| QObject.

(** [if (timestamp)] on [req.query.timestamp]. *)
Definition truthy (q : option query_value) : bool :=
  match q with
  | None => false
  | Some (QString s) => negb (String.eqb s "")
  | Some _ => true
  end.

(** A value read back from a stored text.  [Known v] is the value [v].
    [ParseOf text] is the value [JSON.parse(text)] returns for a JSON text
    that [parse_fragment] does not read: the embedding names that value by
    its text and does not compute it (for the text [1e3] it is the number
    1000, which [ParseOf] keeps apart from [Known (JNum 1000)]; no equation
    between the two is used).  It is never the text itself: JSON.parse
    returns a string only for a string literal, which is longer than the
    string it denotes.  [ParsedTwice text] is what the second
    [try { JSON.parse(w) } catch { w }] of the production server makes of
    such a value [w = JSON.parse(text)]. *)
Inductive read_value : Type :=
| Known (v : json)
| ParseOf (text : string)
| ParsedTwice (text : string).

Coercion Known : json >-> read_value.

(** [try { JSON.parse(text) } catch { text }] *)
Definition parse_or_raw (text : string) : read_value :=
  match JSON_parse text with
  | Parsed v => Known v
  | ParsedBeyond => ParseOf text
  | SyntaxError => Known (JStr text)
  end.

(** [hay.includes(needle)] *)
Fixpoint includes (hay needle : string) : bool :=
  String.prefix needle hay
  || match hay with
     | EmptyString => false
     | String _ hay' => includes hay' needle
     end.

(** [String(v)], the text [JSON.parse] reads when it is handed a value that
    is not a string: an array joins the texts of its elements with commas,
    [null] elements giving the empty text. *)
Fixpoint js_to_string (v : json) : string :=
  match v with
  | JNull => "null"
  | JBool true => "true"
  | JBool false => "false"
  | JNum z => stringify_number z
  | JStr s => s
  | JArr items =>
      let fix join (l : list json) : string :=
        match l with
        | [] => ""
        | [x] => match x with JNull => "" | _ => js_to_string x end
        | x :: l' =>
            match x with JNull => "" | _ => js_to_string x end
            ++ String "," (join l')
        end in
      join items
  | JObj _ => "[object Object]"
  end.

(** [try { JSON.parse(value) } catch { value }] on a value already parsed:
    [JSON.parse] reads the text [String(value)]. *)
Definition parse_again (value : read_value) : read_value :=
  match value with
  | Known v =>
      match JSON_parse (js_to_string v) with
      | Parsed w => Known w
      | ParsedBeyond => ParseOf (js_to_string v)
      | SyntaxError => Known v
      end
  | ParseOf text | ParsedTwice text => ParsedTwice text
  end.

End Js.

(** ** src/validators.js *)
Module Validators.

Import Json Js.

Inductive joi_error : Type :=
| any_required
| any_invalid
| string_base
| string_empty
| string_min
| string_max
| string_pattern_base
| object_base
| object_min.

(** [{ error, value }] as returned by [schema.validate]. *)
Inductive validation (A : Type) : Type :=
| Valid (value : A)
| Invalid (error : joi_error).
Arguments Valid {A} value.
Arguments Invalid {A} error.

(** One character of the class [[a-zA-Z0-9_\-\.]]. *)
Definition key_char (c : ascii) : bool :=
  let n := code c in
  (((97 <=? n) && (n <=? 122)) || ((65 <=? n) && (n <=? 90))
   || ((48 <=? n) && (n <=? 57)) || (n =? 95) || (n =? 45) || (n =? 46))%N.

Fixpoint all_chars (p : ascii -> bool) (s : string) : bool :=
  match s with
  | EmptyString => true
  | String c s' => p c && all_chars p s'
  end.

(** [/^[a-zA-Z0-9_\-\.]+$/] *)
Definition key_pattern (s : string) : bool :=
  match s with
  | EmptyString => false
  | _ => all_chars key_char s
  end.

(** [/^\d+$/] *)
Definition digits_pattern (s : string) : bool :=
  match s with
  | EmptyString => false
  | _ => all_chars is_digit s
  end.

(** [keySchema]: Joi.string().min(1).max(255).pattern(...).required() *)
Definition validateKey (key : string) : validation string :=
  if String.eqb key "" then Invalid string_empty
  else if (String.length key <? 1)%nat then Invalid string_min
  else if (255 <? String.length key)%nat then Invalid string_max
  else if negb (key_pattern key) then Invalid string_pattern_base
  else Valid key.

(** [valueSchema]: Joi.object().min(1).required().  The body is what
    [express.json()] parsed, an object or an array in its strict mode; any
    other value is not an object for Joi either. *)
Definition validateValue (body : json) : validation json :=
  match body with
  | JObj fields =>
      if (List.length fields <? 1)%nat then Invalid object_min else Valid body
  | _ => Invalid object_base
  end.

(** [timestampSchema]: Joi.string().pattern(/^\d+$/).custom(...).  The
    custom rule runs on strings of digits only, for which [parseInt] is a
    number. *)
Definition validateTimestamp (now_ms : Z) (raw : query_value) : validation Z :=
  match raw with
  | QString s =>
      if String.eqb s "" then Invalid string_empty
      else if negb (digits_pattern s) then Invalid string_pattern_base
      else
        match parseInt s with
        | Some timestamp =>
            if timestamp <? 0 then Invalid any_invalid
            else if unix_seconds now_ms + 86400 <? timestamp then Invalid any_invalid
            else Valid timestamp
        | None => Invalid any_invalid
        end
  | _ => Invalid string_base
  end.

End Validators.

(** ** The SQLite table [kv_store] *)
Module Sqlite.

(** A row of [kv_store]; [created_at], which no caller reads, is left out. *)
Record row : Type := Row {
  row_id : Z;
  row_key : string;
  row_value : string;
  row_timestamp : Z
}.

(** The table in rowid order and the AUTOINCREMENT counter. *)
Record table : Type := Table {
  rows : list row;
  last_rowid : Z
}.

Definition empty : table := Table [] 0.

Inductive sqlite_code : Type :=
| SQLITE_CONSTRAINT
| SQLITE_FULL
| SQLITE_BUSY
| SQLITE_ERROR.

(** The [err] handed to a callback. *)
Record sqlite_err : Type := SqliteErr {
  err_code : sqlite_code;
  err_message : string
}.

(** UNIQUE(key, timestamp) *)
Definition same_version (key : string) (timestamp : Z) (r : row) : bool :=
  String.eqb (row_key r) key && (row_timestamp r =? timestamp).

(** INSERT OR REPLACE INTO kv_store (key, value, timestamp) VALUES (?, ?, ?):
    the rows in conflict on (key, timestamp) are deleted, the new row gets
    the next rowid. *)
Definition insert_or_replace (t : table) (key value : string) (timestamp : Z) : table :=
  let id := last_rowid t + 1 in
  Table (List.filter (fun r => negb (same_version key timestamp r)) (rows t)
           ++ [Row id key value timestamp])
        id.

(** [db.run(sql, params, callback)] for the statement above.  [fault] is the
    failure SQLite meets while running the statement, if any; a statement
    that fails is rolled back as a whole, the table is the one before it. *)
Definition run_insert_or_replace (fault : option sqlite_err) (t : table)
    (key value : string) (timestamp : Z) : table * option sqlite_err :=
  let snapshot := t in
  let t' := insert_or_replace t key value timestamp in
  match fault with
  | Some err => (snapshot, Some err)
  | None => (t', None)
  end.

(** What [db.run] makes of one statement with its three parameters: the
    table it leaves and the error it hands to the callback, if any. *)
Definition engine : Type :=
  table -> string -> string -> Z -> table * option sqlite_err.

(** ORDER BY timestamp DESC LIMIT 1 *)
Fixpoint order_by_timestamp_desc_limit_1 (l : list row) : option row :=
  match l with
  | [] => None
  | r :: l' =>
      match order_by_timestamp_desc_limit_1 l' with
      | Some m => Some (if row_timestamp m <=? row_timestamp r then r else m)
      | None => Some r
      end
  end.

(** SELECT ... WHERE key = ? ORDER BY timestamp DESC LIMIT 1 *)
Definition select_latest (t : table) (key : string) : option row :=
  order_by_timestamp_desc_limit_1
    (List.filter (fun r => String.eqb (row_key r) key) (rows t)).

(** SELECT ... WHERE key = ? AND timestamp <= ? ORDER BY timestamp DESC LIMIT 1 *)
Definition select_as_of (t : table) (key : string) (timestamp : Z) : option row :=
  order_by_timestamp_desc_limit_1
    (List.filter (fun r => String.eqb (row_key r) key && (row_timestamp r <=? timestamp))
            (rows t)).

(** [db.get(sql, params, callback)]: the callback receives [err] or the row. *)
Definition get (fault : option sqlite_err) (found : option row) :
  sqlite_err + option row :=
  match fault with
  | Some err => inl err
  | None => inr found
  end.

(** ORDER BY timestamp DESC, over all the rows selected. *)
Fixpoint insert_desc (r : row) (sorted : list row) : list row :=
  match sorted with
  | [] => [r]
  | a :: sorted' =>
      if row_timestamp a <=? row_timestamp r then r :: a :: sorted'
      else a :: insert_desc r sorted'
  end.

Fixpoint order_by_timestamp_desc (l : list row) : list row :=
  match l with
  | [] => []
  | r :: l' => insert_desc r (order_by_timestamp_desc l')
  end.

(** SELECT key, value, timestamp FROM kv_store WHERE key = ?
    ORDER BY timestamp DESC *)
Definition select_all (t : table) (key : string) : list row :=
  order_by_timestamp_desc
    (List.filter (fun r => String.eqb (row_key r) key) (rows t)).

(** [db.all(sql, params, callback)]: the callback receives [err] or the rows. *)
Definition all (fault : option sqlite_err) (found : list row) :
  sqlite_err + list row :=
  match fault with
  | Some err => inl err
  | None => inr found
  end.

(** The keys COUNT(DISTINCT key) counts. *)
Fixpoint distinct (keys : list string) : list string :=
  match keys with
  | [] => []
  | k :: keys' =>
      if existsb (String.eqb k) keys' then distinct keys' else k :: distinct keys'
  end.

(** MIN(timestamp) and MAX(timestamp), NULL over no row. *)
Fixpoint min_timestamp (l : list row) : option Z :=
  match l with
  | [] => None
  | r :: l' =>
      match min_timestamp l' with
      | Some m => Some (Z.min (row_timestamp r) m)
      | None => Some (row_timestamp r)
      end
  end.

Fixpoint max_timestamp (l : list row) : option Z :=
  match l with
  | [] => None
  | r :: l' =>
      match max_timestamp l' with
      | Some m => Some (Z.max (row_timestamp r) m)
      | None => Some (row_timestamp r)
      end
  end.

(** The row of the statistics query. *)
Record stats_row : Type := StatsRow {
  total_records : nat;
  unique_keys : nat;
  earliest_timestamp : option Z;
  latest_timestamp : option Z
}.

(** SELECT COUNT( * ), COUNT(DISTINCT key), MIN(timestamp), MAX(timestamp)
    FROM kv_store *)
Definition select_stats (t : table) : stats_row :=
  StatsRow (List.length (rows t))
           (List.length (distinct (map row_key (rows t))))
           (min_timestamp (rows t))
           (max_timestamp (rows t)).

End Sqlite.

(** ** src/database.js *)
Module Database.

Import Json Js Sqlite.

(** What [storeValue] resolves with. *)
Record stored : Type := Stored {
  stored_id : Z;
  stored_key : string;
  stored_value : string;
  stored_timestamp : Z;
  stored_size : nat
}.

(** What [getValueAtTimestamp] resolves with. *)
Record version : Type := Version {
  version_key : string;
  version_value : read_value;
  version_timestamp : Z
}.

(** [typeof value === 'string' ? value : JSON.stringify(value)] *)
Definition valueStr (value : json) : string :=
  match value with
  | JStr s => s
  | _ => JSON_stringify value
  end.

(** [storeValue]; [run] is [this.db.run] on the INSERT OR REPLACE. *)
Definition storeValue_on (run : engine) (db : table)
    (key : string) (value : json) (timestamp : Z) : table * promise stored :=
  let valueStr := valueStr value in
  let valueSize := String.length valueStr in
  match run db key valueStr timestamp with
  | (db', Some err) =>
      (db',
       match err_code err with
       | SQLITE_CONSTRAINT => Rejected ("Constraint violation: " ++ err_message err)
       | SQLITE_FULL => Rejected "Database storage full"
       | SQLITE_BUSY => Rejected "Database is busy, please retry"
       | SQLITE_ERROR => Rejected ("Database operation failed: " ++ err_message err)
       end)
  | (db', None) =>
      (db', Resolved (Stored (last_rowid db') key valueStr timestamp valueSize))
  end.

(** [storeValue] over SQLite as modelled above, meeting [fault] or none. *)
Definition storeValue (fault : option sqlite_err) (db : table)
    (key : string) (value : json) (timestamp : Z) : table * promise stored :=
  storeValue_on (run_insert_or_replace fault) db key value timestamp.

(** Resolves with the row as SQLite returns it, or with [undefined]. *)
Definition getLatestValue (fault : option sqlite_err) (db : table) (key : string) :
  promise (option row) :=
  match get fault (select_latest db key) with
  | inl err =>
      match err_code err with
      | SQLITE_BUSY => Rejected "Database is busy, please retry"
      | _ => Rejected ("Database query failed: " ++ err_message err)
      end
  | inr row => Resolved row
  end.

Definition getValueAtTimestamp (fault : option sqlite_err) (db : table)
    (key : string) (timestamp : Z) : promise (option version) :=
  match get fault (select_as_of db key timestamp) with
  | inl err => Rejected (err_message err)
  | inr (Some row) =>
      let parsedValue := parse_or_raw (row_value row) in
      Resolved (Some (Version (row_key row) parsedValue (row_timestamp row)))
  | inr None => Resolved None
  end.

Definition getAllVersions (fault : option sqlite_err) (db : table) (key : string) :
  promise (list version) :=
  match all fault (select_all db key) with
  | inl err => Rejected (err_message err)
  | inr rows =>
      let versions :=
        map (fun row =>
               let parsedValue := parse_or_raw (row_value row) in
               Version (row_key row) parsedValue (row_timestamp row))
            rows in
      Resolved versions
  end.

Definition getStats (fault : option sqlite_err) (db : table) : promise stats_row :=
  match fault with
  | Some err => Rejected (err_message err)
  | None => Resolved (select_stats db)
  end.

(** [init]: up to [maxRetries] attempts, each one [connectWithRetry], then
    [createTables], then [optimizeDatabase] (which never rejects);
    [outcome attempt] is the error that attempt meets, if any.  The result
    holds the attempt that succeeded and the delays waited, in
    milliseconds. *)
Definition maxRetries : nat := 3.
Definition retryDelay : Z := 1000.

Fixpoint init_loop (fuel attempt : nat) (outcome : nat -> option string)
    (waited : list Z) : promise nat * list Z :=
  match fuel with
  | O => (Resolved attempt, waited)
  | S fuel' =>
      match outcome attempt with
      | None => (Resolved attempt, waited)
      | Some message =>
          if (attempt =? maxRetries)%nat then
            (Rejected ("Database initialization failed after "
                       ++ digits_of_N (N.of_nat maxRetries) ++ " attempts: "
                       ++ message),
             waited)
          else
            init_loop fuel' (S attempt) outcome
              (waited ++ [retryDelay * Z.of_nat attempt])%list
      end
  end.

Definition init (outcome : nat -> option string) : promise nat * list Z :=
  init_loop maxRetries 1 outcome [].

End Database.

(** ** src/database-serverless.js (class [ServerlessDatabase]) *)
Module ServerlessDatabase.

Import Json Js Sqlite.

Definition valueStr (value : json) : string :=
  match value with
  | JStr s => s
  | _ => JSON_stringify value
  end.

Definition storeValue (fault : option sqlite_err) (db : table)
    (key : string) (value : json) (timestamp : Z) :
  table * promise (Z * string * string * Z) :=
  let valueStr := valueStr value in
  match run_insert_or_replace fault db key valueStr timestamp with
  | (db', Some err) => (db', Rejected (err_message err))
  | (db', None) => (db', Resolved (last_rowid db', key, valueStr, timestamp))
  end.

Definition getLatestValue (fault : option sqlite_err) (db : table) (key : string) :
  promise (option Database.version) :=
  match get fault (select_latest db key) with
  | inl err => Rejected (err_message err)
  | inr (Some row) =>
      let parsedValue := parse_or_raw (row_value row) in
      Resolved (Some (Database.Version (row_key row) parsedValue (row_timestamp row)))
  | inr None => Resolved None
  end.

Definition getValueAtTimestamp (fault : option sqlite_err) (db : table)
    (key : string) (timestamp : Z) : promise (option Database.version) :=
  match get fault (select_as_of db key timestamp) with
  | inl err => Rejected (err_message err)
  | inr (Some row) =>
      let parsedValue := parse_or_raw (row_value row) in
      Resolved (Some (Database.Version (row_key row) parsedValue (row_timestamp row)))
  | inr None => Resolved None
  end.

End ServerlessDatabase.

(** ** src/database-mongodb.js *)
Module MongoDatabase.

Import Json Js.

(** A document of the collection [kv_pairs]; [_id] and [created_at] are
    left out. *)
Record document : Type := Document {
  doc_key : string;
  doc_value : json;
  doc_timestamp : Z
}.

Record mongo : Type := Mongo {
  collection : list document;
  isConnected : bool
}.

(** [findOne(query, { sort: { timestamp: -1 } })] *)
Fixpoint sort_timestamp_desc_first (l : list document) : option document :=
  match l with
  | [] => None
  | d :: l' =>
      match sort_timestamp_desc_first l' with
      | Some m => Some (if doc_timestamp m <=? doc_timestamp d then d else m)
      | None => Some d
      end
  end.

(** A failed [insertOne]: the message of the error the driver throws, and
    whether the server had applied the insert all the same (the
    acknowledgement was lost on the way, or the write concern timed out).
    [storeValue] rethrows the error in both cases. *)
Record insert_fault : Type := InsertFault {
  fault_message : string;
  fault_applied : bool
}.

(** [insertOne] appends the document; the indexes created by
    [createIndexes] are not unique. *)
Definition storeValue (fault : option insert_fault) (now_ms : Z) (db : mongo)
    (key : string) (value : json) : mongo * promise document :=
  if negb (isConnected db) then (db, Rejected "Database not connected")
  else
    let timestamp := unix_seconds now_ms in
    let document := Document key value timestamp in
    let inserted := Mongo (collection db ++ [document]) (isConnected db) in
    match fault with
    | Some failure =>
        (if fault_applied failure then inserted else db,
         Rejected (fault_message failure))
    | None => (inserted, Resolved (Document key value timestamp))
    end.

(** [getValue(key, timestamp = null)]; the string is the raw query
    parameter. *)
Definition getValue (fault : option string) (db : mongo) (key : string)
    (timestamp : option string) : promise (option (json * Z)) :=
  if negb (isConnected db) then Rejected "Database not connected"
  else
    match fault with
    | Some message => Rejected message
    | None =>
        let by_key := fun d => String.eqb (doc_key d) key in
        let query :=
          match timestamp with
          | Some s =>
              if String.eqb s "" then by_key
              else
                match parseInt s with
                | Some t => fun d => by_key d && (doc_timestamp d <=? t)
                | None => fun _ => false
                end
          | None => by_key
          end in
        match sort_timestamp_desc_first (List.filter query (collection db)) with
        | Some result => Resolved (Some (doc_value result, doc_timestamp result))
        | None => Resolved None
        end
    end.

(** What [db.stats()] reports; a field may be missing. *)
Record db_stats : Type := DbStats {
  dataSize : option Z;
  indexSize : option Z;
  storageSize : option Z
}.

(** [x || 0] on a number that may be missing. *)
Definition or_zero (x : option Z) : Z :=
  match x with
  | Some n => n
  | None => 0
  end.

(** What [getStats] resolves with; [index_size] and [storage_size] are there
    after a successful query only, [stats_error] after a failed one only. *)
Record stats : Type := Stats {
  total_records : nat;
  unique_keys : nat;
  database_size : Z;
  index_size : option Z;
  storage_size : option Z;
  stats_error : option string
}.

(** [distinct('key')] *)
Fixpoint distinct (keys : list string) : list string :=
  match keys with
  | [] => []
  | k :: keys' =>
      if existsb (String.eqb k) keys' then distinct keys' else k :: distinct keys'
  end.

(** [getStats]; [fault] is the error one of the three queries throws. *)
Definition getStats (fault : option string) (dbStats : db_stats) (db : mongo) : stats :=
  if negb (isConnected db) then Stats 0 0 0 None None None
  else
    match fault with
    | Some message => Stats 0 0 0 None None (Some message)
    | None =>
        let totalRecords := List.length (collection db) in
        let uniqueKeys := distinct (map doc_key (collection db)) in
        Stats totalRecords (List.length uniqueKeys)
              (or_zero (dataSize dbStats))
              (Some (or_zero (indexSize dbStats)))
              (Some (or_zero (storageSize dbStats)))
              None
    end.

(** What [healthCheck] resolves with. *)
Inductive health : Type :=
| HealthDisconnected (error : string)
| HealthConnected (database : string) (stats : stats)
| HealthError (error : string).

(** [healthCheck]; [ping] is the error of [db.admin().ping()], if any. *)
Definition healthCheck (ping stats_fault : option string) (databaseName : string)
    (dbStats : db_stats) (db : mongo) : health :=
  if negb (isConnected db) then HealthDisconnected "Database not connected"
  else
    match ping with
    | Some message => HealthError message
    | None =>
        HealthConnected databaseName (getStats stats_fault dbStats db)
    end.

(** [close]; [fault] is the error [client.close()] throws, if any.  Before
    [connect] there is no client and [isConnected] is false already. *)
Definition close (fault : option string) (db : mongo) : mongo :=
  match fault with
  | Some _ => db
  | None => Mongo (collection db) false
  end.

End MongoDatabase.

(** ** HTTP responses and the trace of backend calls *)
Module Http.

Import Json Js Validators.

(** The body of a response.  [Plain b] is the JSON value [b].
    [WithValue value rest] is the object whose first property, ["value"],
    holds a value read back from a stored text that the embedding does not
    compute ([ParseOf], [ParsedTwice]), followed by the properties
    [rest]. *)
Inductive body_t : Type :=
| Plain (b : json)
| WithValue (value : read_value) (rest : list (string * json)).

Coercion Plain : json >-> body_t.

Record response : Type := Response {
  status : Z;
  body : body_t
}.

(** The backend operations a handler invokes, in order. *)
Inductive backend_call : Type :=
| CallStoreValue (key : string) (value : json)
| CallGetLatestValue (key : string)
| CallGetValueAtTimestamp (key : string) (timestamp : Z)
| CallGetValue (key : string) (timestamp : option string)
| CallMapGet (key : string)
| CallMapPush (key : string) (value : json) (timestamp : Z).

Definition error_type (e : joi_error) : string :=
  match e with
  | any_required => "any.required"
  | any_invalid => "any.invalid"
  | string_base => "string.base"
  | string_empty => "string.empty"
  | string_min => "string.min"
  | string_max => "string.max"
  | string_pattern_base => "string.pattern.base"
  | object_base => "object.base"
  | object_min => "object.min"
  end.

(** [error.details]; of each detail only Joi's type is kept. *)
Definition details (e : joi_error) : json :=
  JArr [JObj [("type", JStr (error_type e))]].

Definition json_error (status : Z) (message : string) : response :=
  Response status (JObj [("error", JStr message)]).

Definition json_error_details (status : Z) (message : string) (e : joi_error) :
  response :=
  Response status (JObj [("error", JStr message); ("details", details e)]).

(** [res.json(...)] without [res.status]: 200. *)
Definition json_ok (fields : list (string * json)) : response :=
  Response 200 (JObj fields).

(** [res.json({ value: value, ...rest })] for a value read back from a
    stored text. *)
Definition json_ok_value (value : read_value) (rest : list (string * json)) :
  response :=
  match value with
  | Known v => json_ok (("value", v) :: rest)
  | _ => Response 200 (WithValue value rest)
  end.

(** The entries of an array-like: [["0", x0], ["1", x1], ...]. *)
Fixpoint index_entries (index : N) (items : list json) : list (string * json) :=
  match items with
  | [] => []
  | x :: items' => (digits_of_N index, x) :: index_entries (index + 1) items'
  end.

(** The code units of a string, each a string of its own. *)
Fixpoint code_units (s : string) : list json :=
  match s with
  | EmptyString => []
  | String c s' => JStr (String c "") :: code_units s'
  end.

(** [Object.entries(req.body)]; [None] is the [TypeError] it throws on
    [null]. *)
Definition Object_entries (body : json) : option (list (string * json)) :=
  match body with
  | JObj fields => Some fields
  | JArr items => Some (index_entries 0 items)
  | JStr s => Some (index_entries 0 (code_units s))
  | JNull => None
  | JBool _ | JNum _ => Some []
  end.

(** The message of that [TypeError]. *)
Definition entries_of_null : string := "Cannot convert undefined or null to object".

(** The property of a response body, if it has it. *)
Fixpoint lookup_field (name : string) (fields : list (string * json)) : option json :=
  match fields with
  | [] => None
  | (k, v) :: fields' =>
      if String.eqb k name then Some v else lookup_field name fields'
  end.

(** The property of a response body, when the body has it and the embedding
    computes it. *)
Definition body_field (name : string) (r : response) : option json :=
  match body r with
  | Plain (JObj fields) => lookup_field name fields
  | WithValue _ rest =>
      if String.eqb name "value" then None else lookup_field name rest
  | _ => None
  end.

(** The value a read answers with. *)
Definition body_value (r : response) : option read_value :=
  match body r with
  | Plain (JObj fields) => option_map Known (lookup_field "value" fields)
  | WithValue value _ => Some value
  | _ => None
  end.

(** The string [Express] hands to [getValue] for a validated parameter. *)
Definition query_string (q : option query_value) : option string :=
  match q with
  | Some (QString s) => Some s
  | _ => None
  end.

End Http.

(** ** server.js: the server over [src/database.js] *)
Module Server.

Import Json Js Validators Sqlite Http.

Record outcome : Type := Outcome {
  db_after : table;
  resp : response;
  calls : list backend_call
}.

(** POST /object; [run] is [db.run] on the statement of [storeValue]. *)
Definition post_object_on (run : engine) (now_ms : Z) (db : table)
    (req_body : json) : outcome :=
  match validateValue req_body with
  | Invalid bodyError =>
      Outcome db (json_error_details 400 "Invalid request body" bodyError) []
  | Valid _ =>
      match Object_entries req_body with
      | Some [(key, value)] =>
          match validateKey key with
          | Invalid keyError =>
              Outcome db (json_error_details 400 "Invalid key" keyError) []
          | Valid _ =>
              let timestamp := unix_seconds now_ms in
              match Database.storeValue_on run db key value timestamp with
              | (db', Resolved _) =>
                  Outcome db'
                    (json_ok [("key", JStr key); ("value", value);
                              ("timestamp", JNum timestamp)])
                    [CallStoreValue key value]
              | (db', Rejected _) =>
                  Outcome db' (json_error 500 "Internal server error")
                    [CallStoreValue key value]
              end
          end
      | Some _ =>
          Outcome db
            (json_error 400 "Request body must contain exactly one key-value pair")
            []
      | None => Outcome db (json_error 500 "Internal server error") []
      end
  end.

(** POST /object over SQLite as modelled above, meeting [fault] or none. *)
Definition post_object (now_ms : Z) (fault : option sqlite_err) (db : table)
    (req_body : json) : outcome :=
  post_object_on (run_insert_or_replace fault) now_ms db req_body.

(** The branch without a timestamp. *)
Definition get_latest (fault : option sqlite_err) (db : table) (key : string) :
  response * list backend_call :=
  match Database.getLatestValue fault db key with
  | Resolved (Some result) =>
      (json_ok [("value", JStr (row_value result))], [CallGetLatestValue key])
  | Resolved None => (json_error 404 "Key not found", [CallGetLatestValue key])
  | Rejected _ => (json_error 500 "Internal server error", [CallGetLatestValue key])
  end.

(** GET /object/:key *)
Definition get_object (now_ms : Z) (fault : option sqlite_err) (db : table)
    (key : string) (timestamp : option query_value) : response * list backend_call :=
  match validateKey key with
  | Invalid keyError => (json_error_details 400 "Invalid key" keyError, [])
  | Valid _ =>
      match (if truthy timestamp then timestamp else None) with
      | Some raw =>
          match validateTimestamp now_ms raw with
          | Invalid timestampError =>
              (json_error_details 400 "Invalid timestamp" timestampError, [])
          | Valid t =>
              (* [parseInt(timestamp)] is the number the validator computed *)
              match Database.getValueAtTimestamp fault db key t with
              | Resolved (Some result) =>
                  (json_ok_value (Database.version_value result) [],
                   [CallGetValueAtTimestamp key t])
              | Resolved None =>
                  (json_error 404 "No value found for key at the specified timestamp",
                   [CallGetValueAtTimestamp key t])
              | Rejected _ =>
                  (json_error 500 "Internal server error",
                   [CallGetValueAtTimestamp key t])
              end
          end
      | None => get_latest fault db key
      end
  end.

End Server.

(** ** The serverless server over [src/database-serverless.js], second of
    the servers in server-mongodb.js *)
Module ServerlessServer.

Import Json Js Validators Sqlite Http.

(** GET /object/:key *)
Definition get_object (now_ms : Z) (fault : option sqlite_err) (database : table)
    (key : string) (timestamp : option query_value) : response * list backend_call :=
  match validateKey key with
  | Invalid keyError => (json_error_details 400 "Invalid key" keyError, [])
  | Valid _ =>
      match (if truthy timestamp then timestamp else None) with
      | Some raw =>
          match validateTimestamp now_ms raw with
          | Invalid timestampError =>
              (json_error_details 400 "Invalid timestamp" timestampError, [])
          | Valid t =>
              match ServerlessDatabase.getValueAtTimestamp fault database key t with
              | Resolved (Some result) =>
                  (json_ok_value (Database.version_value result) [],
                   [CallGetValueAtTimestamp key t])
              | Resolved None =>
                  (json_error 404 "No value found for key at the specified timestamp",
                   [CallGetValueAtTimestamp key t])
              | Rejected _ =>
                  (json_error 500 "Internal server error",
                   [CallGetValueAtTimestamp key t])
              end
          end
      | None =>
          match ServerlessDatabase.getLatestValue fault database key with
          | Resolved (Some result) =>
              (json_ok_value (Database.version_value result) [],
               [CallGetLatestValue key])
          | Resolved None =>
              (json_error 404 "Key not found", [CallGetLatestValue key])
          | Rejected _ =>
              (json_error 500 "Internal server error", [CallGetLatestValue key])
          end
      end
  end.

(** POST /object; [database] is the one database of the process, which
    [initDatabase] returns. *)
Definition post_object (now_ms : Z) (fault : option sqlite_err) (database : table)
    (req_body : json) : table * response * list backend_call :=
  match validateValue req_body with
  | Invalid bodyError =>
      (database, json_error_details 400 "Invalid request body" bodyError, [])
  | Valid _ =>
      match Object_entries req_body with
      | Some [(key, value)] =>
          match validateKey key with
          | Invalid keyError =>
              (database, json_error_details 400 "Invalid key" keyError, [])
          | Valid _ =>
              let timestamp := unix_seconds now_ms in
              match ServerlessDatabase.storeValue fault database key value timestamp with
              | (database', Resolved _) =>
                  (database',
                   json_ok [("key", JStr key); ("value", value);
                            ("timestamp", JNum timestamp)],
                   [CallStoreValue key value])
              | (database', Rejected _) =>
                  (database', json_error 500 "Internal server error",
                   [CallStoreValue key value])
              end
          end
      | Some _ =>
          (database,
           json_error 400 "Request body must contain exactly one key-value pair",
           [])
      | None => (database, json_error 500 "Internal server error", [])
      end
  end.

End ServerlessServer.

(** ** server-mongodb.js: the server over [src/database-mongodb.js], first
    of the servers in that file *)
Module MongoServer.

Import Json Js Validators MongoDatabase Http.

Record outcome : Type := Outcome {
  db_after : mongo;
  resp : response;
  calls : list backend_call
}.

(** POST /object *)
Definition post_object (now_ms : Z) (fault : option insert_fault) (db : mongo)
    (req_body : json) : outcome :=
  match validateValue req_body with
  | Invalid bodyError =>
      Outcome db (json_error_details 400 "Invalid request body" bodyError) []
  | Valid _ =>
      match Object_entries req_body with
      | Some [(key, value)] =>
          match validateKey key with
          | Invalid keyError =>
              Outcome db (json_error_details 400 "Invalid key" keyError) []
          | Valid _ =>
              match storeValue fault now_ms db key value with
              | (db', Resolved result) =>
                  Outcome db'
                    (json_ok [("key", JStr (doc_key result));
                              ("value", doc_value result);
                              ("timestamp", JNum (doc_timestamp result))])
                    [CallStoreValue key value]
              | (db', Rejected _) =>
                  Outcome db' (json_error 500 "Internal server error")
                    [CallStoreValue key value]
              end
          end
      | Some _ =>
          Outcome db
            (json_error 400 "Request body must contain exactly one key-value pair")
            []
      | None => Outcome db (json_error 500 "Internal server error") []
      end
  end.

(** GET /object/:key: the timestamp is validated when provided, the key goes
    to [db.getValue] as received. *)
Definition get_object (now_ms : Z) (fault : option string) (db : mongo)
    (key : string) (timestamp : option query_value) : response * list backend_call :=
  match (if truthy timestamp
         then match timestamp with
              | Some raw =>
                  match validateTimestamp now_ms raw with
                  | Invalid timestampError => Some timestampError
                  | Valid _ => None
                  end
              | None => None
              end
         else None) with
  | Some timestampError =>
      (json_error_details 400 "Invalid timestamp" timestampError, [])
  | None =>
      let call := CallGetValue key (query_string timestamp) in
      match getValue fault db key (query_string timestamp) with
      | Resolved (Some (value, _)) => (json_ok [("value", value)], [call])
      | Resolved None => (json_error 404 "Key not found", [call])
      | Rejected _ => (json_error 500 "Internal server error", [call])
      end
  end.

(** [health.stats || {}] as the body shows it. *)
Definition stats_json (st : stats) : json :=
  JObj ([("total_records", JNum (Z.of_nat (total_records st)));
         ("unique_keys", JNum (Z.of_nat (unique_keys st)));
         ("database_size", JNum (database_size st))]
        ++ match index_size st with
           | Some n => [("index_size", JNum n)]
           | None => []
           end
        ++ match storage_size st with
           | Some n => [("storage_size", JNum n)]
           | None => []
           end
        ++ match stats_error st with
           | Some message => [("error", JStr message)]
           | None => []
           end)%list.

(** GET /health; [timestamp] is [new Date().toISOString()] and [uptime] is
    [process.uptime()] as the body shows it. *)
Definition get_health (timestamp : string) (uptime : json) (h : health) : response :=
  match h with
  | HealthConnected _ st =>
      json_ok [("status", JStr "healthy"); ("timestamp", JStr timestamp);
               ("uptime", uptime); ("database", JStr "connected");
               ("stats", stats_json st)]
  | HealthDisconnected error =>
      Response 503
        (JObj [("status", JStr "unhealthy"); ("timestamp", JStr timestamp);
               ("uptime", uptime); ("database", JStr "disconnected");
               ("stats", JObj []); ("error", JStr error)])
  | HealthError error =>
      Response 503
        (JObj [("status", JStr "unhealthy"); ("timestamp", JStr timestamp);
               ("uptime", uptime); ("database", JStr "error");
               ("stats", JObj []); ("error", JStr error)])
  end.

End MongoServer.

(** ** api/index.js: the serverless entry point over an in-memory [Map] *)
Module Api.

Import Json Js Validators Http.

Record version : Type := Version {
  value : json;
  timestamp : Z
}.

Record outcome : Type := Outcome {
  store_after : gmap string (list version);
  resp : response;
  calls : list backend_call
}.

(** [if (!store.has(key)) store.set(key, []); store.get(key).push(...)] *)
Definition push (store : gmap string (list version)) (key : string)
    (v : version) : gmap string (list version) :=
  let store1 :=
    match store !! key with
    | Some _ => store
    | None => <[key := []]> store
    end in
  match store1 !! key with
  | Some versions => <[key := (versions ++ [v])%list]> store1
  | None => store1
  end.

(** POST /object *)
Definition post_object (now_ms : Z) (store : gmap string (list version))
    (req_body : json) : outcome :=
  match validateValue req_body with
  | Invalid bodyError =>
      Outcome store (json_error_details 400 "Invalid request body" bodyError) []
  | Valid _ =>
      match Object_entries req_body with
      | Some [(key, value)] =>
          match validateKey key with
          | Invalid keyError =>
              Outcome store (json_error_details 400 "Invalid key" keyError) []
          | Valid _ =>
              let timestamp := unix_seconds now_ms in
              Outcome (push store key (Version value timestamp))
                (json_ok [("key", JStr key); ("value", value);
                          ("timestamp", JNum timestamp)])
                [CallMapPush key value timestamp]
          end
      | Some _ =>
          Outcome store
            (json_error 400 "Request body must contain exactly one key-value pair")
            []
      | None =>
          Outcome store
            (Response 500
               (JObj [("error", JStr "Internal server error");
                      ("message", JStr entries_of_null)]))
            []
      end
  end.

(** [validVersions[validVersions.length - 1]] *)
Fixpoint last_version (versions : list version) : option version :=
  match versions with
  | [] => None
  | [v] => Some v
  | _ :: versions' => last_version versions'
  end.

(** The versions a point-in-time read chooses from. *)
Definition validVersions (versions : list version) (targetTimestamp : Z) :
  list version :=
  List.filter (fun v => timestamp v <=? targetTimestamp) versions.

(** GET /object/:key *)
Definition get_object (now_ms : Z) (store : gmap string (list version))
    (key : string) (timestamp : option query_value) : response * list backend_call :=
  match validateKey key with
  | Invalid keyError => (json_error_details 400 "Invalid key" keyError, [])
  | Valid _ =>
      match store !! key with
      | None | Some [] => (json_error 404 "Key not found", [CallMapGet key])
      | Some versions =>
          match (if truthy timestamp then timestamp else None) with
          | Some raw =>
              match validateTimestamp now_ms raw with
              | Invalid timestampError =>
                  (json_error_details 400 "Invalid timestamp" timestampError,
                   [CallMapGet key])
              | Valid targetTimestamp =>
                  match last_version (validVersions versions targetTimestamp) with
                  | None =>
                      (json_error 404 "No value found for key at the specified timestamp",
                       [CallMapGet key])
                  | Some latestVersion =>
                      (json_ok [("value", value latestVersion)], [CallMapGet key])
                  end
              end
          | None =>
              match last_version versions with
              | Some latestVersion =>
                  (json_ok [("value", value latestVersion)], [CallMapGet key])
              | None => (json_error 404 "Key not found", [CallMapGet key])
              end
          end
      end
  end.

(** GET /health; [timestamp] is [new Date().toISOString()]. *)
Definition get_health (timestamp : string) (store : gmap string (list version)) :
  response :=
  json_ok [("status", JStr "healthy"); ("timestamp", JStr timestamp);
           ("environment", JStr "serverless");
           ("storeSize", JNum (Z.of_nat (base.size store)))].

End Api.

(** ** The production server over [src/database.js], third of the servers
    in server-mongodb.js

    [requestId] and [errorId] are the identifiers the handler draws from the
    clock and [Math.random()], [iso] is [new Date().toISOString()]. *)
Module ProductionServer.

Import Json Js Validators Sqlite Http.

Record outcome : Type := Outcome {
  db_after : table;
  resp : response;
  calls : list backend_call
}.

(** The limit on [JSON.stringify(value).length]. *)
Definition value_limit : Z := 1024 * 1024.

Definition strings (l : list string) : json := JArr (map JStr l).

(** The answer of the [catch] block of POST /object. *)
Definition post_failure (requestId errorId iso message : string) : response :=
  if includes message "UNIQUE constraint" then
    Response 409
      (JObj [("error", JStr "Duplicate key-timestamp combination");
             ("requestId", JStr requestId); ("errorId", JStr errorId);
             ("timestamp", JStr iso)])
  else
    Response 500
      (JObj [("error", JStr "Internal server error");
             ("requestId", JStr requestId); ("errorId", JStr errorId);
             ("timestamp", JStr iso)]).

(** POST /object *)
Definition post_object (requestId errorId iso : string)
    (contentType : option string) (now_ms : Z) (fault : option sqlite_err)
    (db : table) (req_body : json) : outcome :=
  let json_type :=
    match contentType with
    | Some ct => negb (String.eqb ct "") && includes ct "application/json"
    | None => false
    end in
  if negb json_type then
    Outcome db
      (Response 400
         (JObj [("error", JStr "Content-Type must be application/json");
                ("requestId", JStr requestId); ("timestamp", JStr iso)]))
      []
  else
    match validateValue req_body with
    | Invalid bodyError =>
        Outcome db
          (Response 400
             (JObj [("error", JStr "Invalid request body format");
                    ("details", details bodyError);
                    ("requestId", JStr requestId); ("timestamp", JStr iso);
                    ("hints", strings ["Request body must be valid JSON object";
                                       "Maximum 100 properties per object"])]))
          []
    | Valid _ =>
        match Object_entries req_body with
        | Some [(key, value)] =>
            match validateKey key with
            | Invalid keyError =>
                Outcome db
                  (Response 400
                     (JObj [("error", JStr "Invalid key format");
                            ("key", JStr key); ("details", details keyError);
                            ("requestId", JStr requestId); ("timestamp", JStr iso);
                            ("hints",
                             strings ["Keys must be 1-255 characters long";
                                      "Only letters, numbers, underscores, hyphens, and dots allowed";
                                      "Cannot start or end with dots"])]))
                  []
            | Valid _ =>
                let timestamp := unix_seconds now_ms in
                let valueSize := Z.of_nat (String.length (JSON_stringify value)) in
                if value_limit <? valueSize then
                  Outcome db
                    (Response 413
                       (JObj [("error", JStr "Value too large");
                              ("size", JNum valueSize); ("limit", JNum value_limit);
                              ("requestId", JStr requestId);
                              ("timestamp", JStr iso)]))
                    []
                else
                  match Database.storeValue fault db key value timestamp with
                  | (db', Resolved _) =>
                      Outcome db'
                        (Response 201
                           (JObj [("key", JStr key); ("value", value);
                                  ("timestamp", JNum timestamp);
                                  ("requestId", JStr requestId);
                                  ("size", JNum valueSize)]))
                        [CallStoreValue key value]
                  | (db', Rejected message) =>
                      Outcome db' (post_failure requestId errorId iso message)
                        [CallStoreValue key value]
                  end
            end
        | None => Outcome db (post_failure requestId errorId iso entries_of_null) []
        | Some entries =>
            Outcome db
              (Response 400
                 (JObj [("error",
                         JStr "Request body must contain exactly one key-value pair");
                        ("received", JNum (Z.of_nat (List.length entries)));
                        ("requestId", JStr requestId); ("timestamp", JStr iso);
                        ("hint",
                         JStr ("Send JSON like: {" ++ String dquote "mykey"
                               ++ String dquote ": " ++ String dquote "myvalue"
                               ++ String dquote "}"))]))
              []
        end
    end.

Definition get_failure (requestId errorId iso : string) : response :=
  Response 500
    (JObj [("error", JStr "Internal server error");
           ("requestId", JStr requestId); ("errorId", JStr errorId);
           ("timestamp", JStr iso)]).

(** GET /object/:key.  The value of a point-in-time read was parsed by
    [getValueAtTimestamp] and is parsed once more here. *)
Definition get_object (requestId errorId iso : string) (now_ms : Z)
    (fault : option sqlite_err) (db : table) (key : string)
    (timestamp : option query_value) : response * list backend_call :=
  match validateKey key with
  | Invalid keyError =>
      (Response 400
         (JObj [("error", JStr "Invalid key format"); ("key", JStr key);
                ("details", details keyError);
                ("requestId", JStr requestId); ("timestamp", JStr iso);
                ("hints",
                 strings ["Keys must be 1-255 characters long";
                          "Only letters, numbers, underscores, hyphens, and dots allowed"])]),
       [])
  | Valid _ =>
      match (if truthy timestamp then timestamp else None) with
      | Some raw =>
          match validateTimestamp now_ms raw with
          | Invalid timestampError =>
              (Response 400
                 (JObj [("error", JStr "Invalid timestamp format");
                        ("timestamp", JStr iso);
                        ("details", details timestampError);
                        ("requestId", JStr requestId);
                        ("hints",
                         strings ["Timestamp must be a valid Unix timestamp (seconds since epoch)";
                                  "Cannot be more than 1 day in the future";
                                  "Example: "
                                  ++ stringify_number (unix_seconds now_ms)])]),
               [])
          | Valid ts =>
              match Database.getValueAtTimestamp fault db key ts with
              | Resolved (Some result) =>
                  let parsedValue := parse_again (Database.version_value result) in
                  (json_ok_value parsedValue
                     [("timestamp", JNum (Database.version_timestamp result));
                      ("requestId", JStr requestId);
                      ("retrievedAt", JStr iso)],
                   [CallGetValueAtTimestamp key ts])
              | Resolved None =>
                  (Response 404
                     (JObj [("error",
                             JStr "No value found for key at specified timestamp");
                            ("key", JStr key); ("timestamp", JStr iso);
                            ("requestId", JStr requestId);
                            ("hint",
                             JStr "Try getting the latest value without timestamp parameter")]),
                   [CallGetValueAtTimestamp key ts])
              | Rejected _ =>
                  (get_failure requestId errorId iso, [CallGetValueAtTimestamp key ts])
              end
          end
      | None =>
          match Database.getLatestValue fault db key with
          | Resolved (Some result) =>
              let parsedValue := parse_or_raw (row_value result) in
              (json_ok_value parsedValue
                 [("timestamp", JNum (row_timestamp result));
                  ("requestId", JStr requestId);
                  ("retrievedAt", JStr iso)],
               [CallGetLatestValue key])
          | Resolved None =>
              (Response 404
                 (JObj [("error", JStr "Key not found"); ("key", JStr key);
                        ("requestId", JStr requestId); ("timestamp", JStr iso);
                        ("hint",
                         JStr "Make sure the key exists by storing a value first")]),
               [CallGetLatestValue key])
          | Rejected _ =>
              (get_failure requestId errorId iso, [CallGetLatestValue key])
          end
      end
  end.

End ProductionServer.

(** ** Vocabulary of the properties *)
Module Props.

Import Json Js Validators Http.

(** The response is one of the two refusals of the request body. *)
Definition invalid_body (r : response) : bool :=
  (status r =? 400)
  && match body_field "error" r with
     | Some (JStr m) =>
         String.eqb m "Invalid request body"
         || String.eqb m "Request body must contain exactly one key-value pair"
     | _ => false
     end.

(** The response refuses the key. *)
Definition invalid_key (r : response) : bool :=
  (status r =? 400)
  && match body_field "error" r with
     | Some (JStr m) => String.eqb m "Invalid key"
     | _ => false
     end.


(** The body is a JSON object with exactly one property. *)
Definition one_property (b : json) : bool :=
  match b with
  | JObj [_] => true
  | _ => false
  end.

(** The property POST /object goes on to store: the body is an object with
    exactly one property, whose key [validateKey] accepts. *)
Definition stored_property (b : json) : option (string * json) :=
  match b with
  | JObj [(key, value)] =>
      match validateKey key with
      | Valid _ => Some (key, value)
      | Invalid _ => None
      end
  | _ => None
  end.

(** The identity of a row. *)
Definition kt (r : Sqlite.row) : string * Z :=
  (Sqlite.row_key r, Sqlite.row_timestamp r).

(** At most one row per (key, timestamp). *)
Definition unique_rows (t : Sqlite.table) : Prop :=
  List.NoDup (map kt (Sqlite.rows t)).

(** At most one version per timestamp under every key of the [Map]. *)
Definition unique_versions (store : gmap string (list Api.version)) : Prop :=
  forall key versions,
    store !! key = Some versions -> List.NoDup (map Api.timestamp versions).

(** The versions of a key in the order of a clock that never goes back. *)
Fixpoint chronological (versions : list Api.version) : Prop :=
  match versions with
  | [] => True
  | v :: l =>
      Forall (fun w => Api.timestamp v <= Api.timestamp w) l /\ chronological l
  end.

(** The stores api/index.js reaches while the clock never goes back; the
    number is the last reading of the clock. *)
Inductive api_reachable : Z -> gmap string (list Api.version) -> Prop :=
| api_reachable_empty now : api_reachable now ∅
| api_reachable_post now now' store req_body :
    api_reachable now store ->
    now <= now' ->
    api_reachable now' (Api.store_after (Api.post_object now' store req_body)).

(** At most one document per (key, timestamp). *)
Definition unique_documents (db : MongoDatabase.mongo) : Prop :=
  List.NoDup (map (fun d => (MongoDatabase.doc_key d, MongoDatabase.doc_timestamp d))
             (MongoDatabase.collection db)).

(** The tables the two SQLite backends reach from the empty table. *)
Inductive reachable : Sqlite.table -> Prop :=
| reachable_empty : reachable Sqlite.empty
| reachable_store fault db key value timestamp :
    reachable db ->
    reachable (fst (Database.storeValue fault db key value timestamp))
| reachable_store_serverless fault db key value timestamp :
    reachable db ->
    reachable (fst (ServerlessDatabase.storeValue fault db key value timestamp)).

(** The message [storeValue] rejects with. *)
Definition rejection (err : Sqlite.sqlite_err) : string :=
  match Sqlite.err_code err with
  | Sqlite.SQLITE_CONSTRAINT => "Constraint violation: " ++ Sqlite.err_message err
  | Sqlite.SQLITE_FULL => "Database storage full"
  | Sqlite.SQLITE_BUSY => "Database is busy, please retry"
  | Sqlite.SQLITE_ERROR => "Database operation failed: " ++ Sqlite.err_message err
  end.

(** SQLite runs a statement as a whole or not at all: when [db.run] reports
    an error, the table is the one before the statement. *)
Definition statement_atomic (run : Sqlite.engine) : Prop :=
  forall db key value timestamp err,
    snd (run db key value timestamp) = Some err ->
    fst (run db key value timestamp) = db.

(** The version a read builds from a row. *)
Definition to_version (r : Sqlite.row) : Database.version :=
  Database.Version (Sqlite.row_key r) (parse_or_raw (Sqlite.row_value r))
                   (Sqlite.row_timestamp r).

(** Timestamps from the newest to the oldest. *)
Fixpoint descending (l : list Z) : Prop :=
  match l with
  | [] => True
  | a :: l' => Forall (fun b => b <= a) l' /\ descending l'
  end.

End Props.

(** * Properties *)

Import Json Js Validators Http Props.

(** [Server.post_object] and [Database.storeValue] are their [_on] versions
    over the SQLite of the embedding. *)
Ltac fold_store :=
  repeat match goal with
         | |- context [Database.storeValue_on (Sqlite.run_insert_or_replace ?f)] =>
             change (Database.storeValue_on (Sqlite.run_insert_or_replace f))
               with (Database.storeValue f)
         end.

(** ** Validators *)

Lemma all_chars_digits s : all_chars is_digit s = all_digits s.
Proof. induction s as [|c s IH]; simpl; [reflexivity | now rewrite IH]. Qed.

Lemma digits_pattern_nonempty s : digits_pattern s = true -> s <> "".
Proof. destruct s; [discriminate | discriminate]. Qed.

Lemma parseInt_digits s :
  digits_pattern s = true -> parseInt s = Some (decimal_acc 0 s).
Proof.
  destruct s as [|c s]; [discriminate |].
  unfold digits_pattern, parseInt. rewrite all_chars_digits. now intros ->.
Qed.

Lemma decimal_acc_nonneg s : forall acc, 0 <= acc -> 0 <= decimal_acc acc s.
Proof.
  induction s as [|c s IH]; simpl; intros acc Hacc; [assumption |].
  apply IH. lia.
Qed.

Lemma eqb_empty_false s : s <> "" -> String.eqb s "" = false.
Proof. intros H. apply String.eqb_neq. exact H. Qed.

(** [validateKey] accepts exactly the keys of 1 to 255 characters drawn from
    [[A-Za-z0-9_.-]]. *)
Lemma validateKey_valid_iff key :
  validateKey key = Valid key <->
  (1 <= String.length key <= 255)%nat /\ all_chars key_char key = true.
Proof.
  unfold validateKey, key_pattern.
  destruct key as [|c k].
  - simpl. split; [discriminate | intros [[H _] _]; simpl in H; lia].
  - rewrite eqb_empty_false by discriminate.
    destruct (String.length (String c k) <? 1)%nat eqn:Hmin.
    { apply Nat.ltb_lt in Hmin. simpl in Hmin. lia. }
    destruct (255 <? String.length (String c k))%nat eqn:Hmax.
    { apply Nat.ltb_lt in Hmax. split; [discriminate | intros [[_ H] _]; lia]. }
    apply Nat.ltb_ge in Hmax.
    destruct (all_chars key_char (String c k)) eqn:Hpat; simpl.
    + split; [intros _ | reflexivity]. split; [simpl in *; lia | reflexivity].
    + split; [discriminate | intros [_ H]; discriminate].
Qed.

Lemma validateKey_cases key :
  validateKey key = Valid key \/ exists e, validateKey key = Invalid e.
Proof.
  unfold validateKey.
  repeat match goal with
         | |- context [if ?b then _ else _] => destruct b
         end; eauto.
Qed.

(** ** The request body *)

Lemma one_property_inv b :
  one_property b = true -> exists k v, b = JObj [(k, v)].
Proof.
  destruct b as [| | | |items|fields]; try discriminate.
  destruct fields as [|[k v] [|f fields]]; try discriminate. eauto.
Qed.

Lemma stored_property_some b key value :
  stored_property b = Some (key, value) <->
  b = JObj [(key, value)] /\ validateKey key = Valid key.
Proof.
  split.
  - destruct b as [| | | |items|fields]; try discriminate.
    destruct fields as [|[k v] [|f l]]; try discriminate.
    unfold stored_property.
    destruct (validateKey_cases k) as [Hv | [e Hv]]; rewrite Hv; [| discriminate].
    intros [= <- <-]. now split.
  - intros [-> Hv]. unfold stored_property. now rewrite Hv.
Qed.

Ltac refused_body b H :=
  destruct b as [| | | |?items|fields];
    try (eexists; split; reflexivity);
  destruct fields as [|[k v] [|f l]];
    try (eexists; split; reflexivity);
  cbn [validateValue List.length Nat.ltb Nat.leb Object_entries];
  unfold stored_property in H;
  destruct (validateKey k); [discriminate | eexists; split; reflexivity].

Lemma server_post_on_refused run now db b :
  stored_property b = None ->
  exists r, Server.post_object_on run now db b = Server.Outcome db r []
            /\ status r = 400.
Proof. intros H. unfold Server.post_object_on. refused_body b H. Qed.

Lemma serverless_post_refused now fault db b :
  stored_property b = None ->
  exists r, ServerlessServer.post_object now fault db b = (db, r, [])
            /\ status r = 400.
Proof. intros H. unfold ServerlessServer.post_object. refused_body b H. Qed.

Lemma mongo_post_refused now fault db b :
  stored_property b = None ->
  exists r, MongoServer.post_object now fault db b = MongoServer.Outcome db r []
            /\ status r = 400.
Proof. intros H. unfold MongoServer.post_object. refused_body b H. Qed.

Lemma api_post_refused now (store : gmap string (list Api.version)) b :
  stored_property b = None ->
  exists r, Api.post_object now store b = Api.Outcome store r []
            /\ status r = 400.
Proof. intros H. unfold Api.post_object. refused_body b H. Qed.

Lemma production_post_refused requestId errorId iso contentType now fault db b :
  stored_property b = None ->
  exists r,
    ProductionServer.post_object requestId errorId iso contentType now fault db b
    = ProductionServer.Outcome db r []
    /\ status r = 400.
Proof.
  intros H. unfold ProductionServer.post_object.
  match goal with
  | |- context [if ?c then _ else _] => destruct c
  end; [eexists; split; reflexivity |].
  refused_body b H.
Qed.

Lemma server_post_body now fault db b :
  invalid_body (Server.resp (Server.post_object now fault db b))
  = negb (one_property b).
Proof.
  unfold Server.post_object, Server.post_object_on; fold_store.
  destruct b as [| | | |items|fields]; try reflexivity.
  destruct fields as [|[k v] [|f fields]]; try reflexivity.
  cbn [validateValue List.length Nat.ltb Nat.leb Object_entries].
  destruct (validateKey k); [|reflexivity].
    destruct (Database.storeValue fault db k v (unix_seconds now)) as [db' [r|m]];
      reflexivity.
Qed.

Lemma mongo_post_body now fault db b :
  invalid_body (MongoServer.resp (MongoServer.post_object now fault db b))
  = negb (one_property b).
Proof.
  unfold MongoServer.post_object.
  destruct b as [| | | |items|fields]; try reflexivity.
  destruct fields as [|[k v] [|f fields]]; try reflexivity.
  cbn [validateValue List.length Nat.ltb Nat.leb Object_entries].
  destruct (validateKey k); [|reflexivity].
    destruct (MongoDatabase.storeValue fault now db k v) as [db' [r|m]];
      reflexivity.
Qed.

Lemma api_post_body now store b :
  invalid_body (Api.resp (Api.post_object now store b)) = negb (one_property b).
Proof.
  unfold Api.post_object.
  destruct b as [| | | |items|fields]; try reflexivity.
  destruct fields as [|[k v] [|f fields]]; try reflexivity.
  cbn [validateValue List.length Nat.ltb Nat.leb Object_entries].
  destruct (validateKey k); reflexivity.
Qed.

(** C8. The body checks that open POST /object ([validateValue], then the
    count of [Object.entries]) refuse the body exactly when it is not a JSON
    object, is an empty object, or has more than one property; an object with
    exactly one property passes them whatever the value of the property, in
    the three servers alike. *)
Theorem C8_write_body_validation :
  forall (now : Z) (fault : option Sqlite.sqlite_err) (db : Sqlite.table)
         (mfault : option MongoDatabase.insert_fault) (mdb : MongoDatabase.mongo)
         (store : gmap string (list Api.version)) (b : json),
    let refused :=
      invalid_body (Server.resp (Server.post_object now fault db b)) in
    (refused = true <->
       (forall fields, b <> JObj fields) \/ b = JObj []
       \/ (exists fields, b = JObj fields /\ (1 < List.length fields)%nat))
    /\ (refused = false <-> exists k v, b = JObj [(k, v)])
    /\ invalid_body (MongoServer.resp (MongoServer.post_object now mfault mdb b))
       = refused
    /\ invalid_body (Api.resp (Api.post_object now store b)) = refused.
Proof.
  intros now fault db mfault mdb store b refused. subst refused.
  rewrite server_post_body, mongo_post_body, api_post_body.
  split; [split | split; [split | split; reflexivity]].
  - intros H. destruct b as [| | | |items|fields];
      try (left; intros fields' Hb; discriminate).
    destruct fields as [|[k v] [|f fields]].
    + right. left. reflexivity.
    + discriminate.
    + right. right. eexists. split; [reflexivity | simpl; lia].
  - intros [H | [H | [fields [Hb Hlen]]]].
    + destruct b; try reflexivity. exfalso. eapply H. reflexivity.
    + subst b. reflexivity.
    + subst b. destruct fields as [|f1 [|f2 fields]]; simpl in Hlen; try lia.
      reflexivity.
  - intros H. apply one_property_inv. now apply negb_false_iff in H.
  - intros [k [v Hb]]. subst b. reflexivity.
Qed.

(** ** The queries on [kv_store] *)
Section SqliteQueries.

Import Sqlite.

Lemma order_limit_none (l : list row) :
  order_by_timestamp_desc_limit_1 l = None <-> l = [].
Proof.
  destruct l as [|r l]; simpl; [tauto |].
  destruct (order_by_timestamp_desc_limit_1 l); split; discriminate.
Qed.

Lemma order_limit_spec (l : list row) (m : row) :
  order_by_timestamp_desc_limit_1 l = Some m ->
  In m l /\ forall r, In r l -> row_timestamp r <= row_timestamp m.
Proof.
  revert m. induction l as [|a l IH]; simpl; intros m Hm; [discriminate |].
  destruct (order_by_timestamp_desc_limit_1 l) as [b|] eqn:Hb.
  - destruct (IH b eq_refl) as [Hin Hmax].
    destruct (row_timestamp b <=? row_timestamp a) eqn:Hle;
      injection Hm as <-.
    + apply Z.leb_le in Hle. split; [now left |].
      intros r [<- | Hr]; [lia |]. specialize (Hmax r Hr). lia.
    + apply Z.leb_gt in Hle. split; [now right |].
      intros r [<- | Hr]; [lia | now apply Hmax].
  - injection Hm as <-. apply order_limit_none in Hb. subst l.
    split; [now left |]. intros r [<- | []]. lia.
Qed.

(** The row the point-in-time query selects. *)
Lemma select_as_of_some (t : table) (key : string) (ts : Z) (m : row) :
  select_as_of t key ts = Some m ->
  In m (rows t) /\ row_key m = key /\ row_timestamp m <= ts
  /\ forall r, In r (rows t) -> row_key r = key -> row_timestamp r <= ts ->
               row_timestamp r <= row_timestamp m.
Proof.
  unfold select_as_of. intros H. apply order_limit_spec in H as [Hin Hmax].
  apply filter_In in Hin as [Hin Hp]. apply andb_true_iff in Hp as [Hk Hts].
  apply String.eqb_eq in Hk. apply Z.leb_le in Hts.
  repeat split; try assumption.
  intros r Hr Hrk Hrt. apply Hmax. apply filter_In. split; [assumption |].
  apply andb_true_iff. split; [now apply String.eqb_eq | now apply Z.leb_le].
Qed.

Lemma select_as_of_none (t : table) (key : string) (ts : Z) :
  select_as_of t key ts = None <->
  forall r, In r (rows t) -> row_key r = key -> ts < row_timestamp r.
Proof.
  unfold select_as_of. rewrite order_limit_none. split.
  - intros H r Hr Hk.
    destruct (Z.ltb_spec ts (row_timestamp r)) as [Hlt | Hge]; [assumption |].
    exfalso. assert (Hin : In r []); [| destruct Hin].
    rewrite <- H. apply filter_In. split; [assumption |].
    apply andb_true_iff. split; [now apply String.eqb_eq | now apply Z.leb_le].
  - intros H.
    destruct (List.filter _ (rows t)) as [|r l] eqn:Hf; [reflexivity |].
    assert (Hin : In r (r :: l)) by now left.
    rewrite <- Hf in Hin. apply filter_In in Hin as [Hin Hp].
    apply andb_true_iff in Hp as [Hk Hts].
    apply String.eqb_eq in Hk. apply Z.leb_le in Hts.
    specialize (H r Hin Hk). lia.
Qed.

Lemma select_latest_some (t : table) (key : string) (m : row) :
  select_latest t key = Some m ->
  In m (rows t) /\ row_key m = key
  /\ forall r, In r (rows t) -> row_key r = key ->
               row_timestamp r <= row_timestamp m.
Proof.
  unfold select_latest. intros H. apply order_limit_spec in H as [Hin Hmax].
  apply filter_In in Hin as [Hin Hk]. apply String.eqb_eq in Hk.
  repeat split; try assumption.
  intros r Hr Hrk. apply Hmax. apply filter_In. split; [assumption |].
  now apply String.eqb_eq.
Qed.

Lemma select_latest_none (t : table) (key : string) :
  select_latest t key = None <->
  forall r, In r (rows t) -> row_key r <> key.
Proof.
  unfold select_latest. rewrite order_limit_none. split.
  - intros H r Hr Hk. assert (Hin : In r []); [| destruct Hin].
    rewrite <- H. apply filter_In. split; [assumption | now apply String.eqb_eq].
  - intros H.
    destruct (List.filter _ (rows t)) as [|r l] eqn:Hf; [reflexivity |].
    assert (Hin : In r (r :: l)) by now left.
    rewrite <- Hf in Hin. apply filter_In in Hin as [Hin Hk].
    apply String.eqb_eq in Hk. now destruct (H r Hin).
Qed.

End SqliteQueries.

(** ** The timestamp parameter *)

Lemma validateTimestamp_valid_iff now raw t :
  validateTimestamp now raw = Valid t <->
  exists s, raw = QString s /\ digits_pattern s = true
            /\ t = decimal_acc 0 s /\ t <= unix_seconds now + 86400.
Proof.
  destruct raw as [s|items|].
  - unfold validateTimestamp.
    destruct (digits_pattern s) eqn:Hpat.
    + rewrite eqb_empty_false by now apply digits_pattern_nonempty.
      rewrite parseInt_digits by assumption. simpl negb. cbv iota.
      pose proof (decimal_acc_nonneg s 0 (Z.le_refl 0)) as Hnn.
      destruct (decimal_acc 0 s <? 0) eqn:Hneg; [apply Z.ltb_lt in Hneg; lia |].
      destruct (unix_seconds now + 86400 <? decimal_acc 0 s) eqn:Hfut.
      * apply Z.ltb_lt in Hfut. split; [discriminate |].
        intros [s' [Hs [_ [-> Hle]]]]. injection Hs as <-. lia.
      * apply Z.ltb_ge in Hfut. split.
        -- intros H. injection H as <-. exists s. repeat split; assumption.
        -- intros [s' [Hs [_ [-> _]]]]. injection Hs as <-. reflexivity.
    + split.
      * destruct (String.eqb s ""); discriminate.
      * intros [s' [Hs [Hp _]]]. injection Hs as <-. congruence.
  - split; [discriminate | intros [s [Hs _]]; discriminate].
  - split; [discriminate | intros [s [Hs _]]; discriminate].
Qed.

Lemma validateTimestamp_cases now raw :
  (exists t, validateTimestamp now raw = Valid t)
  \/ exists e, validateTimestamp now raw = Invalid e.
Proof. destruct (validateTimestamp now raw) as [t|e]; eauto. Qed.

(** C9. [validateTimestamp] accepts exactly the strings of decimal digits
    whose value does not exceed now + 86400 seconds and returns that value, a
    non-negative integer; every other input is refused; there is no lower
    bound, ["0"] is accepted, and a read at timestamp 0 answers 404 when no
    record of the key is that old. *)
Theorem C9_timestamp_validation :
  forall (now : Z) (raw : query_value),
    (forall t, validateTimestamp now raw = Valid t <->
       exists s, raw = QString s /\ digits_pattern s = true
                 /\ t = decimal_acc 0 s /\ t <= unix_seconds now + 86400)
    /\ (forall t, validateTimestamp now raw = Valid t -> 0 <= t)
    /\ ((~ exists s, raw = QString s /\ digits_pattern s = true
                     /\ decimal_acc 0 s <= unix_seconds now + 86400) ->
        exists e, validateTimestamp now raw = Invalid e)
    /\ (0 <= unix_seconds now + 86400 ->
        validateTimestamp now (QString "0") = Valid 0)
    /\ (forall (db : Sqlite.table) (key : string),
          0 <= unix_seconds now + 86400 ->
          validateKey key = Valid key ->
          (forall r, In r (Sqlite.rows db) -> Sqlite.row_key r = key ->
                     0 < Sqlite.row_timestamp r) ->
          status (fst (Server.get_object now None db key (Some (QString "0"))))
          = 404).
Proof.
  intros now raw. split; [| split; [| split; [| split]]].
  - intros t. apply validateTimestamp_valid_iff.
  - intros t H. apply validateTimestamp_valid_iff in H as [s [_ [_ [-> _]]]].
    now apply decimal_acc_nonneg.
  - intros Hno. destruct (validateTimestamp_cases now raw) as [[t Ht] | He];
      [| assumption].
    exfalso. apply Hno.
    apply validateTimestamp_valid_iff in Ht as [s [Hs [Hp [-> Hle]]]]. eauto.
  - intros Hnow. apply validateTimestamp_valid_iff. exists "0".
    repeat split; simpl; try reflexivity. assumption.
  - intros db key Hnow Hkey Hrows. unfold Server.get_object. rewrite Hkey.
    cbn [truthy String.eqb Ascii.eqb negb].
    assert (Hv : validateTimestamp now (QString "0") = Valid 0).
    { apply validateTimestamp_valid_iff. exists "0".
      repeat split; simpl; try reflexivity. assumption. }
    simpl truthy. cbv iota. rewrite Hv.
    unfold Database.getValueAtTimestamp, Sqlite.get.
    assert (Hsel : Sqlite.select_as_of db key 0 = None)
      by now apply select_as_of_none.
    rewrite Hsel. reflexivity.
Qed.

(** ** Key validation on reads *)

Lemma server_get_invalid_key now fault db key q e :
  validateKey key = Invalid e ->
  Server.get_object now fault db key q
  = (json_error_details 400 "Invalid key" e, []).
Proof. intros H. unfold Server.get_object. now rewrite H. Qed.

Lemma api_get_invalid_key now store key q e :
  validateKey key = Invalid e ->
  Api.get_object now store key q
  = (json_error_details 400 "Invalid key" e, []).
Proof. intros H. unfold Api.get_object. now rewrite H. Qed.

Lemma serverless_get_invalid_key now fault db key q e :
  validateKey key = Invalid e ->
  ServerlessServer.get_object now fault db key q
  = (json_error_details 400 "Invalid key" e, []).
Proof. intros H. unfold ServerlessServer.get_object. now rewrite H. Qed.

(** The handler of server-mongodb.js hands every key to [db.getValue] when no
    timestamp is given. *)
Lemma mongo_get_reaches_backend now fault db key :
  snd (MongoServer.get_object now fault db key None)
  = [CallGetValue key None].
Proof.
  unfold MongoServer.get_object. simpl.
  destruct (MongoDatabase.getValue fault db key None) as [[[v t]|]|m]; reflexivity.
Qed.

(** C6. A read with a key that [validateKey] refuses: server.js, the
    serverless server and api/index.js answer 400 "Invalid key" and call no
    backend operation; server-mongodb.js does not validate the key of a
    read, the key ["invalid key!"] reaches [db.getValue] and the answer is
    404. *)
Theorem C6_read_key_validation :
  (forall now fault db key q e,
      validateKey key = Invalid e ->
      invalid_key (fst (Server.get_object now fault db key q)) = true
      /\ snd (Server.get_object now fault db key q) = []
      /\ invalid_key (fst (ServerlessServer.get_object now fault db key q)) = true
      /\ snd (ServerlessServer.get_object now fault db key q) = [])
  /\ (forall now store key q e,
         validateKey key = Invalid e ->
         invalid_key (fst (Api.get_object now store key q)) = true
         /\ snd (Api.get_object now store key q) = [])
  /\ validateKey "invalid key!" = Invalid string_pattern_base
  /\ MongoServer.get_object 0 None (MongoDatabase.Mongo [] true) "invalid key!" None
     = (json_error 404 "Key not found", [CallGetValue "invalid key!" None]).
Proof.
  split; [| split; [| split]].
  - intros now fault db key q e H.
    rewrite (server_get_invalid_key now fault db key q e H).
    rewrite (serverless_get_invalid_key now fault db key q e H).
    repeat split.
  - intros now store key q e H.
    rewrite (api_get_invalid_key now store key q e H). now split.
  - reflexivity.
  - reflexivity.
Qed.

(** ** The shape of a successful read *)

Ltac case_matches :=
  repeat match goal with
         | |- context [match ?x with _ => _ end] => destruct x eqn:?
         end.






(** ** A failed write *)

Lemma storeValue_fault err db key value ts :
  fst (Database.storeValue (Some err) db key value ts) = db
  /\ exists m, snd (Database.storeValue (Some err) db key value ts) = Rejected m.
Proof.
  unfold Database.storeValue, Database.storeValue_on, Sqlite.run_insert_or_replace. simpl.
  split; [reflexivity |]. destruct (Sqlite.err_code err); eauto.
Qed.

Lemma server_post_calls now fault db b :
  (List.length (Server.calls (Server.post_object now fault db b)) <= 1)%nat.
Proof.
  unfold Server.post_object, Server.post_object_on; fold_store. case_matches; simpl; lia.
Qed.



(** ** Uniqueness of (key, timestamp) *)
Section Uniqueness.

Import Sqlite.

Lemma same_version_true key ts r :
  same_version key ts r = true <-> kt r = (key, ts).
Proof.
  unfold same_version, kt. rewrite andb_true_iff, String.eqb_eq, Z.eqb_eq.
  split; [intros [-> ->]; reflexivity | intros H; injection H; auto].
Qed.

Lemma in_map_filter {A B} (f : A -> B) (p : A -> bool) (l : list A) (y : B) :
  In y (map f (List.filter p l)) -> In y (map f l).
Proof.
  intros H. apply in_map_iff in H as [x [Hx Hin]].
  apply filter_In in Hin as [Hin _]. apply in_map_iff. eauto.
Qed.

Lemma replaced_not_in key ts l :
  ~ In (key, ts) (map kt (List.filter (fun r => negb (same_version key ts r)) l)).
Proof.
  intros H. apply in_map_iff in H as [r [Hr Hin]].
  apply filter_In in Hin as [_ Hp].
  apply same_version_true in Hr. rewrite Hr in Hp. discriminate.
Qed.

Lemma nodup_filter_map (p : row -> bool) (l : list row) :
  List.NoDup (map kt l) -> List.NoDup (map kt (List.filter p l)).
Proof.
  induction l as [|a l IH]; simpl; intros H; [constructor |].
  apply NoDup_cons_iff in H as [Hnotin Hnd].
  destruct (p a); simpl; [| now apply IH].
  apply NoDup_cons_iff. split; [| now apply IH].
  intros Hin. apply Hnotin. now apply in_map_filter in Hin.
Qed.

Lemma nodup_snoc {A} (l : list A) (x : A) :
  List.NoDup l -> ~ In x l -> List.NoDup (l ++ [x]).
Proof.
  induction l as [|a l IH]; simpl; intros Hnd Hx.
  - apply NoDup_cons_iff. split; [intros [] | constructor].
  - apply NoDup_cons_iff in Hnd as [Ha Hnd]. apply NoDup_cons_iff. split.
    + intros Hin. apply in_app_iff in Hin as [Hin | [<- | []]]; tauto.
    + apply IH; tauto.
Qed.

Lemma insert_or_replace_unique t key value ts :
  unique_rows t -> unique_rows (insert_or_replace t key value ts).
Proof.
  unfold unique_rows, insert_or_replace. simpl. intros H.
  rewrite map_app. simpl. apply nodup_snoc.
  - now apply nodup_filter_map.
  - apply replaced_not_in.
Qed.

Lemma run_unique fault t key value ts :
  unique_rows t -> unique_rows (fst (run_insert_or_replace fault t key value ts)).
Proof.
  intros H. unfold run_insert_or_replace.
  destruct fault; simpl; [assumption | now apply insert_or_replace_unique].
Qed.

Lemma storeValue_table fault t key value ts :
  fst (Database.storeValue fault t key value ts)
  = fst (run_insert_or_replace fault t key (Database.valueStr value) ts).
Proof.
  unfold Database.storeValue, Database.storeValue_on.
  destruct (run_insert_or_replace fault t key (Database.valueStr value) ts)
    as [t' [e|]]; reflexivity.
Qed.

Lemma serverless_storeValue_table fault t key value ts :
  fst (ServerlessDatabase.storeValue fault t key value ts)
  = fst (run_insert_or_replace fault t key (Database.valueStr value) ts).
Proof.
  unfold ServerlessDatabase.storeValue.
  change (ServerlessDatabase.valueStr value) with (Database.valueStr value).
  destruct (run_insert_or_replace fault t key (Database.valueStr value) ts)
    as [t' [e|]]; reflexivity.
Qed.

Lemma reachable_unique t : reachable t -> unique_rows t.
Proof.
  induction 1 as [| fault db key value ts Hr IH | fault db key value ts Hr IH].
  - constructor.
  - rewrite storeValue_table. now apply run_unique.
  - rewrite serverless_storeValue_table. now apply run_unique.
Qed.

(** After the statement, the new row is the only one of its (key, timestamp). *)
Lemma insert_or_replace_same t key value ts :
  List.filter (same_version key ts) (rows (insert_or_replace t key value ts))
  = [Row (last_rowid t + 1) key value ts].
Proof.
  unfold insert_or_replace. simpl. rewrite List.filter_app. simpl.
  assert (Hnew : same_version key ts (Row (last_rowid t + 1) key value ts) = true).
  { apply same_version_true. reflexivity. }
  rewrite Hnew.
  assert (Hold : List.filter (same_version key ts)
                   (List.filter (fun r => negb (same_version key ts r)) (rows t)) = []).
  { induction (rows t) as [|a l IH]; simpl; [reflexivity |].
    destruct (same_version key ts a) eqn:Ha; simpl; [assumption |].
    now rewrite Ha. }
  now rewrite Hold.
Qed.

(** A read at the tick of the write returns the row just written. *)
Lemma insert_or_replace_read t key value ts :
  select_as_of (insert_or_replace t key value ts) key ts
  = Some (Row (last_rowid t + 1) key value ts).
Proof.
  set (new := Row (last_rowid t + 1) key value ts).
  destruct (select_as_of (insert_or_replace t key value ts) key ts) as [m|] eqn:Hsel.
  - apply select_as_of_some in Hsel as [Hin [Hk [Hle Hmax]]].
    assert (Hnew : In new (rows (insert_or_replace t key value ts))).
    { unfold insert_or_replace. simpl. apply in_app_iff. right. now left. }
    specialize (Hmax new Hnew eq_refl (Z.le_refl ts)). simpl in Hmax.
    assert (Hm : same_version key ts m = true).
    { apply same_version_true. unfold kt. f_equal; [assumption | lia]. }
    assert (Hf : In m (List.filter (same_version key ts)
                         (rows (insert_or_replace t key value ts)))).
    { apply filter_In. now split. }
    rewrite insert_or_replace_same in Hf. destruct Hf as [<- | []]. reflexivity.
  - exfalso. rewrite select_as_of_none in Hsel.
    assert (Hnew : In new (rows (insert_or_replace t key value ts))).
    { unfold insert_or_replace. simpl. apply in_app_iff. right. now left. }
    specialize (Hsel new Hnew eq_refl). simpl in Hsel. lia.
Qed.

End Uniqueness.

(** ** The in-memory store of api/index.js *)
Section MemoryStore.

Import Api.

Lemma push_lookup (store : gmap string (list version)) key v :
  push store key v !! key = Some (default [] (store !! key) ++ [v])%list.
Proof.
  unfold push. destruct (store !! key) as [versions|] eqn:Hk.
  - rewrite Hk. simpl. apply lookup_insert_eq.
  - rewrite lookup_insert_eq. simpl. apply lookup_insert_eq.
Qed.

Lemma push_lookup_ne (store : gmap string (list version)) key key' v :
  key <> key' -> push store key v !! key' = store !! key'.
Proof.
  intros Hne. unfold push. destruct (store !! key) as [versions|] eqn:Hk.
  - rewrite Hk. now rewrite lookup_insert_ne.
  - rewrite lookup_insert_eq. rewrite !lookup_insert_ne by assumption.
    reflexivity.
Qed.

Lemma last_version_cons v l :
  last_version (v :: l)
  = match last_version l with Some m => Some m | None => Some v end.
Proof.
  destruct l as [|w l]; [reflexivity |].
  change (last_version (v :: w :: l)) with (last_version (w :: l)).
  revert w. induction l as [|x l IH]; intros w; [reflexivity |].
  change (last_version (w :: x :: l)) with (last_version (x :: l)).
  apply IH.
Qed.

Lemma last_version_snoc l v : last_version (l ++ [v]) = Some v.
Proof.
  induction l as [|a l IH]; [reflexivity |].
  change ((a :: l) ++ [v])%list with (a :: (l ++ [v]))%list.
  rewrite last_version_cons, IH. reflexivity.
Qed.

Lemma chronological_snoc l v :
  chronological l -> Forall (fun w => timestamp w <= timestamp v) l ->
  chronological (l ++ [v]).
Proof.
  induction l as [|a l IH]; simpl; intros Hc Hle.
  - split; [constructor | exact I].
  - destruct Hc as [Ha Hc]. inversion Hle as [|? ? Hav Hl]; subst. split.
    + apply Forall_app. split; [assumption |]. constructor; [assumption | constructor].
    + now apply IH.
Qed.

(** What the filter and the last element select from a chronological list. *)
Lemma as_of_chronological (l : list version) (t : Z) :
  chronological l ->
  match last_version (validVersions l t) with
  | Some m =>
      In m l /\ timestamp m <= t
      /\ forall v, In v l -> timestamp v <= t -> timestamp v <= timestamp m
  | None => forall v, In v l -> t < timestamp v
  end.
Proof.
  induction l as [|a l IH]; simpl; intros Hc.
  - intros v [].
  - destruct Hc as [Ha Hc]. specialize (IH Hc).
    rewrite List.Forall_forall in Ha.
    destruct (timestamp a <=? t) eqn:Hat.
    + apply Z.leb_le in Hat. rewrite last_version_cons.
      fold (validVersions l t).
      destruct (last_version (validVersions l t)) as [m|].
      * destruct IH as [Hin [Hmt Hmax]]. split; [now right |].
        split; [assumption |].
        intros v [<- | Hv] Hvt; [now apply Ha | now apply Hmax].
      * split; [now left |]. split; [assumption |].
        intros v [<- | Hv] Hvt; [lia |]. specialize (IH v Hv). lia.
    + apply Z.leb_gt in Hat. fold (validVersions l t).
      destruct (last_version (validVersions l t)) as [m|].
      * destruct IH as [Hin [Hmt Hmax]]. split; [now right |].
        split; [assumption |].
        intros v [<- | Hv] Hvt; [lia | now apply Hmax].
      * intros v [<- | Hv]; [assumption | now apply IH].
Qed.

Lemma api_post_store now (store : gmap string (list version)) b :
  store_after (post_object now store b) = store
  \/ exists k v,
      store_after (post_object now store b)
      = push store k (Version v (unix_seconds now)).
Proof.
  unfold post_object.
  destruct (validateValue b); [| now left].
  destruct (Object_entries b) as [[|[k v] [|f l]]|]; try (now left).
  destruct (validateKey k); [| now left].
  right. exists k, v. reflexivity.
Qed.

(** Under a clock that never goes back the versions of every key are in the
    order of their timestamps. *)
Lemma api_reachable_chronological now (store : gmap string (list version)) :
  api_reachable now store ->
  forall key versions,
    store !! key = Some versions ->
    chronological versions
    /\ Forall (fun v => timestamp v <= unix_seconds now) versions.
Proof.
  induction 1 as [now | now now' store b Hr IH Hle]; intros key versions Hs.
  - rewrite lookup_empty in Hs. discriminate.
  - assert (Hmono : unix_seconds now <= unix_seconds now')
      by (unfold unix_seconds; apply Z.div_le_mono; lia).
    assert (Hwiden : forall l,
               Forall (fun v => timestamp v <= unix_seconds now) l ->
               Forall (fun v => timestamp v <= unix_seconds now') l).
    { intros l Hl. eapply Forall_impl; [exact Hl |]. simpl. intros v Hv. lia. }
    destruct (api_post_store now' store b) as [Heq | [k [v Heq]]];
      rewrite Heq in Hs.
    + destruct (IH key versions Hs) as [Hc Hb]. split; [assumption | auto].
    + destruct (String.eqb_spec k key) as [-> | Hne].
      * rewrite push_lookup in Hs. injection Hs as <-.
        assert (Hold : chronological (default [] (store !! key))
                       /\ Forall (fun v => timestamp v <= unix_seconds now)
                            (default [] (store !! key))).
        { destruct (store !! key) as [l|] eqn:Hl; simpl.
          - exact (IH key l Hl).
          - split; [exact I | constructor]. }
        destruct Hold as [Hc Hb]. split.
        -- apply chronological_snoc; [assumption |]. simpl. auto.
        -- apply Forall_app. split; [auto |].
           constructor; [simpl; lia | constructor].
      * rewrite push_lookup_ne in Hs by assumption.
        destruct (IH key versions Hs) as [Hc Hb]. split; [assumption | auto].
Qed.

End MemoryStore.

(** ** Point-in-time reads *)

Lemma valid_timestamp_truthy now raw t :
  validateTimestamp now raw = Valid t -> truthy (Some raw) = true.
Proof.
  destruct raw as [s| |]; try reflexivity.
  unfold validateTimestamp. simpl. destruct (String.eqb s ""); [discriminate | reflexivity].
Qed.

Lemma getValueAtTimestamp_spec db key t :
  match Database.getValueAtTimestamp None db key t with
  | Resolved (Some v) =>
      exists r,
        In r (Sqlite.rows db) /\ Sqlite.row_key r = key
        /\ Sqlite.row_timestamp r <= t
        /\ (forall r', In r' (Sqlite.rows db) -> Sqlite.row_key r' = key ->
                       Sqlite.row_timestamp r' <= t ->
                       Sqlite.row_timestamp r' <= Sqlite.row_timestamp r)
        /\ v = Database.Version key (parse_or_raw (Sqlite.row_value r))
                 (Sqlite.row_timestamp r)
  | Resolved None =>
      forall r, In r (Sqlite.rows db) -> Sqlite.row_key r = key ->
                t < Sqlite.row_timestamp r
  | Rejected _ => False
  end.
Proof.
  unfold Database.getValueAtTimestamp, Sqlite.get.
  destruct (Sqlite.select_as_of db key t) as [m|] eqn:Hsel.
  - apply select_as_of_some in Hsel as [Hin [Hk [Hle Hmax]]].
    exists m. repeat split; try assumption. now rewrite Hk.
  - now apply select_as_of_none.
Qed.

Lemma api_get_as_of now store key raw t :
  validateKey key = Valid key ->
  validateTimestamp now raw = Valid t ->
  fst (Api.get_object now store key (Some raw))
  = match store !! key with
    | Some versions =>
        match versions with
        | [] => json_error 404 "Key not found"
        | _ =>
            match Api.last_version (Api.validVersions versions t) with
            | Some m => json_ok [("value", Api.value m)]
            | None =>
                json_error 404 "No value found for key at the specified timestamp"
            end
        end
    | None => json_error 404 "Key not found"
    end.
Proof.
  intros Hkey Hts. unfold Api.get_object. rewrite Hkey.
  rewrite (valid_timestamp_truthy now raw t Hts). rewrite Hts.
  destruct (store !! key) as [[|v l]|]; try reflexivity.
  destruct (Api.last_version (Api.validVersions (v :: l) t)); reflexivity.
Qed.

(** What the timestamp branch of api/index.js selects, whatever the order
    of the versions: the version pushed last among those not after [t]. *)
Lemma last_valid_version (l : list Api.version) (t : Z) :
  match Api.last_version (Api.validVersions l t) with
  | Some m =>
      exists before after,
        l = (before ++ m :: after)%list /\ Api.timestamp m <= t
        /\ Forall (fun v => t < Api.timestamp v) after
  | None => forall v, In v l -> t < Api.timestamp v
  end.
Proof.
  induction l as [|a l IH]; simpl.
  - intros v [].
  - fold (Api.validVersions l t).
    destruct (Api.timestamp a <=? t) eqn:Hat.
    + apply Z.leb_le in Hat. rewrite last_version_cons.
      destruct (Api.last_version (Api.validVersions l t)) as [m|].
      * destruct IH as [before [after (-> & Hm & Hafter)]].
        exists (a :: before), after. repeat split; assumption.
      * exists [], l. repeat split; [assumption |].
        apply List.Forall_forall. exact IH.
    + apply Z.leb_gt in Hat.
      destruct (Api.last_version (Api.validVersions l t)) as [m|].
      * destruct IH as [before [after (-> & Hm & Hafter)]].
        exists (a :: before), after. repeat split; assumption.
      * intros v [<- | Hv]; [assumption | now apply IH].
Qed.

(** C1 (amended). The point-in-time read.  [getValueAtTimestamp] of
    src/database.js resolves with the row of the key whose timestamp is the
    largest one not above [t] (its value read back through JSON.parse), and
    with no record when the key has no row at or before [t], be it that the
    key has no row at all or only later ones; it does not reject, and
    server.js answers 404.  The timestamp branch of api/index.js answers
    with the version of the key that was written last among those whose
    timestamp is not above [t], and with 404 when there is none.  That is
    the version with the largest timestamp not above [t] when the versions
    of the key are in the order of their timestamps, which they are in
    every store reached by writes under a clock that never goes back. *)
Theorem C1_point_in_time_read :
  (forall db key t,
      match Database.getValueAtTimestamp None db key t with
      | Resolved (Some v) =>
          exists r,
            In r (Sqlite.rows db) /\ Sqlite.row_key r = key
            /\ Sqlite.row_timestamp r <= t
            /\ (forall r', In r' (Sqlite.rows db) -> Sqlite.row_key r' = key ->
                           Sqlite.row_timestamp r' <= t ->
                           Sqlite.row_timestamp r' <= Sqlite.row_timestamp r)
            /\ v = Database.Version key (parse_or_raw (Sqlite.row_value r))
                     (Sqlite.row_timestamp r)
      | Resolved None =>
          forall r, In r (Sqlite.rows db) -> Sqlite.row_key r = key ->
                    t < Sqlite.row_timestamp r
      | Rejected _ => False
      end)
  /\ (forall now db key raw t,
         validateKey key = Valid key ->
         validateTimestamp now raw = Valid t ->
         (forall r, In r (Sqlite.rows db) -> Sqlite.row_key r = key ->
                    t < Sqlite.row_timestamp r) ->
         Database.getValueAtTimestamp None db key t = Resolved None
         /\ status (fst (Server.get_object now None db key (Some raw))) = 404)
  /\ (forall now (store : gmap string (list Api.version)) key raw t,
         validateKey key = Valid key ->
         validateTimestamp now raw = Valid t ->
         let answer := fst (Api.get_object now store key (Some raw)) in
         match store !! key with
         | Some versions =>
             match Api.last_version (Api.validVersions versions t) with
             | Some m =>
                 answer = json_ok [("value", Api.value m)]
                 /\ (exists before after,
                        versions = (before ++ m :: after)%list
                        /\ Api.timestamp m <= t
                        /\ Forall (fun v => t < Api.timestamp v) after)
                 /\ (chronological versions ->
                     forall v, In v versions -> Api.timestamp v <= t ->
                               Api.timestamp v <= Api.timestamp m)
             | None =>
                 status answer = 404
                 /\ forall v, In v versions -> t < Api.timestamp v
             end
         | None => status answer = 404
         end)
  /\ (forall now (store : gmap string (list Api.version)) key versions,
         api_reachable now store ->
         store !! key = Some versions -> chronological versions).
Proof.
  split; [| split; [| split]].
  - apply getValueAtTimestamp_spec.
  - intros now db key raw t Hkey Hts Hlater.
    assert (Hsel : Sqlite.select_as_of db key t = None)
      by now apply select_as_of_none.
    assert (Hget : Database.getValueAtTimestamp None db key t = Resolved None).
    { unfold Database.getValueAtTimestamp, Sqlite.get. now rewrite Hsel. }
    split; [assumption |].
    unfold Server.get_object. rewrite Hkey.
    rewrite (valid_timestamp_truthy now raw t Hts), Hts, Hget. reflexivity.
  - intros now store key raw t Hkey Hts answer. subst answer.
    rewrite (api_get_as_of now store key raw t Hkey Hts).
    destruct (store !! key) as [versions|]; [| reflexivity].
    pose proof (last_valid_version versions t) as Hlast.
    pose proof (as_of_chronological versions t) as Hsel.
    destruct versions as [|v l].
    + simpl in *. split; [reflexivity | assumption].
    + destruct (Api.last_version (Api.validVersions (v :: l) t)) as [m|].
      * split; [reflexivity |]. split; [exact Hlast |].
        intros Hc. exact (proj2 (proj2 (Hsel Hc))).
      * split; [reflexivity | assumption].
  - intros now store key versions Hr Hs.
    exact (proj1 (api_reachable_chronological now store Hr key versions Hs)).
Qed.

(** C1, as stated, fails on api/index.js when the clock is set back between
    two writes: after ["a"] is written at second 10 and ["b"] at second 5,
    the read at 10 answers with ["b"], while the record with the largest
    timestamp not above 10 is that of ["a"]. *)
Lemma C1_counterexample :
  let s1 := Api.store_after (Api.post_object 10000 ∅ (JObj [("k", JStr "a")])) in
  let s2 := Api.store_after (Api.post_object 5000 s1 (JObj [("k", JStr "b")])) in
  s2 !! "k" = Some [Api.Version (JStr "a") 10; Api.Version (JStr "b") 5]
  /\ fst (Api.get_object 20000 s2 "k" (Some (QString "10")))
     = json_ok [("value", JStr "b")]
  /\ Api.timestamp (Api.Version (JStr "b") 5) < Api.timestamp (Api.Version (JStr "a") 10)
  /\ Api.timestamp (Api.Version (JStr "a") 10) <= 10.
Proof. vm_compute. repeat split; try reflexivity; discriminate. Qed.

(** ** Same-tick writes *)

Lemma validVersions_snoc l v t :
  Api.validVersions (l ++ [v]) t
  = (Api.validVersions l t
     ++ (if Api.timestamp v <=? t then [v] else []))%list.
Proof. unfold Api.validVersions. rewrite List.filter_app. reflexivity. Qed.

Lemma api_post_valid now store key v :
  validateKey key = Valid key ->
  Api.post_object now store (JObj [(key, v)])
  = Api.Outcome (Api.push store key (Api.Version v (unix_seconds now)))
      (json_ok [("key", JStr key); ("value", v);
                ("timestamp", JNum (unix_seconds now))])
      [CallMapPush key v (unix_seconds now)].
Proof. intros H. unfold Api.post_object. simpl. now rewrite H. Qed.

(** C3 (amended). The two SQLite backends keep at most one row per
    (key, timestamp) in every table they reach, a write replacing the row of
    its own tick, which a read at that tick then returns.  The [Map] of
    api/index.js and the MongoDB collection take one more record with every
    write; in the [Map] a read at or after the tick returns the record
    written last. *)
Theorem C3_uniqueness_by_backend :
  (forall t, reachable t -> unique_rows t)
  /\ (forall db key v ts,
         let db' := fst (Database.storeValue None db key v ts) in
         let new := Sqlite.Row (Sqlite.last_rowid db + 1) key (Database.valueStr v) ts in
         List.filter (Sqlite.same_version key ts) (Sqlite.rows db') = [new]
         /\ Sqlite.select_as_of db' key ts = Some new)
  /\ (forall now (store : gmap string (list Api.version)) key v,
         validateKey key = Valid key ->
         let new := Api.Version v (unix_seconds now) in
         let versions := (default [] (store !! key) ++ [new])%list in
         Api.store_after (Api.post_object now store (JObj [(key, v)])) !! key
         = Some versions
         /\ forall t, unix_seconds now <= t ->
                      Api.last_version (Api.validVersions versions t) = Some new)
  /\ (forall now db key v,
         MongoDatabase.isConnected db = true ->
         MongoDatabase.collection
           (fst (MongoDatabase.storeValue None now db key v))
         = (MongoDatabase.collection db
            ++ [MongoDatabase.Document key v (unix_seconds now)])%list).
Proof.
  split; [| split; [| split]].
  - apply reachable_unique.
  - intros db key v ts db' new. subst db' new.
    rewrite storeValue_table. simpl.
    split; [apply insert_or_replace_same | apply insert_or_replace_read].
  - intros now store key v Hkey new versions. subst versions.
    rewrite (api_post_valid now store key v Hkey). simpl.
    split; [apply push_lookup |].
    intros t Ht. rewrite validVersions_snoc.
    assert (Hle : (Api.timestamp new <=? t) = true) by now apply Z.leb_le.
    rewrite Hle. apply last_version_snoc.
  - intros now db key v Hc. unfold MongoDatabase.storeValue. rewrite Hc.
    reflexivity.
Qed.

(** C3, as stated, fails for two of the three backends: two writes of the
    same key within one second leave two versions with the same timestamp in
    the [Map] of api/index.js, and two documents with the same
    (key, timestamp) in the MongoDB collection. *)
Lemma C3_counterexample :
  let s1 := Api.store_after (Api.post_object 1000 ∅ (JObj [("k", JStr "a")])) in
  let s2 := Api.store_after (Api.post_object 1500 s1 (JObj [("k", JStr "b")])) in
  let m0 := MongoDatabase.Mongo [] true in
  let m1 := fst (MongoDatabase.storeValue None 1000 m0 "k" (JStr "a")) in
  let m2 := fst (MongoDatabase.storeValue None 1500 m1 "k" (JStr "b")) in
  s2 !! "k" = Some [Api.Version (JStr "a") 1; Api.Version (JStr "b") 1]
  /\ ~ unique_versions s2
  /\ ~ unique_documents m2.
Proof.
  intros s1 s2 m0 m1 m2.
  assert (Hs2 : s2 !! "k" = Some [Api.Version (JStr "a") 1; Api.Version (JStr "b") 1]).
  { vm_compute. reflexivity. }
  split; [exact Hs2 |]. split.
  - intros H. specialize (H "k" _ Hs2). simpl in H.
    apply NoDup_cons_iff in H as [Hin _]. apply Hin. now left.
  - unfold unique_documents. simpl. intros H.
    apply NoDup_cons_iff in H as [Hin _]. apply Hin. now left.
Qed.

(** ** [JSON.parse] after [JSON.stringify] *)
Section JsonFacts.

#[local] Arguments String.append s1 s2 : simpl nomatch.

Lemma append_assoc (a b c : string) : (a ++ b) ++ c = a ++ (b ++ c).
Proof. induction a as [|x a IH]; simpl; [reflexivity | now rewrite IH]. Qed.

Lemma append_nil_r (a : string) : a ++ "" = a.
Proof. induction a as [|x a IH]; simpl; [reflexivity | now rewrite IH]. Qed.

Lemma length_append (a b : string) :
  String.length (a ++ b) = (String.length a + String.length b)%nat.
Proof. induction a as [|x a IH]; simpl; [reflexivity | now rewrite IH]. Qed.

Lemma parse_chars_escape s : forall rest,
  parse_chars (escape s ++ String dquote rest) = Some (s, rest).
Proof.
  induction s as [|c s IH]; intros rest; [reflexivity |].
  cbn [escape]. rewrite append_assoc.
  destruct c as [b0 b1 b2 b3 b4 b5 b6 b7].
  destruct b0, b1, b2, b3, b4, b5, b6, b7; (unfold escape_char; simpl; rewrite IH; reflexivity).
Qed.

(** *** Numbers *)

Lemma string_of_uint_digits u : all_digits (NilEmpty.string_of_uint u) = true.
Proof. induction u; simpl; try assumption; reflexivity. Qed.

Lemma span_digits_app d rest :
  all_digits d = true -> number_end rest = true ->
  span_digits (d ++ rest) = (d, rest).
Proof.
  intros Hd Hrest. induction d as [|c d IH]; simpl in *.
  - destruct rest as [|c r]; [reflexivity |]. simpl in Hrest.
    apply andb_true_iff in Hrest as [Hc _]. apply negb_true_iff in Hc.
    simpl. now rewrite Hc.
  - apply andb_true_iff in Hd as [Hc Hd]. rewrite Hc, (IH Hd). reflexivity.
Qed.

Lemma to_uint_normal n : Decimal.unorm (N.to_uint n) = N.to_uint n.
Proof.
  rewrite <- (DecimalN.Unsigned.of_to n) at 2.
  now rewrite DecimalN.Unsigned.to_of.
Qed.

Lemma digits_of_N_shape n :
  digits_of_N n <> "" /\ leading_zero (digits_of_N n) = false.
Proof.
  unfold digits_of_N. pose proof (to_uint_normal n) as Hn.
  destruct (N.to_uint n) as [|u|u|u|u|u|u|u|u|u|u] eqn:Hu;
    try (split; [discriminate | destruct u; reflexivity]).
  - exfalso. now apply (unorm_nonnil Decimal.Nil).
  - destruct u; try (split; [discriminate | reflexivity]);
      exfalso;
      rewrite unorm_D0 in Hn;
      match type of Hn with
      | Decimal.unorm ?d = _ =>
          assert (Hd : d <> Decimal.Nil) by discriminate;
          pose proof (nb_digits_unorm d Hd) as Hlen;
          rewrite Hn in Hlen; simpl in Hlen; lia
      end.
Qed.

Lemma parse_digits_roundtrip n rest :
  Z.of_N n <= MAX_SAFE_INTEGER -> number_end rest = true ->
  parse_digits (digits_of_N n ++ rest) = Some (Z.of_N n, rest).
Proof.
  intros Hsafe Hrest. unfold parse_digits.
  rewrite span_digits_app;
    [| apply string_of_uint_digits | assumption].
  destruct (digits_of_N_shape n) as [Hne Hlz].
  destruct (digits_of_N n) as [|c d] eqn:Hd; [congruence |].
  rewrite Hlz.
  assert (Hfrac : starts_fraction rest = false).
  { destruct rest as [|c' r]; [reflexivity |]. simpl in Hrest.
    apply andb_true_iff in Hrest as [_ H]. now apply negb_true_iff in H. }
  rewrite Hfrac. simpl orb. cbv iota.
  rewrite <- Hd. unfold digits_of_N. rewrite NilEmpty.usu.
  rewrite DecimalN.Unsigned.of_to.
  apply Z.leb_le in Hsafe. now rewrite Hsafe.
Qed.

Lemma digits_first n :
  exists c d, digits_of_N n = String c d /\ is_digit c = true.
Proof.
  destruct (digits_of_N_shape n) as [Hne _].
  pose proof (string_of_uint_digits (N.to_uint n)) as Hall.
  fold (digits_of_N n) in Hall.
  destruct (digits_of_N n) as [|c d]; [congruence |].
  simpl in Hall. apply andb_true_iff in Hall as [Hc _]. eauto.
Qed.

Lemma is_digit_code c : is_digit c = true -> (48 <= code c <= 57)%N.
Proof.
  unfold is_digit. intros H. apply andb_true_iff in H as [H1 H2].
  apply N.leb_le in H1, H2. lia.
Qed.

Lemma parse_number_roundtrip z rest :
  - MAX_SAFE_INTEGER <= z <= MAX_SAFE_INTEGER -> number_end rest = true ->
  parse_number (stringify_number z ++ rest) = Some (z, rest).
Proof.
  intros Hz Hrest. unfold stringify_number.
  destruct (z <? 0) eqn:Hneg.
  - apply Z.ltb_lt in Hneg. simpl.
    rewrite parse_digits_roundtrip by (try assumption; lia).
    f_equal. f_equal. lia.
  - apply Z.ltb_ge in Hneg.
    destruct (digits_first (Z.to_N z)) as [c [d [Hd Hc]]].
    unfold parse_number. rewrite Hd.
    change (String c d ++ rest) with (String c (d ++ rest)). cbv beta iota.
    apply is_digit_code in Hc.
    assert (H45 : (code c =? 45)%N = false) by (apply N.eqb_neq; lia).
    rewrite H45. change (String c (d ++ rest)) with (String c d ++ rest).
    rewrite <- Hd. rewrite parse_digits_roundtrip by (try assumption; lia).
    f_equal. f_equal. lia.
Qed.

(** *** Values *)

Lemma json_ind' (P : json -> Prop) :
  P JNull -> (forall b, P (JBool b)) -> (forall z, P (JNum z)) ->
  (forall s, P (JStr s)) ->
  (forall items, Forall P items -> P (JArr items)) ->
  (forall fields, Forall (fun f => P (snd f)) fields -> P (JObj fields)) ->
  forall v, P v.
Proof.
  intros HNull HBool HNum HStr HArr HObj.
  fix IH 1. intros [| b | z | s | items | fields].
  - exact HNull.
  - apply HBool.
  - apply HNum.
  - apply HStr.
  - apply HArr. induction items as [|x items IHl]; constructor; [apply IH | exact IHl].
  - apply HObj. induction fields as [|[k x] fields IHl]; constructor;
      [apply IH | exact IHl].
Qed.

Lemma stringify_arr items :
  JSON_stringify (JArr items) = String "[" (stringify_elements items ++ "]").
Proof. reflexivity. Qed.

Lemma stringify_obj fields :
  JSON_stringify (JObj fields) = String "{" (stringify_members fields ++ "}").
Proof. reflexivity. Qed.

Lemma wf_obj fields : wf_json (JObj fields) = wf_fields fields.
Proof. reflexivity. Qed.

Lemma number_first z :
  exists c d, stringify_number z = String c d
              /\ (code c = 45%N \/ is_digit c = true).
Proof.
  unfold stringify_number. destruct (z <? 0).
  - eexists _, _. split; [reflexivity | now left].
  - destruct (digits_first (Z.to_N z)) as [c [d [Hd Hc]]]. eauto.
Qed.

Lemma number_char_codes c :
  code c = 45%N \/ is_digit c = true ->
  is_ws c = false
  /\ (code c =? 110)%N = false /\ (code c =? 116)%N = false
  /\ (code c =? 102)%N = false /\ (code c =? 34)%N = false
  /\ (code c =? 91)%N = false /\ (code c =? 123)%N = false
  /\ (code c =? 93)%N = false /\ (code c =? 125)%N = false.
Proof.
  intros H.
  assert (Hc : (code c = 45 \/ 48 <= code c <= 57)%N).
  { destruct H as [H | H]; [now left | right; now apply is_digit_code]. }
  unfold is_ws.
  repeat split;
    repeat match goal with
           | |- (_ || _) = false => apply orb_false_iff; split
           | |- (_ =? _)%N = false => apply N.eqb_neq; lia
           end.
Qed.

Lemma stringify_start v rest : value_start (JSON_stringify v ++ rest) = true.
Proof.
  destruct v as [| [|] | z | s | items | fields]; try reflexivity.
  destruct (number_first z) as [c [d [Hz Hc]]].
  simpl JSON_stringify. rewrite Hz.
  apply number_char_codes in Hc as (Hws & _ & _ & _ & _ & _ & _ & H93 & H125).
  simpl. now rewrite Hws, H93, H125.
Qed.

Lemma value_start_skip s :
  value_start s = true ->
  exists c r, s = String c r /\ skip_ws s = s
              /\ (code c =? 93)%N = false /\ (code c =? 125)%N = false.
Proof.
  destruct s as [|c r]; [discriminate |]. simpl. intros H.
  apply andb_true_iff in H as [H H125]. apply andb_true_iff in H as [Hws H93].
  apply negb_true_iff in Hws, H93, H125.
  exists c, r. rewrite Hws. auto.
Qed.

Lemma parse_value_number f c s' :
  code c = 45%N \/ is_digit c = true ->
  parse_value (S f) (String c s')
  = match parse_number (String c s') with
    | Some (z, rest) => Some (JNum z, rest)
    | None => None
    end.
Proof.
  intros H.
  apply number_char_codes in H
    as (Hws & H110 & H116 & H102 & H34 & H91 & H123 & _ & _).
  cbn [parse_value skip_ws]. rewrite Hws. cbv beta iota zeta.
  now rewrite H110, H116, H102, H34, H91, H123.
Qed.

Lemma skip_ws_char c s : is_ws c = false -> skip_ws (String c s) = String c s.
Proof. intros H. simpl. now rewrite H. Qed.

Lemma roundtrip_elements items :
  items <> [] ->
  Forall (fun x => wf_json x = true -> roundtrip_at x) items ->
  forallb wf_json items = true ->
  forall fuel rest,
    (size_elements items <= fuel)%nat ->
    parse_elements fuel (stringify_elements items ++ String "]" rest)
    = Some (items, rest).
Proof.
  induction items as [|x items IH]; [congruence |].
  intros _ HP Hwf fuel rest Hfuel.
  inversion HP as [|? ? Hx HPl]; subst.
  simpl in Hwf. apply andb_true_iff in Hwf as [Hwx Hwl].
  unfold size_elements in Hfuel. simpl in Hfuel. fold (size_elements items) in Hfuel.
  destruct fuel as [|f]; [lia |].
  destruct items as [|y l].
  - cbn [stringify_elements parse_elements].
    rewrite (Hx Hwx f (String "]" rest)) by (try reflexivity; lia).
    reflexivity.
  - change (stringify_elements (x :: y :: l))
      with (JSON_stringify x ++ String "," (stringify_elements (y :: l))).
    rewrite append_assoc.
    change (String "," (stringify_elements (y :: l)) ++ String "]" rest)
      with (String "," (stringify_elements (y :: l) ++ String "]" rest)).
    cbn [parse_elements].
    rewrite (Hx Hwx f) by (try reflexivity; lia).
    rewrite skip_ws_char by reflexivity. cbv beta iota.
    change (code "," =? 44)%N with true. cbv beta iota.
    rewrite IH; [reflexivity | discriminate | assumption | assumption | lia].
Qed.

Lemma quote_append k r :
  quote k ++ r = String dquote (escape k ++ String dquote r).
Proof.
  unfold quote. change (String dquote (escape k ++ String dquote "") ++ r)
    with (String dquote ((escape k ++ String dquote "") ++ r)).
  now rewrite append_assoc.
Qed.

Lemma parse_members_step f k tail :
  parse_members (S f) (quote k ++ String ":" tail)
  = match parse_value f tail with
    | Some (v, r) =>
        match skip_ws r with
        | String c r' =>
            if (code c =? 44)%N then
              match parse_members f r' with
              | Some (fs, rest) =>
                  if array_index_key k || key_in k fs then None
                  else Some ((k, v) :: fs, rest)
              | None => None
              end
            else if (code c =? 125)%N then
              if array_index_key k then None else Some ([(k, v)], r')
            else None
        | EmptyString => None
        end
    | None => None
    end.
Proof.
  rewrite quote_append. cbn [parse_members].
  rewrite skip_ws_char by reflexivity. cbv beta iota.
  change (code dquote =? 34)%N with true. cbv beta iota.
  rewrite parse_chars_escape.
  rewrite skip_ws_char by reflexivity. cbv beta iota.
  change (code ":" =? 58)%N with true. cbv beta iota.
  reflexivity.
Qed.

Lemma roundtrip_members fields :
  fields <> [] ->
  Forall (fun f => wf_json (snd f) = true -> roundtrip_at (snd f)) fields ->
  wf_fields fields = true ->
  forall fuel rest,
    (size_members fields <= fuel)%nat ->
    parse_members fuel (stringify_members fields ++ String "}" rest)
    = Some (fields, rest).
Proof.
  induction fields as [|[k x] fields IH]; [congruence |].
  intros _ HP Hwf fuel rest Hfuel.
  inversion HP as [|? ? Hx HPl]; subst. simpl in Hx.
  cbn [wf_fields] in Hwf.
  apply andb_true_iff in Hwf as [Hwf Hwl].
  apply andb_true_iff in Hwf as [Hwf Hwx].
  apply andb_true_iff in Hwf as [Hidx Hdup].
  apply negb_true_iff in Hidx, Hdup.
  unfold size_members in Hfuel. simpl in Hfuel. fold (size_members fields) in Hfuel.
  destruct fuel as [|f]; [lia |].
  destruct fields as [|[k' y] l].
  - change (stringify_members [(k, x)])
      with (quote k ++ String ":" (JSON_stringify x)).
    rewrite append_assoc.
    change (String ":" (JSON_stringify x) ++ String "}" rest)
      with (String ":" (JSON_stringify x ++ String "}" rest)).
    rewrite parse_members_step.
    rewrite (Hx Hwx f (String "}" rest)) by (try reflexivity; lia).
    rewrite skip_ws_char by reflexivity. cbv beta iota.
    change (code "}" =? 44)%N with false.
    change (code "}" =? 125)%N with true. cbv beta iota.
    now rewrite Hidx.
  - change (stringify_members ((k, x) :: (k', y) :: l))
      with (quote k ++ String ":"
              (JSON_stringify x ++ String "," (stringify_members ((k', y) :: l)))).
    rewrite append_assoc.
    change (String ":" (JSON_stringify x
                        ++ String "," (stringify_members ((k', y) :: l)))
            ++ String "}" rest)
      with (String ":" ((JSON_stringify x
                         ++ String "," (stringify_members ((k', y) :: l)))
                        ++ String "}" rest)).
    rewrite append_assoc.
    change (String "," (stringify_members ((k', y) :: l)) ++ String "}" rest)
      with (String "," (stringify_members ((k', y) :: l) ++ String "}" rest)).
    rewrite parse_members_step.
    rewrite (Hx Hwx f) by (try reflexivity; lia).
    rewrite skip_ws_char by reflexivity. cbv beta iota.
    change (code "," =? 44)%N with true. cbv beta iota.
    rewrite IH; [| discriminate | assumption | assumption | lia].
    now rewrite Hidx, Hdup.
Qed.

Lemma elements_start x items r :
  value_start (stringify_elements (x :: items) ++ r) = true.
Proof.
  destruct items as [|y l].
  - apply stringify_start.
  - change (stringify_elements (x :: y :: l))
      with (JSON_stringify x ++ String "," (stringify_elements (y :: l))).
    rewrite append_assoc. apply stringify_start.
Qed.

Lemma parse_value_array f s' :
  parse_value (S f) (String "[" s')
  = match skip_ws s' with
    | String c1 r1 =>
        if (code c1 =? 93)%N then Some (JArr [], r1)
        else
          match parse_elements f s' with
          | Some (items, rest) => Some (JArr items, rest)
          | None => None
          end
    | EmptyString => None
    end.
Proof. reflexivity. Qed.

Lemma parse_value_object f s' :
  parse_value (S f) (String "{" s')
  = match skip_ws s' with
    | String c1 r1 =>
        if (code c1 =? 125)%N then Some (JObj [], r1)
        else
          match parse_members f s' with
          | Some (fields, rest) => Some (JObj fields, rest)
          | None => None
          end
    | EmptyString => None
    end.
Proof. reflexivity. Qed.

Lemma parse_value_string f s' :
  parse_value (S f) (String dquote s')
  = match parse_chars s' with
    | Some (str, rest) => Some (JStr str, rest)
    | None => None
    end.
Proof. reflexivity. Qed.

Theorem roundtrip_value v : wf_json v = true -> roundtrip_at v.
Proof.
  induction v as [| b | z | s | items IH | fields IH] using json_ind';
    intros Hwf fuel rest Hfuel Hrest;
    (destruct fuel as [|f]; [simpl in Hfuel; lia |]).
  - reflexivity.
  - destruct b; reflexivity.
  - destruct (number_first z) as [c [d [Hz Hc]]].
    simpl JSON_stringify. pose proof (parse_number_roundtrip z rest) as Hnum.
    rewrite Hz in *. change (String c d ++ rest) with (String c (d ++ rest)) in *.
    rewrite parse_value_number by assumption.
    simpl in Hwf. apply andb_true_iff in Hwf as [H1 H2].
    apply Z.leb_le in H1, H2. rewrite Hnum; [reflexivity | lia | assumption].
  - simpl JSON_stringify. rewrite quote_append. rewrite parse_value_string.
    now rewrite parse_chars_escape.
  - rewrite stringify_arr.
    change (String "[" (stringify_elements items ++ "]") ++ rest)
      with (String "[" ((stringify_elements items ++ "]") ++ rest)).
    rewrite append_assoc. change ("]" ++ rest) with (String "]" rest).
    rewrite parse_value_array.
    destruct items as [|x items]; [reflexivity |].
    destruct (value_start_skip _ (elements_start x items (String "]" rest)))
      as [c [r [Hs [Hskip [H93 _]]]]].
    rewrite Hskip, Hs, H93. rewrite <- Hs.
    rewrite roundtrip_elements;
      [reflexivity | discriminate | assumption | exact Hwf |].
    simpl in Hfuel. unfold size_elements. simpl. lia.
  - rewrite stringify_obj.
    change (String "{" (stringify_members fields ++ "}") ++ rest)
      with (String "{" ((stringify_members fields ++ "}") ++ rest)).
    rewrite append_assoc. change ("}" ++ rest) with (String "}" rest).
    rewrite parse_value_object.
    destruct fields as [|[k x] fields]; [reflexivity |].
    assert (Hstart : value_start
                       (stringify_members ((k, x) :: fields) ++ String "}" rest)
                     = true).
    { destruct fields as [|[k' y] l].
      - change (stringify_members [(k, x)])
          with (quote k ++ String ":" (JSON_stringify x)).
        rewrite append_assoc, quote_append. reflexivity.
      - change (stringify_members ((k, x) :: (k', y) :: l))
          with (quote k ++ String ":"
                  (JSON_stringify x
                   ++ String "," (stringify_members ((k', y) :: l)))).
        rewrite append_assoc, quote_append. reflexivity. }
    destruct (value_start_skip _ Hstart) as [c [r [Hs [Hskip [_ H125]]]]].
    rewrite Hskip, Hs, H125. rewrite <- Hs.
    rewrite roundtrip_members;
      [reflexivity | discriminate | assumption | exact Hwf |].
    simpl in Hfuel. unfold size_members. simpl. lia.
Qed.

Lemma digits_length n : (1 <= String.length (digits_of_N n))%nat.
Proof.
  destruct (digits_first n) as [c [d [Hd _]]]. rewrite Hd. simpl. lia.
Qed.

Lemma size_le_length v : (size v <= String.length (JSON_stringify v))%nat.
Proof.
  induction v as [| b | z | s | items IH | fields IH] using json_ind'.
  - simpl. lia.
  - destruct b; simpl; lia.
  - simpl. unfold stringify_number.
    destruct (z <? 0); [simpl; lia | apply digits_length].
  - simpl. lia.
  - rewrite stringify_arr. cbn [String.length size]. rewrite length_append.
    fold (size_elements items).
    assert (H : (size_elements items
                 <= String.length (stringify_elements items) + 1)%nat).
    { clear -IH. induction items as [|x items IHl]; [simpl; lia |].
      inversion IH as [|? ? Hx Hl]; subst. specialize (IHl Hl).
      unfold size_elements in *. cbn [fold_right].
      destruct items as [|y l].
      - simpl. simpl in Hx. lia.
      - change (stringify_elements (x :: y :: l))
          with (JSON_stringify x ++ String "," (stringify_elements (y :: l))).
        rewrite length_append. cbn [String.length]. lia. }
    simpl. lia.
  - rewrite stringify_obj. cbn [String.length size]. rewrite length_append.
    fold (size_members fields).
    assert (H : (size_members fields
                 <= String.length (stringify_members fields) + 1)%nat).
    { clear -IH. induction fields as [|[k x] fields IHl]; [simpl; lia |].
      inversion IH as [|? ? Hx Hl]; subst. specialize (IHl Hl). simpl in Hx.
      unfold size_members in *. cbn [fold_right snd].
      destruct fields as [|[k' y] l].
      - change (stringify_members [(k, x)])
          with (quote k ++ String ":" (JSON_stringify x)).
        rewrite length_append. cbn [String.length fold_right]. lia.
      - change (stringify_members ((k, x) :: (k', y) :: l))
          with (quote k ++ String ":"
                  (JSON_stringify x
                   ++ String "," (stringify_members ((k', y) :: l)))).
        rewrite length_append. cbn [String.length]. rewrite length_append.
        cbn [String.length]. lia. }
    simpl. lia.
Qed.

(** *** Every text of [JSON.stringify] is a JSON text *)

Lemma scan_chars_escape s : forall rest,
  scan_chars (escape s ++ String dquote rest) = Some rest.
Proof.
  induction s as [|c s IH]; intros rest; [reflexivity |].
  cbn [escape]. rewrite append_assoc.
  destruct c as [b0 b1 b2 b3 b4 b5 b6 b7].
  destruct b0, b1, b2, b3, b4, b5, b6, b7; (unfold escape_char; simpl; rewrite IH; reflexivity).
Qed.

Lemma scan_digits_number n rest :
  number_end rest = true ->
  (let (ds, r) := span_digits (digits_of_N n ++ rest) in
   match ds with
   | EmptyString => None
   | _ =>
       if leading_zero ds then None
       else
         let after_fraction :=
           match r with
           | String c r' => if (code c =? 46)%N then scan_digits r' else Some r
           | EmptyString => Some r
           end in
         match after_fraction with
         | Some (String c r') =>
             if ((code c =? 101) || (code c =? 69))%N then
               match r' with
               | String sign r'' =>
                   if ((code sign =? 43) || (code sign =? 45))%N
                   then scan_digits r'' else scan_digits r'
               | EmptyString => None
               end
             else after_fraction
         | _ => after_fraction
         end
   end) = Some rest.
Proof.
  intros Hrest.
  rewrite span_digits_app; [| apply string_of_uint_digits | assumption].
  destruct (digits_of_N_shape n) as [Hne Hlz].
  destruct (digits_of_N n) as [|c d] eqn:Hd; [congruence |].
  rewrite Hlz.
  destruct rest as [|c' r]; [reflexivity |].
  simpl in Hrest. apply andb_true_iff in Hrest as [_ H].
  apply negb_true_iff in H.
  apply orb_false_iff in H as [H H69]. apply orb_false_iff in H as [H46 H101].
  rewrite H46. cbv beta iota zeta. now rewrite H101, H69.
Qed.

Lemma scan_number_stringify z rest :
  number_end rest = true ->
  scan_number (stringify_number z ++ rest) = Some rest.
Proof.
  intros Hrest. unfold stringify_number.
  destruct (z <? 0).
  - unfold scan_number.
    change (String "-" (digits_of_N (Z.abs_N z)) ++ rest)
      with (String "-" (digits_of_N (Z.abs_N z) ++ rest)).
    cbv beta iota. change (code "-" =? 45)%N with true. cbv beta iota.
    now apply scan_digits_number.
  - destruct (digits_first (Z.to_N z)) as [c [d [Hd Hc]]].
    unfold scan_number. rewrite Hd.
    change (String c d ++ rest) with (String c (d ++ rest)). cbv beta iota.
    apply is_digit_code in Hc.
    assert (H45 : (code c =? 45)%N = false) by (apply N.eqb_neq; lia).
    rewrite H45. change (String c (d ++ rest)) with (String c d ++ rest).
    rewrite <- Hd. now apply scan_digits_number.
Qed.

Lemma scan_value_number f c s' :
  code c = 45%N \/ is_digit c = true ->
  scan_value (S f) (String c s') = scan_number (String c s').
Proof.
  intros H.
  apply number_char_codes in H
    as (Hws & H110 & H116 & H102 & H34 & H91 & H123 & _ & _).
  cbn [scan_value skip_ws]. rewrite Hws. cbv beta iota zeta.
  now rewrite H110, H116, H102, H34, H91, H123.
Qed.

Lemma scan_elements_stringify items :
  items <> [] ->
  Forall scans items ->
  forall fuel rest,
    (size_elements items <= fuel)%nat ->
    scan_elements fuel (stringify_elements items ++ String "]" rest) = Some rest.
Proof.
  induction items as [|x items IH]; [congruence |].
  intros _ HP fuel rest Hfuel.
  inversion HP as [|? ? Hx HPl]; subst.
  unfold size_elements in Hfuel. simpl in Hfuel. fold (size_elements items) in Hfuel.
  destruct fuel as [|f]; [lia |].
  destruct items as [|y l].
  - cbn [stringify_elements scan_elements].
    rewrite (Hx f (String "]" rest)) by (try reflexivity; lia).
    reflexivity.
  - change (stringify_elements (x :: y :: l))
      with (JSON_stringify x ++ String "," (stringify_elements (y :: l))).
    rewrite append_assoc.
    change (String "," (stringify_elements (y :: l)) ++ String "]" rest)
      with (String "," (stringify_elements (y :: l) ++ String "]" rest)).
    cbn [scan_elements].
    rewrite (Hx f) by (try reflexivity; lia).
    rewrite skip_ws_char by reflexivity. cbv beta iota.
    change (code "," =? 44)%N with true. cbv beta iota.
    rewrite IH; [reflexivity | discriminate | assumption | lia].
Qed.

Lemma scan_members_step f k tail :
  scan_members (S f) (quote k ++ String ":" tail)
  = match scan_value f tail with
    | Some r =>
        match skip_ws r with
        | String c r' =>
            if (code c =? 44)%N then scan_members f r'
            else if (code c =? 125)%N then Some r'
            else None
        | EmptyString => None
        end
    | None => None
    end.
Proof.
  rewrite quote_append. cbn [scan_members].
  rewrite skip_ws_char by reflexivity. cbv beta iota.
  change (code dquote =? 34)%N with true. cbv beta iota.
  rewrite scan_chars_escape.
  rewrite skip_ws_char by reflexivity. cbv beta iota.
  change (code ":" =? 58)%N with true. cbv beta iota.
  reflexivity.
Qed.

Lemma scan_members_stringify fields :
  fields <> [] ->
  Forall (fun f => scans (snd f)) fields ->
  forall fuel rest,
    (size_members fields <= fuel)%nat ->
    scan_members fuel (stringify_members fields ++ String "}" rest) = Some rest.
Proof.
  induction fields as [|[k x] fields IH]; [congruence |].
  intros _ HP fuel rest Hfuel.
  inversion HP as [|? ? Hx HPl]; subst. simpl in Hx.
  unfold size_members in Hfuel. simpl in Hfuel. fold (size_members fields) in Hfuel.
  destruct fuel as [|f]; [lia |].
  destruct fields as [|[k' y] l].
  - change (stringify_members [(k, x)])
      with (quote k ++ String ":" (JSON_stringify x)).
    rewrite append_assoc.
    change (String ":" (JSON_stringify x) ++ String "}" rest)
      with (String ":" (JSON_stringify x ++ String "}" rest)).
    rewrite scan_members_step.
    rewrite (Hx f (String "}" rest)) by (try reflexivity; lia).
    rewrite skip_ws_char by reflexivity. cbv beta iota.
    change (code "}" =? 44)%N with false.
    change (code "}" =? 125)%N with true. reflexivity.
  - change (stringify_members ((k, x) :: (k', y) :: l))
      with (quote k ++ String ":"
              (JSON_stringify x ++ String "," (stringify_members ((k', y) :: l)))).
    rewrite append_assoc.
    change (String ":" (JSON_stringify x
                        ++ String "," (stringify_members ((k', y) :: l)))
            ++ String "}" rest)
      with (String ":" ((JSON_stringify x
                         ++ String "," (stringify_members ((k', y) :: l)))
                        ++ String "}" rest)).
    rewrite append_assoc.
    change (String "," (stringify_members ((k', y) :: l)) ++ String "}" rest)
      with (String "," (stringify_members ((k', y) :: l) ++ String "}" rest)).
    rewrite scan_members_step.
    rewrite (Hx f) by (try reflexivity; lia).
    rewrite skip_ws_char by reflexivity. cbv beta iota.
    change (code "," =? 44)%N with true. cbv beta iota.
    apply IH; [discriminate | assumption | lia].
Qed.

Lemma scans_every_value v : scans v.
Proof.
  induction v as [| b | z | s | items IH | fields IH] using json_ind';
    intros fuel rest Hfuel Hrest;
    (destruct fuel as [|f]; [simpl in Hfuel; lia |]).
  - reflexivity.
  - destruct b; reflexivity.
  - destruct (number_first z) as [c [d [Hz Hc]]].
    simpl JSON_stringify. pose proof (scan_number_stringify z rest Hrest) as Hnum.
    rewrite Hz in *. change (String c d ++ rest) with (String c (d ++ rest)) in *.
    now rewrite scan_value_number.
  - simpl JSON_stringify. rewrite quote_append.
    change (scan_value (S f) (String dquote (escape s ++ String dquote rest)))
      with (scan_chars (escape s ++ String dquote rest)).
    apply scan_chars_escape.
  - rewrite stringify_arr.
    change (String "[" (stringify_elements items ++ "]") ++ rest)
      with (String "[" ((stringify_elements items ++ "]") ++ rest)).
    rewrite append_assoc. change ("]" ++ rest) with (String "]" rest).
    change (scan_value (S f) (String "[" (stringify_elements items ++ String "]" rest)))
      with (match skip_ws (stringify_elements items ++ String "]" rest) with
            | String c1 r1 =>
                if (code c1 =? 93)%N then Some r1
                else scan_elements f (stringify_elements items ++ String "]" rest)
            | EmptyString => None
            end).
    destruct items as [|x items]; [reflexivity |].
    destruct (value_start_skip _ (elements_start x items (String "]" rest)))
      as [c [r [Hs [Hskip [H93 _]]]]].
    rewrite Hskip, Hs, H93. rewrite <- Hs.
    apply scan_elements_stringify; [discriminate | assumption |].
    simpl in Hfuel. unfold size_elements. simpl. lia.
  - rewrite stringify_obj.
    change (String "{" (stringify_members fields ++ "}") ++ rest)
      with (String "{" ((stringify_members fields ++ "}") ++ rest)).
    rewrite append_assoc. change ("}" ++ rest) with (String "}" rest).
    change (scan_value (S f) (String "{" (stringify_members fields ++ String "}" rest)))
      with (match skip_ws (stringify_members fields ++ String "}" rest) with
            | String c1 r1 =>
                if (code c1 =? 125)%N then Some r1
                else scan_members f (stringify_members fields ++ String "}" rest)
            | EmptyString => None
            end).
    destruct fields as [|[k x] fields]; [reflexivity |].
    assert (Hstart : value_start
                       (stringify_members ((k, x) :: fields) ++ String "}" rest)
                     = true).
    { destruct fields as [|[k' y] l].
      - change (stringify_members [(k, x)])
          with (quote k ++ String ":" (JSON_stringify x)).
        rewrite append_assoc, quote_append. reflexivity.
      - change (stringify_members ((k, x) :: (k', y) :: l))
          with (quote k ++ String ":"
                  (JSON_stringify x
                   ++ String "," (stringify_members ((k', y) :: l)))).
        rewrite append_assoc, quote_append. reflexivity. }
    destruct (value_start_skip _ Hstart) as [c [r [Hs [Hskip [_ H125]]]]].
    rewrite Hskip, Hs, H125. rewrite <- Hs.
    apply scan_members_stringify; [discriminate | assumption |].
    simpl in Hfuel. unfold size_members. simpl. lia.
Qed.

(** [JSON.parse(JSON.stringify(v))] is [v]. *)
Lemma parse_fragment_stringify v :
  wf_json v = true -> parse_fragment (JSON_stringify v) = Some v.
Proof.
  intros Hwf. unfold parse_fragment.
  pose proof (roundtrip_value v Hwf (S (String.length (JSON_stringify v))) "") as H.
  rewrite append_nil_r in H. rewrite H; [reflexivity | | reflexivity].
  pose proof (size_le_length v). lia.
Qed.

Theorem JSON_parse_stringify v :
  wf_json v = true -> JSON_parse (JSON_stringify v) = Parsed v.
Proof.
  intros Hwf. unfold JSON_parse. now rewrite parse_fragment_stringify.
Qed.

(** [JSON.parse] throws on no text of [JSON.stringify]. *)
Theorem JSON_parse_stringify_text v :
  JSON_parse (JSON_stringify v) <> SyntaxError.
Proof.
  unfold JSON_parse. destruct (parse_fragment (JSON_stringify v)); [discriminate |].
  assert (Htext : JSON_text (JSON_stringify v) = true).
  { unfold JSON_text.
    pose proof (scans_every_value v (S (String.length (JSON_stringify v))) "") as H.
    rewrite append_nil_r in H. rewrite H; [reflexivity | | reflexivity].
    pose proof (size_le_length v). lia. }
  rewrite Htext. discriminate.
Qed.

Lemma skip_ws_length s : (String.length (skip_ws s) <= String.length s)%nat.
Proof.
  induction s as [|c s IH]; simpl; [lia |].
  destruct (is_ws c); simpl; lia.
Qed.

Lemma cons_char_some c r str rest :
  cons_char c r = Some (str, rest) ->
  exists str', str = String c str' /\ r = Some (str', rest).
Proof.
  destruct r as [[s' r']|]; simpl; [| discriminate].
  intros H. injection H as <- <-. eauto.
Qed.

Lemma parse_chars_length n : forall s str rest,
  (String.length s <= n)%nat ->
  parse_chars s = Some (str, rest) ->
  (String.length str + String.length rest < String.length s)%nat.
Proof.
  induction n as [|n IH]; intros s str rest Hn H.
  - destruct s; [discriminate | simpl in Hn; lia].
  - destruct s as [|c s']; [discriminate |].
    cbn [parse_chars] in H. simpl in Hn.
    destruct (code c =? 34)%N.
    { injection H as <- <-. simpl. lia. }
    destruct (code c =? 92)%N.
    + destruct s' as [|e s'']; [discriminate |].
      destruct (code e =? 117)%N.
      * destruct s'' as [|h1 [|h2 [|h3 [|h4 s3]]]]; try discriminate.
        destruct (unescape_hex h1 h2 h3 h4); [| discriminate].
        apply cons_char_some in H as [str' [-> H]].
        apply IH in H; simpl in *; lia.
      * destruct (unescape e); [| discriminate].
        apply cons_char_some in H as [str' [-> H]].
        apply IH in H; simpl in *; lia.
    + destruct (code c <? 32)%N; [discriminate |].
      apply cons_char_some in H as [str' [-> H]].
      apply IH in H; simpl in *; lia.
Qed.

Lemma parse_value_string_length fuel s str rest :
  parse_value fuel s = Some (JStr str, rest) ->
  (String.length str < String.length s)%nat.
Proof.
  destruct fuel as [|f]; [discriminate |].
  cbn [parse_value]. pose proof (skip_ws_length s) as Hskip.
  destruct (skip_ws s) as [|c s']; [discriminate |].
  unfold parse_literal.
  repeat match goal with
         | |- context [if ?b then _ else _] => destruct b eqn:?
         | |- context [match ?x with _ => _ end] => destruct x eqn:?
         end; try discriminate.
  intros H. injection H as -> ->.
  match goal with
  | Hp : parse_chars _ = Some _ |- _ =>
      apply (parse_chars_length _ _ _ _ (Nat.le_refl _)) in Hp
  end.
  simpl in Hskip. lia.
Qed.

(** What [JSON.parse] makes of a text is never the text itself as a string. *)
Lemma parse_fragment_not_raw text v :
  parse_fragment text = Some v -> v <> JStr text.
Proof.
  unfold parse_fragment.
  destruct (parse_value (S (String.length text)) text) as [[v' rest]|] eqn:Hp;
    [| discriminate].
  destruct (skip_ws rest); [| discriminate].
  intros H Hv. injection H as ->. subst v.
  apply parse_value_string_length in Hp. lia.
Qed.

Theorem JSON_parse_not_raw text v :
  JSON_parse text = Parsed v -> v <> JStr text.
Proof.
  unfold JSON_parse.
  destruct (parse_fragment text) as [w|] eqn:Hp.
  - intros H. injection H as ->. now apply (parse_fragment_not_raw text).
  - destruct (JSON_text text); discriminate.
Qed.

End JsonFacts.

(** ** A write followed by reads *)
Section WriteThenRead.

Import Sqlite.

Lemma in_insert_or_replace t key value ts r :
  In r (rows (insert_or_replace t key value ts)) <->
  (In r (rows t) /\ same_version key ts r = false)
  \/ r = Row (last_rowid t + 1) key value ts.
Proof.
  unfold insert_or_replace. simpl. rewrite in_app_iff, filter_In. simpl.
  rewrite negb_true_iff. split.
  - intros [H | [H | []]]; [now left | now right].
  - intros [H | H]; [now left | right; now left].
Qed.

(** The latest row after a write at a tick no row of the key exceeds. *)
Lemma insert_or_replace_latest t key value ts :
  (forall r, In r (rows t) -> row_key r = key -> row_timestamp r <= ts) ->
  select_latest (insert_or_replace t key value ts) key
  = Some (Row (last_rowid t + 1) key value ts).
Proof.
  intros Hold. set (new := Row (last_rowid t + 1) key value ts).
  assert (Hnew : In new (rows (insert_or_replace t key value ts))).
  { apply in_insert_or_replace. now right. }
  destruct (select_latest (insert_or_replace t key value ts) key) as [m|] eqn:Hsel.
  - apply select_latest_some in Hsel as [Hin [Hk Hmax]].
    specialize (Hmax new Hnew eq_refl). simpl in Hmax.
    apply in_insert_or_replace in Hin as [[Hin Hsame] | ->]; [| reflexivity].
    exfalso. specialize (Hold m Hin Hk).
    assert (Htrue : same_version key ts m = true).
    { apply same_version_true. unfold kt. f_equal; [assumption | lia]. }
    congruence.
  - exfalso. rewrite select_latest_none in Hsel. now apply (Hsel new Hnew).
Qed.

(** The row of an earlier tick is still the answer at that tick. *)
Lemma insert_or_replace_earlier t key v1 v2 t1 t2 :
  t1 < t2 ->
  let t' := insert_or_replace t key v1 t1 in
  select_as_of (insert_or_replace t' key v2 t2) key t1
  = Some (Row (last_rowid t + 1) key v1 t1).
Proof.
  intros Hlt t'. set (new1 := Row (last_rowid t + 1) key v1 t1).
  assert (Hnew1 : In new1 (rows (insert_or_replace t' key v2 t2))).
  { apply in_insert_or_replace. left. split.
    - apply in_insert_or_replace. now right.
    - unfold same_version. simpl. apply andb_false_iff. right.
      apply Z.eqb_neq. lia. }
  destruct (select_as_of (insert_or_replace t' key v2 t2) key t1) as [m|] eqn:Hsel.
  - apply select_as_of_some in Hsel as [Hin [Hk [Hle Hmax]]].
    specialize (Hmax new1 Hnew1 eq_refl (Z.le_refl t1)). simpl in Hmax.
    assert (Hm : same_version key t1 m = true).
    { apply same_version_true. unfold kt. f_equal; [assumption | lia]. }
    apply in_insert_or_replace in Hin as [[Hin _] | ->].
    + assert (Hf : In m (List.filter (same_version key t1) (rows t'))).
      { apply filter_In. now split. }
      subst t'. rewrite insert_or_replace_same in Hf.
      destruct Hf as [<- | []]. reflexivity.
    + simpl in Hle. lia.
  - exfalso. rewrite select_as_of_none in Hsel.
    specialize (Hsel new1 Hnew1 eq_refl). simpl in Hsel. lia.
Qed.

Lemma server_post_valid now db key v :
  validateKey key = Valid key ->
  Server.post_object now None db (JObj [(key, v)])
  = Server.Outcome
      (insert_or_replace db key (Database.valueStr v) (unix_seconds now))
      (json_ok [("key", JStr key); ("value", v);
                ("timestamp", JNum (unix_seconds now))])
      [CallStoreValue key v].
Proof. intros H. unfold Server.post_object, Server.post_object_on; fold_store. simpl. now rewrite H. Qed.

Lemma server_get_latest_row now db key r :
  validateKey key = Valid key ->
  select_latest db key = Some r ->
  Server.get_object now None db key None
  = (json_ok [("value", JStr (row_value r))], [CallGetLatestValue key]).
Proof.
  intros Hkey Hsel. unfold Server.get_object. rewrite Hkey. simpl.
  unfold Server.get_latest, Database.getLatestValue, get. now rewrite Hsel.
Qed.

Lemma server_get_as_of_row now db key raw t r :
  validateKey key = Valid key ->
  validateTimestamp now raw = Valid t ->
  select_as_of db key t = Some r ->
  Server.get_object now None db key (Some raw)
  = (json_ok_value (parse_or_raw (row_value r)) [],
     [CallGetValueAtTimestamp key t]).
Proof.
  intros Hkey Hts Hsel. unfold Server.get_object. rewrite Hkey.
  rewrite (valid_timestamp_truthy now raw t Hts), Hts.
  unfold Database.getValueAtTimestamp, get. now rewrite Hsel.
Qed.

End WriteThenRead.

(** ** Two writes of one key *)

Lemma valueStr_payload v :
  is_string v = false -> Database.valueStr v = JSON_stringify v.
Proof. destruct v; try reflexivity; discriminate. Qed.

(** What was stored for a payload that is not a string parses back to it. *)
Lemma parse_stored_payload v :
  wf_json v = true -> is_string v = false ->
  parse_or_raw (Database.valueStr v) = Known v.
Proof.
  intros Hwf Hstr. unfold parse_or_raw.
  now rewrite valueStr_payload, JSON_parse_stringify.
Qed.

Lemma api_two_writes now1 now2 (store : gmap string (list Api.version)) key v1 v2 :
  validateKey key = Valid key ->
  let s1 := Api.store_after (Api.post_object now1 store (JObj [(key, v1)])) in
  let s2 := Api.store_after (Api.post_object now2 s1 (JObj [(key, v2)])) in
  s2 !! key
  = Some ((default [] (store !! key) ++ [Api.Version v1 (unix_seconds now1)])
          ++ [Api.Version v2 (unix_seconds now2)])%list.
Proof.
  intros Hkey s1 s2. subst s1 s2.
  rewrite !(api_post_valid _ _ key _ Hkey). simpl.
  rewrite push_lookup, push_lookup. reflexivity.
Qed.

Lemma api_get_latest now (store : gmap string (list Api.version)) key l v :
  validateKey key = Valid key ->
  store !! key = Some (l ++ [v])%list ->
  fst (Api.get_object now store key None) = json_ok [("value", Api.value v)].
Proof.
  intros Hkey Hs. unfold Api.get_object. rewrite Hkey, Hs.
  pose proof (last_version_snoc l v) as Hlast.
  destruct (l ++ [v])%list as [|a l'] eqn:Hl.
  - destruct l; discriminate.
  - simpl truthy. cbv iota. now rewrite Hlast.
Qed.

(** C4 (amended).  Two writes of one key in sequence, through server.js
    over src/database.js and through api/index.js, each acknowledged with
    its timestamp, the second of the clock.

    When the second write falls in a later second than the first, the read
    at the first write's timestamp selects the record of the first write,
    whatever else the store holds: server.js answers with its stored text
    read back through JSON.parse, which is the first value when that value
    is not a string and lies in the fragment of the embedding, and when it
    is a string on which JSON.parse throws; api/index.js answers with the
    first value.  The latest read of api/index.js answers
    with the second value; the latest read of src/database.js selects the
    record of the second write provided no record of the key carries a
    later timestamp than that write.

    When both writes fall in the same second they get the same timestamp:
    in SQLite the second record replaces the first, in the [Map] it comes
    after it, and in both the read at that timestamp selects the record of
    the second write. *)
Theorem C4_two_writes_in_distinct_ticks :
  forall (now1 now2 : Z) (db : Sqlite.table)
         (store : gmap string (list Api.version)) (key : string) (v1 v2 : json),
    validateKey key = Valid key ->
    let t1 := unix_seconds now1 in
    let t2 := unix_seconds now2 in
    let o1 := Server.post_object now1 None db (JObj [(key, v1)]) in
    let o2 := Server.post_object now2 None (Server.db_after o1) (JObj [(key, v2)]) in
    let db2 := Server.db_after o2 in
    let s1 := Api.store_after (Api.post_object now1 store (JObj [(key, v1)])) in
    let s2 := Api.store_after (Api.post_object now2 s1 (JObj [(key, v2)])) in
    (body_field "timestamp" (Server.resp o1) = Some (JNum t1)
     /\ body_field "timestamp" (Server.resp o2) = Some (JNum t2))
    /\ (t1 < t2 ->
        Database.getValueAtTimestamp None db2 key t1
        = Resolved (Some (Database.Version key
                            (parse_or_raw (Database.valueStr v1)) t1))
        /\ (forall now3 raw,
               validateTimestamp now3 raw = Valid t1 ->
               fst (Server.get_object now3 None db2 key (Some raw))
               = json_ok_value (parse_or_raw (Database.valueStr v1)) []
               /\ (wf_json v1 = true -> is_string v1 = false ->
                   fst (Server.get_object now3 None db2 key (Some raw))
                   = json_ok [("value", v1)])
               /\ (forall s, v1 = JStr s -> JSON_parse s = SyntaxError ->
                   fst (Server.get_object now3 None db2 key (Some raw))
                   = json_ok [("value", v1)])
               /\ fst (Api.get_object now3 s2 key (Some raw))
                  = json_ok [("value", v1)])
        /\ ((forall r, In r (Sqlite.rows db) -> Sqlite.row_key r = key ->
                       Sqlite.row_timestamp r <= t2) ->
            exists id,
              Database.getLatestValue None db2 key
              = Resolved (Some (Sqlite.Row id key (Database.valueStr v2) t2)))
        /\ (forall now3,
               fst (Api.get_object now3 s2 key None) = json_ok [("value", v2)]))
    /\ (t1 = t2 ->
        (exists id,
            List.filter (Sqlite.same_version key t1) (Sqlite.rows db2)
            = [Sqlite.Row id key (Database.valueStr v2) t1]
            /\ Sqlite.select_as_of db2 key t1
               = Some (Sqlite.Row id key (Database.valueStr v2) t1))
        /\ (forall now3 raw,
               validateTimestamp now3 raw = Valid t1 ->
               fst (Server.get_object now3 None db2 key (Some raw))
               = json_ok_value (parse_or_raw (Database.valueStr v2)) []
               /\ fst (Api.get_object now3 s2 key (Some raw))
                  = json_ok [("value", v2)])
        /\ s2 !! key
           = Some ((default [] (store !! key) ++ [Api.Version v1 t1])
                   ++ [Api.Version v2 t1])%list).
Proof.
  intros now1 now2 db store key v1 v2 Hkey t1 t2 o1 o2 db2 s1 s2.
  assert (Ho1 : o1 = Server.Outcome
                  (Sqlite.insert_or_replace db key (Database.valueStr v1) t1)
                  (json_ok [("key", JStr key); ("value", v1); ("timestamp", JNum t1)])
                  [CallStoreValue key v1])
    by (apply server_post_valid; assumption).
  assert (Ho2 : o2 = Server.Outcome
                  (Sqlite.insert_or_replace
                     (Sqlite.insert_or_replace db key (Database.valueStr v1) t1)
                     key (Database.valueStr v2) t2)
                  (json_ok [("key", JStr key); ("value", v2); ("timestamp", JNum t2)])
                  [CallStoreValue key v2]).
  { subst o2. rewrite Ho1. simpl Server.db_after.
    apply server_post_valid; assumption. }
  assert (Hdb2 : db2 = Sqlite.insert_or_replace
                         (Sqlite.insert_or_replace db key (Database.valueStr v1) t1)
                         key (Database.valueStr v2) t2)
    by (subst db2; now rewrite Ho2).
  assert (Hs2 : s2 !! key
                = Some ((default [] (store !! key) ++ [Api.Version v1 t1])
                        ++ [Api.Version v2 t2])%list)
    by (apply api_two_writes; assumption).
  assert (Hnonempty : forall l (v : Api.version), (l ++ [v])%list <> []).
  { intros l v H. apply app_eq_nil in H as [_ H]. discriminate. }
  split; [| split].
  - rewrite Ho1, Ho2. split; reflexivity.
  - intros Hlt.
    assert (Hasof : Sqlite.select_as_of db2 key t1
                    = Some (Sqlite.Row (Sqlite.last_rowid db + 1) key
                              (Database.valueStr v1) t1)).
    { rewrite Hdb2. apply insert_or_replace_earlier. assumption. }
    split; [| split; [| split]].
    + unfold Database.getValueAtTimestamp, Sqlite.get. rewrite Hasof. reflexivity.
    + intros now3 raw Hts.
      assert (Hget : fst (Server.get_object now3 None db2 key (Some raw))
                     = json_ok_value (parse_or_raw (Database.valueStr v1)) [])
        by now rewrite (server_get_as_of_row now3 db2 key raw t1 _ Hkey Hts Hasof).
      split; [exact Hget |]. split; [| split].
      * intros Hwf Hstr. rewrite Hget.
        now rewrite (parse_stored_payload v1 Hwf Hstr).
      * intros s Hs Hp. rewrite Hget. subst v1. simpl Database.valueStr.
        unfold parse_or_raw. now rewrite Hp.
      * rewrite (api_get_as_of now3 s2 key raw t1 Hkey Hts), Hs2.
        rewrite !validVersions_snoc. simpl Api.timestamp.
        assert (H1 : (t1 <=? t1) = true) by (apply Z.leb_le; lia).
        assert (H2 : (t2 <=? t1) = false) by (apply Z.leb_gt; lia).
        rewrite H1, H2, app_nil_r, last_version_snoc.
        destruct ((default [] (store !! key) ++ [Api.Version v1 t1])
                  ++ [Api.Version v2 t2])%list eqn:Hl; [| reflexivity].
        now apply Hnonempty in Hl.
    + intros Hold. eexists.
      unfold Database.getLatestValue, Sqlite.get. rewrite Hdb2.
      rewrite insert_or_replace_latest; [reflexivity |].
      intros r Hin Hk. apply in_insert_or_replace in Hin as [[Hin _] | ->].
      * now apply Hold.
      * simpl. lia.
    + intros now3. now rewrite (api_get_latest now3 s2 key _ _ Hkey Hs2).
  - intros Heq.
    assert (Hasof : Sqlite.select_as_of db2 key t1
                    = Some (Sqlite.Row
                              (Sqlite.last_rowid
                                 (Sqlite.insert_or_replace db key
                                    (Database.valueStr v1) t1) + 1)
                              key (Database.valueStr v2) t1)).
    { rewrite Hdb2, <- Heq. apply insert_or_replace_read. }
    split; [| split].
    + eexists. split; [| exact Hasof].
      rewrite Hdb2, <- Heq. apply insert_or_replace_same.
    + intros now3 raw Hts. split.
      * now rewrite (server_get_as_of_row now3 db2 key raw t1 _ Hkey Hts Hasof).
      * rewrite (api_get_as_of now3 s2 key raw t1 Hkey Hts), Hs2, <- Heq.
        rewrite validVersions_snoc. simpl Api.timestamp.
        rewrite Z.leb_refl, last_version_snoc.
        destruct ((default [] (store !! key) ++ [Api.Version v1 t1])
                  ++ [Api.Version v2 t1])%list eqn:Hl; [| reflexivity].
        now apply Hnonempty in Hl.
    + now rewrite Hs2, Heq.
Qed.

(** C4, as stated, fails in three ways.  When the two writes fall in the
    same second, the read at the first write's timestamp returns the second
    value.  When the table holds a record of the key with a later timestamp
    (written before the clock was set back), the latest read after the two
    writes returns that record and not the second value.  When the first
    value is a string that is a JSON text, such as ["1"], the read of
    server.js at the first write's timestamp returns what JSON.parse makes of
    it, the number 1, and not the string. *)
Lemma C4_counterexample :
  (let o1 := Server.post_object 5000 None Sqlite.empty
               (JObj [("mykey", JStr "value1")]) in
   let o2 := Server.post_object 5900 None (Server.db_after o1)
               (JObj [("mykey", JStr "value2")]) in
   Server.resp o1
   = json_ok [("key", JStr "mykey"); ("value", JStr "value1"); ("timestamp", JNum 5)]
   /\ fst (Server.get_object 9000 None (Server.db_after o2) "mykey"
             (Some (QString "5")))
      = json_ok [("value", JStr "value2")])
  /\ (let db := Sqlite.Table [Sqlite.Row 1 "mykey" "value0" 100] 1 in
      let o1 := Server.post_object 5000 None db (JObj [("mykey", JStr "value1")]) in
      let o2 := Server.post_object 6000 None (Server.db_after o1)
                  (JObj [("mykey", JStr "value2")]) in
      fst (Server.get_object 9000 None (Server.db_after o2) "mykey" None)
      = json_ok [("value", JStr "value0")])
  /\ (let o1 := Server.post_object 5000 None Sqlite.empty
                  (JObj [("mykey", JStr "1")]) in
      let o2 := Server.post_object 6000 None (Server.db_after o1)
                  (JObj [("mykey", JStr "value2")]) in
      fst (Server.get_object 9000 None (Server.db_after o2) "mykey"
             (Some (QString "5")))
      = json_ok [("value", JNum 1)]).
Proof. vm_compute. repeat split; reflexivity. Qed.

(** ** The value a read returns *)

Lemma unix_seconds_mono a b : a <= b -> unix_seconds a <= unix_seconds b.
Proof. intros H. unfold unix_seconds. apply Z.div_le_mono; lia. Qed.

(** C2. A write followed by the latest read, in server.js over
    src/database.js: the write is acknowledged with the value and a
    timestamp not before the clock read just before it; [getLatestValue]
    then resolves with the row of that write, which holds that timestamp and
    the text that was stored, and the read answers with that text.  For a
    string that is the value written.  For any other value it is the
    JSON.stringify text, a string, and not the value written: the claim
    fails there. *)
Theorem C2_write_then_latest_read :
  forall (now1 now2 : Z) (db : Sqlite.table) (key : string) (v : json),
    validateKey key = Valid key ->
    (forall r, In r (Sqlite.rows db) -> Sqlite.row_key r = key ->
               Sqlite.row_timestamp r <= unix_seconds now1) ->
    let o := Server.post_object now1 None db (JObj [(key, v)]) in
    Server.resp o
    = json_ok [("key", JStr key); ("value", v);
               ("timestamp", JNum (unix_seconds now1))]
    /\ (forall before, before <= now1 -> unix_seconds before <= unix_seconds now1)
    /\ Database.getLatestValue None (Server.db_after o) key
       = Resolved (Some (Sqlite.Row (Sqlite.last_rowid db + 1) key
                           (Database.valueStr v) (unix_seconds now1)))
    /\ fst (Server.get_object now2 None (Server.db_after o) key None)
       = json_ok [("value", JStr (Database.valueStr v))]
    /\ (forall s, v = JStr s -> JStr (Database.valueStr v) = v)
    /\ (is_string v = false ->
        Database.valueStr v = JSON_stringify v
        /\ JStr (Database.valueStr v) <> v).
Proof.
  intros now1 now2 db key v Hkey Hold o. subst o.
  rewrite (server_post_valid now1 db key v Hkey). simpl Server.resp.
  simpl Server.db_after.
  pose proof (insert_or_replace_latest db key (Database.valueStr v)
                (unix_seconds now1) Hold) as Hlatest.
  split; [reflexivity |]. split; [intros before; apply unix_seconds_mono |].
  split; [| split; [| split]].
  - unfold Database.getLatestValue, Sqlite.get. now rewrite Hlatest.
  - now rewrite (server_get_latest_row now2 _ key _ Hkey Hlatest).
  - intros s ->. reflexivity.
  - intros Hstr. split; [now apply valueStr_payload |].
    intros H. rewrite <- H in Hstr. discriminate.
Qed.

(** The sibling read path: over src/database-serverless.js the latest read
    after the same write answers with the stored text parsed, the value
    written when that value is not a string. *)
Lemma serverless_write_then_latest_read now1 now2 db key v :
  validateKey key = Valid key ->
  (forall r, In r (Sqlite.rows db) -> Sqlite.row_key r = key ->
             Sqlite.row_timestamp r <= unix_seconds now1) ->
  let db' := fst (ServerlessDatabase.storeValue None db key v (unix_seconds now1)) in
  fst (ServerlessServer.get_object now2 None db' key None)
  = json_ok_value (parse_or_raw (Database.valueStr v)) []
  /\ (wf_json v = true -> is_string v = false ->
      parse_or_raw (Database.valueStr v) = Known v).
Proof.
  intros Hkey Hold db'. subst db'.
  rewrite serverless_storeValue_table. simpl fst.
  pose proof (insert_or_replace_latest db key (Database.valueStr v)
                (unix_seconds now1) Hold) as Hlatest.
  split; [| apply parse_stored_payload].
  unfold ServerlessServer.get_object. rewrite Hkey. simpl truthy. cbv iota.
  unfold ServerlessDatabase.getLatestValue, Sqlite.get. rewrite Hlatest.
  reflexivity.
Qed.

(** The failing input of C2: [{"k": {"a": 1}}] is read back as a string. *)
Lemma C2_write_then_latest_read_witness :
  fst (Server.get_object 9000 None
         (Server.db_after
            (Server.post_object 5000 None Sqlite.empty
               (JObj [("k", JObj [("a", JNum 1)])])))
         "k" None)
  = json_ok [("value", JStr ("{" ++ String dquote "a" ++ String dquote ":1}"))]
  /\ JStr ("{" ++ String dquote "a" ++ String dquote ":1}") <> JObj [("a", JNum 1)].
Proof.
  pose proof (C2_write_then_latest_read 5000 9000 Sqlite.empty "k"
                (JObj [("a", JNum 1)]) eq_refl
                (fun r (H : In r []) => match H with end)) as H.
  cbv zeta in H. destruct H as (_ & _ & _ & Hread & _ & Hneq).
  split; [exact Hread | exact (proj2 (Hneq eq_refl))].
Defined.

Lemma answers_differ text :
  JSON_parse text <> SyntaxError ->
  json_ok_value (parse_or_raw text) [] <> json_ok [("value", JStr text)].
Proof.
  unfold parse_or_raw. intros Hparse.
  destruct (JSON_parse text) as [v| |] eqn:Hp.
  - apply JSON_parse_not_raw in Hp. simpl. intros H. injection H as H. congruence.
  - discriminate.
  - congruence.
Qed.

(** C10. The SQLite backends store a string as it is and any other value as
    its JSON.stringify text.  [getValueAtTimestamp] of src/database.js, and
    both reads of src/database-serverless.js, return the stored text read
    back through JSON.parse, or the text itself when JSON.parse throws;
    [getLatestValue] of src/database.js returns the row with the text as
    stored.  When the latest read and a point-in-time read of server.js
    select the same row, the first answers with the text as a string and the
    second with what JSON.parse made of it, and the two answers differ
    exactly when the text is a JSON text: that is so for the text stored for
    every value that is not a string, and for every string that is a JSON
    text.  (What JSON.parse returns is never the text itself: it returns a
    string only for a string literal, which is longer than the string it
    denotes.) *)
Theorem C10_stored_text_and_parsed_value :
  (forall s, Database.valueStr (JStr s) = s
             /\ ServerlessDatabase.valueStr (JStr s) = s)
  /\ (forall v, is_string v = false ->
                Database.valueStr v = JSON_stringify v
                /\ ServerlessDatabase.valueStr v = JSON_stringify v)
  /\ (forall db key v ts,
         Sqlite.select_as_of (fst (Database.storeValue None db key v ts)) key ts
         = Some (Sqlite.Row (Sqlite.last_rowid db + 1) key (Database.valueStr v) ts)
         /\ fst (ServerlessDatabase.storeValue None db key v ts)
            = fst (Database.storeValue None db key v ts))
  /\ (forall db key r,
         Sqlite.select_latest db key = Some r ->
         Database.getLatestValue None db key = Resolved (Some r)
         /\ ServerlessDatabase.getLatestValue None db key
            = Resolved (Some (Database.Version (Sqlite.row_key r)
                                (parse_or_raw (Sqlite.row_value r))
                                (Sqlite.row_timestamp r))))
  /\ (forall db key t r,
         Sqlite.select_as_of db key t = Some r ->
         Database.getValueAtTimestamp None db key t
         = Resolved (Some (Database.Version (Sqlite.row_key r)
                             (parse_or_raw (Sqlite.row_value r))
                             (Sqlite.row_timestamp r))))
  /\ (forall now db key raw t r,
         validateKey key = Valid key ->
         validateTimestamp now raw = Valid t ->
         Sqlite.select_latest db key = Some r ->
         Sqlite.select_as_of db key t = Some r ->
         let latest := fst (Server.get_object now None db key None) in
         let as_of := fst (Server.get_object now None db key (Some raw)) in
         latest = json_ok [("value", JStr (Sqlite.row_value r))]
         /\ as_of = json_ok_value (parse_or_raw (Sqlite.row_value r)) []
         /\ (JSON_parse (Sqlite.row_value r) = SyntaxError -> as_of = latest)
         /\ (JSON_parse (Sqlite.row_value r) <> SyntaxError -> as_of <> latest)
         /\ (forall v, JSON_parse (Sqlite.row_value r) = Parsed v ->
                       as_of = json_ok [("value", v)]))
  /\ (forall v, is_string v = false ->
                JSON_parse (Database.valueStr v) <> SyntaxError)
  /\ (forall v, wf_json v = true -> is_string v = false ->
                JSON_parse (Database.valueStr v) = Parsed v).
Proof.
  split; [| split; [| split; [| split; [| split; [| split; [| split]]]]]].
  - intros s. split; reflexivity.
  - intros v Hstr. split; destruct v; try reflexivity; discriminate.
  - intros db key v ts. split.
    + rewrite storeValue_table. apply insert_or_replace_read.
    + now rewrite storeValue_table, serverless_storeValue_table.
  - intros db key r Hsel.
    unfold Database.getLatestValue, ServerlessDatabase.getLatestValue, Sqlite.get.
    rewrite Hsel. split; reflexivity.
  - intros db key t r Hsel. unfold Database.getValueAtTimestamp, Sqlite.get.
    now rewrite Hsel.
  - intros now db key raw t r Hkey Hts Hlatest Hasof latest as_of.
    subst latest as_of.
    rewrite (server_get_latest_row now db key r Hkey Hlatest).
    rewrite (server_get_as_of_row now db key raw t r Hkey Hts Hasof).
    cbn [fst].
    split; [reflexivity |]. split; [reflexivity |].
    split; [| split].
    + intros Hp. unfold parse_or_raw. now rewrite Hp.
    + apply answers_differ.
    + intros v Hp. unfold parse_or_raw. now rewrite Hp.
  - intros v Hstr. rewrite valueStr_payload by assumption.
    apply JSON_parse_stringify_text.
  - intros v Hwf Hstr. rewrite valueStr_payload by assumption.
    now apply JSON_parse_stringify.
Qed.

(** ** Instances *)

(** C1 at a table with two versions of ["k"] and at the same versions in the
    [Map]. *)
Lemma C1_point_in_time_read_witness :
  let db := Sqlite.Table [Sqlite.Row 1 "k" "a" 10; Sqlite.Row 2 "k" "b" 20] 2 in
  let store : gmap string (list Api.version) :=
    <["k" := [Api.Version (JStr "a") 10; Api.Version (JStr "b") 20]]> ∅ in
  (Database.getValueAtTimestamp None db "k" 5 = Resolved None
   /\ status (fst (Server.get_object 100000 None db "k" (Some (QString "5")))) = 404)
  /\ fst (Api.get_object 100000 store "k" (Some (QString "15")))
     = json_ok [("value", JStr "a")].
Proof.
  intros db store.
  destruct C1_point_in_time_read as (_ & Hnone & Hapi & _).
  split.
  - apply (Hnone 100000 db "k" (QString "5") 5 eq_refl eq_refl).
    intros r [<- | [<- | []]] _; simpl; lia.
  - specialize (Hapi 100000 store "k" (QString "15") 15 eq_refl eq_refl).
    cbv zeta in Hapi.
    assert (Hs : store !! "k"
                 = Some [Api.Version (JStr "a") 10; Api.Version (JStr "b") 20])
      by reflexivity.
    rewrite Hs in Hapi. simpl in Hapi. exact (proj1 Hapi).
Defined.

(** C3 at a second write of ["k"] within the second of the first: the table
    keeps one row, the [Map] and the collection two records. *)
Lemma C3_uniqueness_by_backend_witness :
  let db1 := fst (Database.storeValue None Sqlite.empty "k" (JStr "a") 1) in
  let db2 := fst (Database.storeValue None db1 "k" (JStr "b") 1) in
  let store1 : gmap string (list Api.version) :=
    <["k" := [Api.Version (JStr "a") 1]]> ∅ in
  let mongo1 := MongoDatabase.Mongo [MongoDatabase.Document "k" (JStr "a") 1] true in
  (unique_rows db2
   /\ Sqlite.rows db2 = [Sqlite.Row 2 "k" "b" 1]
   /\ Sqlite.select_as_of db2 "k" 1 = Some (Sqlite.Row 2 "k" "b" 1))
  /\ (Api.store_after (Api.post_object 1500 store1 (JObj [("k", JStr "b")])) !! "k"
      = Some [Api.Version (JStr "a") 1; Api.Version (JStr "b") 1]
      /\ Api.last_version
           (Api.validVersions
              [Api.Version (JStr "a") 1; Api.Version (JStr "b") 1] 1)
         = Some (Api.Version (JStr "b") 1))
  /\ MongoDatabase.collection
       (fst (MongoDatabase.storeValue None 1500 mongo1 "k" (JStr "b")))
     = [MongoDatabase.Document "k" (JStr "a") 1;
        MongoDatabase.Document "k" (JStr "b") 1].
Proof.
  intros db1 db2 store1 mongo1.
  destruct C3_uniqueness_by_backend as (Hunique & Hsqlite & Hapi & Hmongo).
  split; [| split].
  - split.
    + apply Hunique.
      exact (reachable_store None db1 "k" (JStr "b") 1
               (reachable_store None Sqlite.empty "k" (JStr "a") 1 reachable_empty)).
    + destruct (Hsqlite db1 "k" (JStr "b") 1) as [Hsame Hread].
      split; [exact Hsame | exact Hread].
  - destruct (Hapi 1500 store1 "k" (JStr "b") eq_refl) as [Hstore Hlast].
    split; [exact Hstore |]. apply (Hlast 1). reflexivity.
  - exact (Hmongo 1500 mongo1 "k" (JStr "b") eq_refl).
Defined.

(** C4 at two writes of ["mykey"], one second apart and then within one
    second, into a table that holds an older row of the key and a row of
    another key. *)
Lemma C4_two_writes_in_distinct_ticks_witness :
  let db := Sqlite.Table [Sqlite.Row 1 "mykey" "value0" 3;
                          Sqlite.Row 2 "other" "x" 4] 2 in
  let first := JObj [("a", JNum 1)] in
  let o1 := Server.post_object 5000 None db (JObj [("mykey", first)]) in
  (let o2 := Server.post_object 6000 None (Server.db_after o1)
               (JObj [("mykey", JStr "value2")]) in
   fst (Server.get_object 9000 None (Server.db_after o2) "mykey"
          (Some (QString "5")))
   = json_ok [("value", first)]
   /\ exists id,
       Database.getLatestValue None (Server.db_after o2) "mykey"
       = Resolved (Some (Sqlite.Row id "mykey" "value2" 6)))
  /\ (let o2 := Server.post_object 5900 None (Server.db_after o1)
                  (JObj [("mykey", JStr "value2")]) in
      fst (Server.get_object 9000 None (Server.db_after o2) "mykey"
             (Some (QString "5")))
      = json_ok [("value", JStr "value2")]).
Proof.
  intros db first o1. split.
  - intros o2.
    pose proof (C4_two_writes_in_distinct_ticks 5000 6000 db ∅ "mykey"
                  first (JStr "value2") eq_refl) as H.
    cbv zeta in H. destruct H as (_ & Hlater & _).
    destruct (Hlater eq_refl) as (_ & Hread & Hlatest & _).
    split.
    + exact (proj1 (proj2 (Hread 9000 (QString "5") eq_refl)) eq_refl eq_refl).
    + apply Hlatest.
      intros r [<- | [<- | []]] Hk; [vm_compute; discriminate | discriminate Hk].
  - intros o2.
    pose proof (C4_two_writes_in_distinct_ticks 5000 5900 db ∅ "mykey"
                  first (JStr "value2") eq_refl) as H.
    cbv zeta in H. destruct H as (_ & _ & Hsame).
    destruct (Hsame eq_refl) as (_ & Hread & _).
    exact (proj1 (Hread 9000 (QString "5") eq_refl)).
Defined.


(** C6 at the key ["invalid key!"] on server.js. *)
Lemma C6_read_key_validation_witness :
  snd (Server.get_object 0 None Sqlite.empty "invalid key!" None) = [].
Proof.
  destruct C6_read_key_validation as (Hserver & _).
  exact (proj1 (proj2 (Hserver 0 None Sqlite.empty "invalid key!" None
                         string_pattern_base eq_refl))).
Defined.


(** C9 at the timestamp ["0"]. *)
Lemma C9_timestamp_validation_witness :
  validateTimestamp 1700000000000 (QString "0") = Valid 0
  /\ status (fst (Server.get_object 1700000000000 None
                    (Sqlite.Table [Sqlite.Row 1 "k" "a" 10] 1) "k"
                    (Some (QString "0")))) = 404.
Proof.
  destruct (C9_timestamp_validation 1700000000000 (QString "0"))
    as (_ & _ & _ & Hzero & Hread).
  split.
  - apply Hzero. vm_compute. discriminate.
  - apply Hread; [vm_compute; discriminate | reflexivity |].
    intros r [<- | []] _. simpl. lia.
Defined.

(** C10 at the number 1 written under ["k"]: the row holds the text ["1"],
    the latest read answers with that text and the read at the write's
    timestamp with the number. *)
Lemma C10_stored_text_and_parsed_value_witness :
  let db := Server.db_after
              (Server.post_object 5000 None Sqlite.empty (JObj [("k", JNum 1)])) in
  let latest := fst (Server.get_object 9000 None db "k" None) in
  let as_of := fst (Server.get_object 9000 None db "k" (Some (QString "5"))) in
  latest = json_ok [("value", JStr "1")]
  /\ as_of = json_ok [("value", JNum 1)]
  /\ as_of <> latest.
Proof.
  intros db latest as_of.
  destruct C10_stored_text_and_parsed_value
    as (_ & _ & _ & _ & _ & Hsame & _ & _).
  destruct (Hsame 9000 db "k" (QString "5") 5 (Sqlite.Row 1 "k" "1" 5)
              eq_refl eq_refl eq_refl eq_refl)
    as (Hlatest & _ & _ & Hdiff & Hparsed).
  split; [exact Hlatest |]. split.
  - exact (Hparsed (JNum 1) eq_refl).
  - apply Hdiff. discriminate.
Defined.

(** * Further properties of the code *)

(** ** What a write leaves alone in [kv_store] *)
Section WriteFrame.

Import Sqlite.

Lemma filter_ext_in {A} (p q : A -> bool) (l : list A) :
  (forall x, In x l -> p x = q x) -> List.filter p l = List.filter q l.
Proof.
  induction l as [|a l IH]; simpl; intros H; [reflexivity |].
  rewrite (H a (or_introl eq_refl)), IH; [reflexivity |].
  intros x Hx. apply H. now right.
Qed.

Lemma filter_filter_implied {A} (p q : A -> bool) (l : list A) :
  (forall x, p x = true -> q x = true) ->
  List.filter p (List.filter q l) = List.filter p l.
Proof.
  intros H. induction l as [|a l IH]; simpl; [reflexivity |].
  destruct (q a) eqn:Hq; simpl.
  - now rewrite IH.
  - destruct (p a) eqn:Hp; [| assumption].
    apply H in Hp. congruence.
Qed.

(** The rows a predicate selects are the same after a write, when the
    predicate holds of no row with the written (key, timestamp). *)
Lemma insert_or_replace_filter t key value ts (p : row -> bool) :
  (forall r, row_key r = key -> row_timestamp r = ts -> p r = false) ->
  List.filter p (rows (insert_or_replace t key value ts)) = List.filter p (rows t).
Proof.
  intros Hp. unfold insert_or_replace. simpl. rewrite List.filter_app. simpl.
  rewrite (Hp (Row (last_rowid t + 1) key value ts) eq_refl eq_refl).
  rewrite app_nil_r. apply filter_filter_implied.
  intros r Hr. apply negb_true_iff.
  destruct (same_version key ts r) eqn:Hs; [| reflexivity].
  apply same_version_true in Hs. unfold kt in Hs. injection Hs as Hk Ht.
  rewrite (Hp r Hk Ht) in Hr. discriminate.
Qed.

Lemma run_filter fault t key value ts (p : row -> bool) :
  (forall r, row_key r = key -> row_timestamp r = ts -> p r = false) ->
  List.filter p (rows (fst (run_insert_or_replace fault t key value ts)))
  = List.filter p (rows t).
Proof.
  intros Hp. unfold run_insert_or_replace.
  destruct fault; simpl; [reflexivity | now apply insert_or_replace_filter].
Qed.

(** Reads of another key. *)
Lemma other_key_filter fault t key value ts key' :
  key <> key' ->
  List.filter (fun r => String.eqb (row_key r) key')
    (rows (fst (run_insert_or_replace fault t key value ts)))
  = List.filter (fun r => String.eqb (row_key r) key') (rows t).
Proof.
  intros Hne. apply run_filter. intros r Hk _.
  apply String.eqb_neq. congruence.
Qed.

Lemma other_key_filter_as_of fault t key value ts key' t' :
  key <> key' ->
  List.filter (fun r => String.eqb (row_key r) key' && (row_timestamp r <=? t'))
    (rows (fst (run_insert_or_replace fault t key value ts)))
  = List.filter (fun r => String.eqb (row_key r) key' && (row_timestamp r <=? t'))
      (rows t).
Proof.
  intros Hne. apply run_filter. intros r Hk _.
  apply andb_false_iff. left. apply String.eqb_neq. congruence.
Qed.

(** Reads at an earlier time. *)
Lemma earlier_filter fault t key value ts key' t' :
  t' < ts ->
  List.filter (fun r => String.eqb (row_key r) key' && (row_timestamp r <=? t'))
    (rows (fst (run_insert_or_replace fault t key value ts)))
  = List.filter (fun r => String.eqb (row_key r) key' && (row_timestamp r <=? t'))
      (rows t).
Proof.
  intros Hlt. apply run_filter. intros r _ Ht.
  apply andb_false_iff. right. apply Z.leb_gt. lia.
Qed.

Lemma server_post_table now fault db b :
  Server.db_after (Server.post_object now fault db b) = db
  \/ exists key value,
      Server.db_after (Server.post_object now fault db b)
      = fst (run_insert_or_replace fault db key (Database.valueStr value)
               (unix_seconds now)).
Proof.
  unfold Server.post_object, Server.post_object_on; fold_store.
  destruct (validateValue b); [| now left].
  destruct (Object_entries b) as [[|[k v] [|f l]]|]; try (now left).
  destruct (validateKey k); [| now left].
  right. exists k, v. rewrite <- storeValue_table.
  destruct (Database.storeValue fault db k v (unix_seconds now)) as [db' [r|m]];
    reflexivity.
Qed.

End WriteFrame.

Section WriteFrameTheorems.

Import Sqlite.

Lemma reads_from_selection f db1 db2 key :
  select_latest db1 key = select_latest db2 key ->
  Database.getLatestValue f db1 key = Database.getLatestValue f db2 key.
Proof. intros H. unfold Database.getLatestValue. now rewrite H. Qed.

Lemma as_of_from_selection f db1 db2 key t :
  select_as_of db1 key t = select_as_of db2 key t ->
  Database.getValueAtTimestamp f db1 key t
  = Database.getValueAtTimestamp f db2 key t.
Proof. intros H. unfold Database.getValueAtTimestamp. now rewrite H. Qed.

Lemma server_get_from_selection now f db1 db2 key q :
  select_latest db1 key = select_latest db2 key ->
  (forall t, validateTimestamp now (default QObject q) = Valid t ->
             select_as_of db1 key t = select_as_of db2 key t) ->
  Server.get_object now f db1 key q = Server.get_object now f db2 key q.
Proof.
  intros Hl Ha. unfold Server.get_object.
  destruct (validateKey key); [| reflexivity].
  destruct q as [raw|].
  - destruct (truthy (Some raw)).
    + destruct (validateTimestamp now raw) as [t|e] eqn:Hv; [| reflexivity].
      rewrite (as_of_from_selection f db1 db2 key t (Ha t Hv)). reflexivity.
    + unfold Server.get_latest.
      now rewrite (reads_from_selection f db1 db2 key Hl).
  - change (truthy None) with false. cbv iota. unfold Server.get_latest.
    now rewrite (reads_from_selection f db1 db2 key Hl).
Qed.

(** X1. A write never rewrites the past: whatever the request and whether
    SQLite runs or fails the statement, every point-in-time read at a time
    before the timestamp of the write, of any key, answers after the write
    what it answered before. *)
Theorem write_keeps_earlier_history :
  forall (fault : option sqlite_err) (db : table) (key : string) (value : json)
         (ts : Z) (key' : string) (t : Z),
    t < ts ->
    (forall f,
        Database.getValueAtTimestamp f
          (fst (Database.storeValue fault db key value ts)) key' t
        = Database.getValueAtTimestamp f db key' t)
    /\ (forall now b now' f raw,
           unix_seconds now = ts ->
           validateTimestamp now' raw = Valid t ->
           Server.get_object now' f
             (Server.db_after (Server.post_object now fault db b)) key' (Some raw)
           = Server.get_object now' f db key' (Some raw)).
Proof.
  intros fault db key value ts key' t Hlt. split.
  - intros f. apply as_of_from_selection. rewrite storeValue_table.
    unfold select_as_of. now rewrite earlier_filter.
  - intros now b now' f raw Hnow Hv.
    destruct (server_post_table now fault db b) as [-> | [k [v ->]]];
      [reflexivity |].
    unfold Server.get_object. destruct (validateKey key'); [| reflexivity].
    rewrite (valid_timestamp_truthy now' raw t Hv), Hv.
    rewrite (as_of_from_selection f _ db key' t); [reflexivity |].
    unfold select_as_of. rewrite earlier_filter; [reflexivity | lia].
Qed.

Lemma write_keeps_earlier_history_witness :
  let db := Table [Row 1 "k" "a" 10] 1 in
  Database.getValueAtTimestamp None
    (fst (Database.storeValue None db "k" (JStr "b") 20)) "k" 15
  = Resolved (Some (Database.Version "k" (JStr "a") 10)).
Proof.
  intros db.
  rewrite (proj1 (write_keeps_earlier_history None db "k" (JStr "b") 20 "k" 15
                    eq_refl) None).
  reflexivity.
Defined.

(** X2. A write to one key leaves every other key alone: the latest read,
    every point-in-time read and the list of versions of another key are
    after the write what they were before. *)
Theorem write_leaves_other_keys :
  forall (fault : option sqlite_err) (db : table) (key : string) (value : json)
         (ts : Z) (key' : string),
    key <> key' ->
    let db' := fst (Database.storeValue fault db key value ts) in
    (forall f, Database.getLatestValue f db' key' = Database.getLatestValue f db key')
    /\ (forall f t, Database.getValueAtTimestamp f db' key' t
                    = Database.getValueAtTimestamp f db key' t)
    /\ (forall f, Database.getAllVersions f db' key'
                  = Database.getAllVersions f db key')
    /\ (forall now now' f q,
           unix_seconds now = ts ->
           Server.get_object now' f
             (Server.db_after
                (Server.post_object now fault db (JObj [(key, value)]))) key' q
           = Server.get_object now' f db key' q).
Proof.
  intros fault db key value ts key' Hne db'. subst db'.
  rewrite storeValue_table.
  assert (Hl : select_latest
                 (fst (run_insert_or_replace fault db key
                         (Database.valueStr value) ts)) key'
               = select_latest db key').
  { unfold select_latest. now rewrite other_key_filter. }
  assert (Ha : forall t,
             select_as_of
               (fst (run_insert_or_replace fault db key
                       (Database.valueStr value) ts)) key' t
             = select_as_of db key' t).
  { intros t. unfold select_as_of. now rewrite other_key_filter_as_of. }
  split; [| split; [| split]].
  - intros f. now apply reads_from_selection.
  - intros f t. now apply as_of_from_selection.
  - intros f. unfold Database.getAllVersions, select_all.
    now rewrite other_key_filter.
  - intros now now' f q Hnow.
    assert (Hdb : Server.db_after
                    (Server.post_object now fault db (JObj [(key, value)]))
                  = db
                  \/ Server.db_after
                       (Server.post_object now fault db (JObj [(key, value)]))
                     = fst (run_insert_or_replace fault db key
                              (Database.valueStr value) ts)).
    { unfold Server.post_object, Server.post_object_on; fold_store. simpl validateValue. simpl Object_entries.
      cbv iota. destruct (validateKey key); [| now left].
      right. rewrite <- storeValue_table, Hnow.
      destruct (Database.storeValue fault db key value ts) as [db' [r|m]];
        reflexivity. }
    destruct Hdb as [-> | ->]; [reflexivity |].
    apply server_get_from_selection; [assumption | intros t _; apply Ha].
Qed.

Lemma write_leaves_other_keys_witness :
  let db := Table [Row 1 "a" "x" 10] 1 in
  Database.getLatestValue None
    (fst (Database.storeValue None db "b" (JStr "y") 20)) "a"
  = Resolved (Some (Row 1 "a" "x" 10)).
Proof.
  intros db.
  assert (Hne : "b" <> "a") by discriminate.
  rewrite (proj1 (write_leaves_other_keys None db "b" (JStr "y") 20 "a" Hne) None).
  reflexivity.
Defined.

End WriteFrameTheorems.

(** ** Reads of one table *)
Section ReadsOfOneTable.

Import Sqlite.

Lemma filter_as_of_subset key t t' (l : list row) :
  t <= t' ->
  forall r,
    In r (List.filter (fun r => String.eqb (row_key r) key && (row_timestamp r <=? t)) l) ->
    In r (List.filter (fun r => String.eqb (row_key r) key && (row_timestamp r <=? t')) l).
Proof.
  intros Hle r Hr. apply filter_In in Hr as [Hin Hp]. apply filter_In.
  split; [assumption |]. apply andb_true_iff in Hp as [Hk Ht].
  apply andb_true_iff. split; [assumption |].
  apply Z.leb_le in Ht. apply Z.leb_le. lia.
Qed.

Lemma select_as_of_monotone db key t t' r :
  t <= t' -> select_as_of db key t = Some r ->
  exists r', select_as_of db key t' = Some r'
             /\ row_timestamp r <= row_timestamp r'.
Proof.
  intros Hle Hsel.
  apply select_as_of_some in Hsel as [Hin [Hk [Ht _]]].
  destruct (select_as_of db key t') as [r'|] eqn:Hsel'.
  - exists r'. split; [reflexivity |].
    apply select_as_of_some in Hsel' as [_ [_ [_ Hmax]]].
    apply Hmax; [assumption | assumption | lia].
  - exfalso. rewrite select_as_of_none in Hsel'.
    specialize (Hsel' r Hin Hk). lia.
Qed.

Lemma select_as_of_latest db key t :
  (forall r, In r (rows db) -> row_key r = key -> row_timestamp r <= t) ->
  select_as_of db key t = select_latest db key.
Proof.
  intros Hall. unfold select_as_of, select_latest. f_equal.
  apply filter_ext_in. intros r Hr.
  destruct (String.eqb_spec (row_key r) key) as [Hk | Hk]; [| reflexivity].
  simpl. apply Z.leb_le. now apply Hall.
Qed.

(** X3. Point-in-time reads grow with the time asked for: when the read at
    [t] finds a version, the read at any later [t'] finds one too, and one
    at least as recent; and once [t] is not before the newest version of the
    key, the read at [t] selects the very row the latest read selects. *)
Theorem point_in_time_reads_are_monotone :
  forall (db : table) (key : string) (t t' : Z),
    t <= t' ->
    (forall v,
        Database.getValueAtTimestamp None db key t = Resolved (Some v) ->
        exists v',
          Database.getValueAtTimestamp None db key t' = Resolved (Some v')
          /\ Database.version_timestamp v <= Database.version_timestamp v')
    /\ ((forall r, In r (rows db) -> row_key r = key -> row_timestamp r <= t) ->
        Database.getValueAtTimestamp None db key t'
        = Database.getValueAtTimestamp None db key t
        /\ match Database.getLatestValue None db key with
           | Resolved row =>
               Database.getValueAtTimestamp None db key t
               = Resolved (option_map to_version row)
           | Rejected _ => False
           end).
Proof.
  intros db key t t' Hle. split.
  - intros v Hv. unfold Database.getValueAtTimestamp, get in *.
    destruct (select_as_of db key t) as [r|] eqn:Hsel; [| discriminate].
    injection Hv as <-.
    destruct (select_as_of_monotone db key t t' r Hle Hsel) as [r' [Hsel' Hts]].
    rewrite Hsel'. eexists. split; [reflexivity | exact Hts].
  - intros Hall.
    assert (H1 : select_as_of db key t = select_latest db key)
      by now apply select_as_of_latest.
    assert (H2 : select_as_of db key t' = select_latest db key).
    { apply select_as_of_latest. intros r Hr Hk. specialize (Hall r Hr Hk). lia. }
    unfold Database.getValueAtTimestamp, Database.getLatestValue, get.
    rewrite H1, H2. split; [reflexivity |].
    destruct (select_latest db key); reflexivity.
Qed.

Lemma point_in_time_reads_are_monotone_witness :
  let db := Table [Row 1 "k" "a" 10; Row 2 "k" "b" 20] 2 in
  exists v',
    Database.getValueAtTimestamp None db "k" 25 = Resolved (Some v')
    /\ 10 <= Database.version_timestamp v'.
Proof.
  intros db.
  assert (Hle : 15 <= 25) by lia.
  exact (proj1 (point_in_time_reads_are_monotone db "k" 15 25 Hle)
           (Database.Version "k" (JStr "a") 10) eq_refl).
Defined.

End ReadsOfOneTable.

(** ** [getAllVersions] and [getStats] *)
Section VersionsAndStats.

Import Sqlite.

Lemma insert_desc_perm r l : Permutation (insert_desc r l) (r :: l).
Proof.
  induction l as [|a l IH]; simpl; [reflexivity |].
  destruct (row_timestamp a <=? row_timestamp r); [reflexivity |].
  rewrite IH. apply perm_swap.
Qed.

Lemma order_by_perm l : Permutation (order_by_timestamp_desc l) l.
Proof.
  induction l as [|r l IH]; simpl; [reflexivity |].
  rewrite insert_desc_perm. now constructor.
Qed.

Lemma descending_insert r l :
  descending (map row_timestamp l) ->
  descending (map row_timestamp (insert_desc r l)).
Proof.
  induction l as [|a l IH]; simpl; intros Hd.
  - split; [constructor | exact I].
  - destruct Hd as [Ha Hd].
    destruct (row_timestamp a <=? row_timestamp r) eqn:Hle; simpl.
    + apply Z.leb_le in Hle. split; [| split; assumption].
      constructor; [assumption |].
      eapply Forall_impl; [exact Ha |]. simpl. intros b Hb. lia.
    + apply Z.leb_gt in Hle. split; [| now apply IH].
      apply List.Forall_forall. intros b Hb.
      apply in_map_iff in Hb as [x [<- Hx]].
      apply (Permutation_in _ (insert_desc_perm r l)) in Hx.
      destruct Hx as [<- | Hx]; [lia |].
      rewrite List.Forall_forall in Ha. apply Ha. now apply in_map.
Qed.

Lemma order_by_descending l :
  descending (map row_timestamp (order_by_timestamp_desc l)).
Proof.
  induction l as [|r l IH]; simpl; [exact I | now apply descending_insert].
Qed.

Lemma order_by_head l :
  hd_error (order_by_timestamp_desc l) = order_by_timestamp_desc_limit_1 l.
Proof.
  induction l as [|r l IH]; simpl; [reflexivity |].
  rewrite <- IH.
  destruct (order_by_timestamp_desc l) as [|a s]; simpl; [reflexivity |].
  destruct (row_timestamp a <=? row_timestamp r); reflexivity.
Qed.

(** X4. [getAllVersions] resolves with the versions of the key, each row of
    the key once and no other, from the newest to the oldest, the value of
    each being what JSON.parse makes of the stored text, or the text itself
    when JSON.parse throws; its first version is the one the latest
    read selects, and a key without rows gives the empty list, not an
    error. *)
Theorem getAllVersions_lists_the_history :
  forall (db : table) (key : string),
  exists versions,
    Database.getAllVersions None db key = Resolved versions
    /\ Permutation versions
         (map to_version
            (List.filter (fun r => String.eqb (row_key r) key) (rows db)))
    /\ descending (map Database.version_timestamp versions)
    /\ Forall (fun v => Database.version_key v = key) versions
    /\ hd_error versions = option_map to_version (select_latest db key)
    /\ (versions = [] <-> forall r, In r (rows db) -> row_key r <> key).
Proof.
  intros db key. eexists. split; [reflexivity |].
  unfold select_all.
  set (l := List.filter (fun r => String.eqb (row_key r) key) (rows db)).
  assert (Hperm : Permutation (order_by_timestamp_desc l) l) by apply order_by_perm.
  split; [| split; [| split; [| split]]].
  - change (fun row => Database.Version (row_key row) (parse_or_raw (row_value row))
                         (row_timestamp row)) with to_version.
    now apply Permutation_map.
  - rewrite map_map. simpl. apply order_by_descending.
  - apply List.Forall_forall. intros v Hv.
    apply in_map_iff in Hv as [r [<- Hr]]. simpl.
    apply (Permutation_in _ Hperm) in Hr. subst l.
    apply filter_In in Hr as [_ Hk]. now apply String.eqb_eq.
  - unfold select_latest. fold l. rewrite <- order_by_head.
    destruct (order_by_timestamp_desc l); reflexivity.
  - rewrite <- select_latest_none. unfold select_latest. fold l.
    rewrite <- order_by_head.
    destruct (order_by_timestamp_desc l); simpl; split; congruence.
Qed.

Lemma distinct_in keys k : In k (distinct keys) <-> In k keys.
Proof.
  induction keys as [|a keys IH]; simpl; [tauto |].
  destruct (existsb (String.eqb a) keys) eqn:Hex.
  - rewrite IH. split; [now right |]. intros [<- | H]; [| assumption].
    apply existsb_exists in Hex as [x [Hx Heq]].
    apply String.eqb_eq in Heq. now subst x.
  - simpl. now rewrite IH.
Qed.

Lemma distinct_nodup keys : List.NoDup (distinct keys).
Proof.
  induction keys as [|a keys IH]; simpl; [constructor |].
  destruct (existsb (String.eqb a) keys) eqn:Hex; [assumption |].
  constructor; [| assumption].
  rewrite distinct_in. intros Hin.
  assert (Ht : existsb (String.eqb a) keys = true).
  { apply existsb_exists. exists a. split; [assumption | apply String.eqb_refl]. }
  congruence.
Qed.

Lemma distinct_length keys : (List.length (distinct keys) <= List.length keys)%nat.
Proof.
  induction keys as [|a keys IH]; simpl; [lia |].
  destruct (existsb (String.eqb a) keys); simpl; lia.
Qed.

Lemma min_max_bounds l :
  match min_timestamp l, max_timestamp l with
  | Some lo, Some hi =>
      l <> [] /\ lo <= hi
      /\ (forall r, In r l -> lo <= row_timestamp r <= hi)
      /\ (exists r, In r l /\ row_timestamp r = lo)
      /\ (exists r, In r l /\ row_timestamp r = hi)
  | None, None => l = []
  | _, _ => False
  end.
Proof.
  induction l as [|a l IH]; simpl; [reflexivity |].
  destruct (min_timestamp l) as [lo|], (max_timestamp l) as [hi|];
    try contradiction.
  - destruct IH as (_ & Hle & Hall & [rlo [Hlo1 Hlo2]] & [rhi [Hhi1 Hhi2]]).
    split; [discriminate |]. split; [lia |]. split; [| split].
    + intros r [<- | Hr]; [lia |]. specialize (Hall r Hr). lia.
    + destruct (Z.min_spec (row_timestamp a) lo) as [[_ ->] | [_ ->]];
        [exists a; auto | exists rlo; auto].
    + destruct (Z.max_spec (row_timestamp a) hi) as [[_ ->] | [_ ->]];
        [exists rhi; auto | exists a; auto].
  - subst l. split; [discriminate |]. split; [lia |]. split; [| split].
    + intros r [<- | []]. lia.
    + exists a. auto.
    + exists a. auto.
Qed.

Lemma unique_same_version_count l key ts :
  List.NoDup (map kt l) ->
  (List.length (List.filter (same_version key ts) l) <= 1)%nat.
Proof.
  induction l as [|a l IH]; simpl; intros Hnd; [lia |].
  apply NoDup_cons_iff in Hnd as [Hnotin Hnd]. specialize (IH Hnd).
  destruct (same_version key ts a) eqn:Ha; simpl; [| assumption].
  destruct (List.filter (same_version key ts) l) as [|b l'] eqn:Hf; simpl; [lia |].
  exfalso. apply Hnotin.
  assert (Hb : In b (List.filter (same_version key ts) l))
    by (rewrite Hf; now left).
  apply filter_In in Hb as [Hin Hb].
  apply same_version_true in Ha, Hb. rewrite Ha, <- Hb. now apply in_map.
Qed.

Lemma filter_partition_length {A} (p : A -> bool) (l : list A) :
  (List.length (List.filter p l) + List.length (List.filter (fun x => negb (p x)) l)
   = List.length l)%nat.
Proof.
  induction l as [|a l IH]; simpl; [reflexivity |].
  destruct (p a); simpl; lia.
Qed.

(** X5. [getStats]: the number of distinct keys never exceeds the number of
    records, every key of the table is counted once, the earliest and the
    latest timestamp are those of rows and bound every row, and they are
    NULL exactly on the empty table.  In a table that keeps
    UNIQUE(key, timestamp), a write adds one record when its
    (key, timestamp) is new and leaves the count as it is when it replaces
    the record of its tick. *)
Theorem getStats_counts :
  forall (db : table),
    let st := select_stats db in
    Database.getStats None db = Resolved st
    /\ (unique_keys st <= total_records st)%nat
    /\ (forall key, In key (distinct (map row_key (rows db)))
                    <-> exists r, In r (rows db) /\ row_key r = key)
    /\ List.NoDup (distinct (map row_key (rows db)))
    /\ match earliest_timestamp st, latest_timestamp st with
       | Some lo, Some hi =>
           total_records st <> O /\ lo <= hi
           /\ (forall r, In r (rows db) -> lo <= row_timestamp r <= hi)
           /\ (exists r, In r (rows db) /\ row_timestamp r = lo)
           /\ (exists r, In r (rows db) /\ row_timestamp r = hi)
       | None, None => total_records st = O
       | _, _ => False
       end
    /\ (forall key value ts,
           unique_rows db ->
           total_records
             (select_stats (fst (Database.storeValue None db key value ts)))
           = if existsb (same_version key ts) (rows db)
             then total_records st else S (total_records st)).
Proof.
  intros db st. subst st.
  split; [reflexivity |]. split; [| split; [| split; [| split]]].
  - simpl. rewrite <- (length_map row_key (rows db)). apply distinct_length.
  - intros key. rewrite distinct_in, in_map_iff.
    split; intros [r [H1 H2]]; exists r; now split.
  - apply distinct_nodup.
  - simpl. pose proof (min_max_bounds (rows db)) as H.
    destruct (min_timestamp (rows db)), (max_timestamp (rows db));
      try contradiction.
    + destruct H as (Hne & H). split; [| exact H].
      destruct (rows db); [congruence | discriminate].
    + now rewrite H.
  - intros key value ts Huniq. rewrite storeValue_table. simpl.
    rewrite length_app. simpl List.length.
    pose proof (filter_partition_length (same_version key ts) (rows db)) as Hpart.
    pose proof (unique_same_version_count (rows db) key ts Huniq) as Hone.
    destruct (existsb (same_version key ts) (rows db)) eqn:Hex.
    + apply existsb_exists in Hex as [r [Hr Hs]].
      assert (Hin : In r (List.filter (same_version key ts) (rows db)))
        by (apply filter_In; now split).
      destruct (List.filter (same_version key ts) (rows db)); [destruct Hin |].
      simpl in *. lia.
    + assert (Hnone : List.filter (same_version key ts) (rows db) = []).
      { destruct (List.filter (same_version key ts) (rows db)) as [|r l] eqn:Hf;
          [reflexivity |].
        assert (Hin : In r (List.filter (same_version key ts) (rows db)))
          by (rewrite Hf; now left).
        apply filter_In in Hin as [Hin Hs].
        assert (Ht : existsb (same_version key ts) (rows db) = true)
          by (apply existsb_exists; eauto).
        congruence. }
      rewrite Hnone in Hpart. simpl in Hpart. lia.
Qed.

Lemma getStats_counts_witness :
  let db := Table [Row 1 "k" "a" 10] 1 in
  total_records (select_stats (fst (Database.storeValue None db "k" (JStr "b") 10)))
  = 1%nat
  /\ total_records (select_stats (fst (Database.storeValue None db "k" (JStr "b") 11)))
     = 2%nat.
Proof.
  intros db.
  destruct (getStats_counts db) as (_ & _ & _ & _ & _ & Hwrite).
  assert (Hu : unique_rows db).
  { unfold unique_rows. simpl. constructor; [intros [] | constructor]. }
  split.
  - exact (Hwrite "k" (JStr "b") 10 Hu).
  - exact (Hwrite "k" (JStr "b") 11 Hu).
Defined.

End VersionsAndStats.

(** ** The in-memory store: what a write returns and what it keeps *)
Section MemoryStoreMore.

Import Api.

Lemma api_get_latest_some now (store : gmap string (list version)) key l v :
  validateKey key = Valid key ->
  store !! key = Some (l ++ [v])%list ->
  Api.get_object now store key None
  = (json_ok [("value", Api.value v)], [CallMapGet key]).
Proof.
  intros Hkey Hs. unfold Api.get_object. rewrite Hkey, Hs.
  pose proof (last_version_snoc l v) as Hlast.
  destruct (l ++ [v])%list as [|a l'] eqn:Hl.
  - destruct l; discriminate.
  - simpl truthy. cbv iota. now rewrite Hlast.
Qed.

(** X6. In api/index.js a write followed by a read returns the value
    exactly as it was written, whatever JSON value it is and whatever the
    store held: the latest read does, and so does the read at the timestamp
    the write was acknowledged with. *)
Theorem api_write_then_read_round_trip :
  forall (now now' : Z) (store : gmap string (list version)) (key : string)
         (v : json),
    validateKey key = Valid key ->
    let o := Api.post_object now store (JObj [(key, v)]) in
    Api.resp o = json_ok [("key", JStr key); ("value", v);
                          ("timestamp", JNum (unix_seconds now))]
    /\ fst (Api.get_object now' (Api.store_after o) key None)
       = json_ok [("value", v)]
    /\ (forall raw,
           validateTimestamp now' raw = Valid (unix_seconds now) ->
           fst (Api.get_object now' (Api.store_after o) key (Some raw))
           = json_ok [("value", v)]).
Proof.
  intros now now' store key v Hkey o. subst o.
  rewrite (api_post_valid now store key v Hkey). simpl Api.resp.
  simpl Api.store_after.
  pose proof (push_lookup store key (Version v (unix_seconds now))) as Hs.
  split; [reflexivity |]. split.
  - now rewrite (api_get_latest_some now' _ key _ _ Hkey Hs).
  - intros raw Hv. rewrite (api_get_as_of now' _ key raw _ Hkey Hv), Hs.
    rewrite validVersions_snoc. simpl Api.timestamp.
    rewrite Z.leb_refl, last_version_snoc.
    destruct (default [] (store !! key) ++ [Version v (unix_seconds now)])%list
      eqn:Hl; [| reflexivity].
    apply app_eq_nil in Hl as [_ Hl]. discriminate.
Qed.

Lemma api_write_then_read_round_trip_witness :
  let o := Api.post_object 5000 ∅ (JObj [("k", JObj [("a", JNum 1)])]) in
  fst (Api.get_object 9000 (Api.store_after o) "k" None)
  = json_ok [("value", JObj [("a", JNum 1)])].
Proof.
  exact (proj1 (proj2 (api_write_then_read_round_trip 5000 9000 ∅ "k"
                         (JObj [("a", JNum 1)]) eq_refl))).
Defined.

Lemma push_size (store : gmap string (list version)) key v :
  base.size (push store key v)
  = match store !! key with
    | Some _ => base.size store
    | None => S (base.size store)
    end.
Proof.
  unfold push. destruct (store !! key) as [l|] eqn:Hk.
  - rewrite Hk. apply map_size_insert_Some. now rewrite Hk.
  - rewrite lookup_insert_eq, insert_insert_eq.
    now apply map_size_insert_None.
Qed.

(** X7. What a request to POST /object does to the [Map] of api/index.js.
    A request that is refused (the body is not an object with exactly one
    property, or [validateKey] refuses the key) leaves the [Map] as it was.
    An accepted one appends one version, with the value of the request and
    the second of the request, to the versions of its key, and leaves every
    other key as it was.  So every key keeps the versions it had, in their
    order; the [storeSize] of GET /health is the number of keys, which goes
    up by one exactly when a write is accepted for a key the [Map] did not
    have and is unchanged otherwise; and a point-in-time read of a key that
    had versions, at a time before the timestamp of the write, answers as
    before. *)
Theorem api_store_only_grows :
  forall (now : Z) (store : gmap string (list version)) (b : json),
    let store' := Api.store_after (Api.post_object now store b) in
    (stored_property b = None -> store' = store)
    /\ (forall key value,
           stored_property b = Some (key, value) ->
           store' !! key
           = Some (default [] (store !! key)
                   ++ [Version value (unix_seconds now)])%list
           /\ (forall key', key' <> key -> store' !! key' = store !! key'))
    /\ (forall key versions,
           store !! key = Some versions ->
           exists suffix,
             store' !! key = Some (versions ++ suffix)%list
             /\ (List.length suffix <= 1)%nat
             /\ Forall (fun v => timestamp v = unix_seconds now) suffix)
    /\ (forall iso,
           body_field "storeSize" (Api.get_health iso store')
           = Some (JNum (Z.of_nat (base.size store'))))
    /\ base.size store'
       = match stored_property b with
         | Some (key, _) =>
             match store !! key with
             | None => S (base.size store)
             | Some _ => base.size store
             end
         | None => base.size store
         end
    /\ (forall now' key raw t a versions,
           store !! key = Some (a :: versions) ->
           validateTimestamp now' raw = Valid t ->
           t < unix_seconds now ->
           Api.get_object now' store' key (Some raw)
           = Api.get_object now' store key (Some raw)).
Proof.
  intros now store b store'.
  destruct (stored_property b) as [[k v]|] eqn:Hb.
  - apply stored_property_some in Hb as [-> Hvk].
    assert (Heq : store' = push store k (Version v (unix_seconds now))).
    { subst store'. now rewrite (api_post_valid now store k v Hvk). }
    assert (Hlook : forall key versions,
               store !! key = Some versions ->
               exists suffix,
                 store' !! key = Some (versions ++ suffix)%list
                 /\ (List.length suffix <= 1)%nat
                 /\ Forall (fun w => timestamp w = unix_seconds now) suffix
                 /\ (suffix = [] \/ suffix = [Version v (unix_seconds now)])).
    { intros key versions Hs. rewrite Heq.
      destruct (String.eqb_spec k key) as [-> | Hne].
      - exists [Version v (unix_seconds now)]. rewrite push_lookup, Hs. simpl.
        repeat split; [lia | repeat constructor | now right].
      - exists []. rewrite push_lookup_ne by assumption. rewrite app_nil_r.
        repeat split; [assumption | simpl; lia | constructor | now left]. }
    split; [discriminate |].
    split; [| split; [| split; [| split]]].
    + intros key value [= <- <-]. rewrite Heq. split; [apply push_lookup |].
      intros key' Hne. apply push_lookup_ne. congruence.
    + intros key versions Hs.
      destruct (Hlook key versions Hs) as [suffix (H1 & H2 & H3 & _)]. eauto.
    + reflexivity.
    + rewrite Heq. apply push_size.
    + intros now' key raw t a versions Hs Hv Hlt.
      destruct (Hlook key (a :: versions) Hs) as [suffix (H1 & _ & H3 & Hsuf)].
      unfold Api.get_object. destruct (validateKey key); [| reflexivity].
      rewrite H1, Hs. simpl app.
      rewrite (valid_timestamp_truthy now' raw t Hv), Hv.
      assert (Hvv : validVersions (a :: (versions ++ suffix)%list) t
                    = validVersions (a :: versions) t).
      { change (a :: (versions ++ suffix)%list) with ((a :: versions) ++ suffix)%list.
        destruct Hsuf as [-> | ->]; [now rewrite app_nil_r |].
        rewrite validVersions_snoc. simpl timestamp.
        assert (Hgt : (unix_seconds now <=? t) = false) by (apply Z.leb_gt; lia).
        now rewrite Hgt, app_nil_r. }
      now rewrite Hvv.
  - assert (Heq : store' = store).
    { subst store'.
      now destruct (api_post_refused now store b Hb) as (r & -> & _). }
    rewrite Heq.
    split; [reflexivity |].
    split; [discriminate |].
    split; [| split; [| split]]; try reflexivity.
    intros key versions Hs. exists []. rewrite app_nil_r.
    split; [assumption |]. split; [simpl; lia | constructor].
Qed.

Lemma api_store_only_grows_witness :
  let store : gmap string (list version) := <["k" := [Version (JStr "a") 1]]> ∅ in
  let store' := Api.store_after (Api.post_object 5000 store (JObj [("k", JStr "b")])) in
  store' !! "k" = Some [Version (JStr "a") 1; Version (JStr "b") 5]
  /\ Api.get_object 9000 store' "k" (Some (QString "3"))
     = Api.get_object 9000 store "k" (Some (QString "3")).
Proof.
  intros store store'.
  destruct (api_store_only_grows 5000 store (JObj [("k", JStr "b")]))
    as (_ & Hwrite & _ & _ & _ & Hread).
  split.
  - exact (proj1 (Hwrite "k" (JStr "b") eq_refl)).
  - apply (Hread 9000 "k" (QString "3") 3 (Version (JStr "a") 1) []);
      [reflexivity | reflexivity | reflexivity].
Defined.

End MemoryStoreMore.

(** ** The MongoDB backend and its server *)
Section MongoStore.

Import MongoDatabase.

Lemma sort_first_none (l : list document) :
  sort_timestamp_desc_first l = None <-> l = [].
Proof.
  destruct l as [|d l]; simpl; [tauto |].
  destruct (sort_timestamp_desc_first l); split; discriminate.
Qed.

Lemma sort_first_spec (l : list document) m :
  sort_timestamp_desc_first l = Some m ->
  In m l /\ forall d, In d l -> doc_timestamp d <= doc_timestamp m.
Proof.
  revert m. induction l as [|a l IH]; simpl; intros m H; [discriminate |].
  destruct (sort_timestamp_desc_first l) as [m'|] eqn:Hl.
  - destruct (IH m' eq_refl) as [Hin Hmax].
    destruct (doc_timestamp m' <=? doc_timestamp a) eqn:Hle;
      injection H as <-.
    + apply Z.leb_le in Hle. split; [now left |].
      intros d [<- | Hd]; [lia | specialize (Hmax d Hd); lia].
    + apply Z.leb_gt in Hle. split; [now right |].
      intros d [<- | Hd]; [lia | now apply Hmax].
  - injection H as <-. apply sort_first_none in Hl. subst l.
    split; [now left |]. intros d [<- | []]. lia.
Qed.

(** What [getValue] finds among the documents a query selects. *)
Lemma find_one_spec (query : document -> bool) (l : list document) :
  match sort_timestamp_desc_first (List.filter query l) with
  | Some m =>
      In m l /\ query m = true
      /\ forall d, In d l -> query d = true -> doc_timestamp d <= doc_timestamp m
  | None => forall d, In d l -> query d = false
  end.
Proof.
  destruct (sort_timestamp_desc_first (List.filter query l)) as [m|] eqn:H.
  - apply sort_first_spec in H as [Hin Hmax].
    apply filter_In in Hin as [Hin Hq]. repeat split; try assumption.
    intros d Hd Hqd. apply Hmax. apply filter_In. now split.
  - apply sort_first_none in H. intros d Hd.
    destruct (query d) eqn:Hq; [| reflexivity].
    assert (Hf : In d (List.filter query l)) by (apply filter_In; now split).
    rewrite H in Hf. destruct Hf.
Qed.

Lemma mongo_get_latest now db key :
  isConnected db = true ->
  fst (MongoServer.get_object now None db key None)
  = match sort_timestamp_desc_first
            (List.filter (fun d => String.eqb (doc_key d) key) (collection db)) with
    | Some m => json_ok [("value", doc_value m)]
    | None => json_error 404 "Key not found"
    end.
Proof.
  intros Hc. unfold MongoServer.get_object, getValue. simpl. rewrite Hc. simpl.
  destruct (sort_timestamp_desc_first _); reflexivity.
Qed.

Lemma mongo_get_as_of now db key raw t :
  isConnected db = true ->
  validateTimestamp now raw = Valid t ->
  fst (MongoServer.get_object now None db key (Some raw))
  = match sort_timestamp_desc_first
            (List.filter (fun d => String.eqb (doc_key d) key
                                   && (doc_timestamp d <=? t))
                         (collection db)) with
    | Some m => json_ok [("value", doc_value m)]
    | None => json_error 404 "Key not found"
    end.
Proof.
  intros Hc Hv.
  pose proof (valid_timestamp_truthy now raw t Hv) as Htr.
  apply validateTimestamp_valid_iff in Hv as Hraw.
  destruct Hraw as [s (-> & Hpat & Ht & _)].
  unfold MongoServer.get_object. rewrite Htr, Hv. simpl query_string.
  unfold getValue. rewrite Hc. simpl negb. cbv iota.
  rewrite eqb_empty_false by now apply digits_pattern_nonempty.
  rewrite parseInt_digits by assumption. rewrite <- Ht.
  destruct (sort_timestamp_desc_first _); reflexivity.
Qed.

(** X8. Reads of server-mongodb.js over a connected database.  Without a
    timestamp the answer is the value of a document of the key whose
    timestamp no document of the key exceeds, and 404 "Key not found" exactly
    when the key has no document.  With a timestamp [t] that
    [validateTimestamp] accepts the answer is the value of a document of the
    key with the largest timestamp not above [t], and 404, with the same
    message "Key not found", when the key has no document or only later
    ones. *)
Theorem mongo_read_returns_newest_document :
  forall (now : Z) (db : mongo) (key : string),
    isConnected db = true ->
    (let answer := fst (MongoServer.get_object now None db key None) in
     (exists d, In d (collection db) /\ doc_key d = key
                /\ (forall d', In d' (collection db) -> doc_key d' = key ->
                               doc_timestamp d' <= doc_timestamp d)
                /\ answer = json_ok [("value", doc_value d)])
     \/ ((forall d, In d (collection db) -> doc_key d <> key)
         /\ answer = json_error 404 "Key not found"))
    /\ (forall raw t,
           validateTimestamp now raw = Valid t ->
           let answer := fst (MongoServer.get_object now None db key (Some raw)) in
           (exists d, In d (collection db) /\ doc_key d = key
                      /\ doc_timestamp d <= t
                      /\ (forall d', In d' (collection db) -> doc_key d' = key ->
                                     doc_timestamp d' <= t ->
                                     doc_timestamp d' <= doc_timestamp d)
                      /\ answer = json_ok [("value", doc_value d)])
           \/ ((forall d, In d (collection db) -> doc_key d = key ->
                          t < doc_timestamp d)
               /\ answer = json_error 404 "Key not found")).
Proof.
  intros now db key Hc. split.
  - intros answer. subst answer. rewrite (mongo_get_latest now db key Hc).
    pose proof (find_one_spec (fun d => String.eqb (doc_key d) key) (collection db))
      as Hspec.
    destruct (sort_timestamp_desc_first _) as [m|].
    + left. destruct Hspec as (Hin & Hk & Hmax). apply String.eqb_eq in Hk.
      exists m. repeat split; try assumption.
      intros d' Hd Hk'. apply Hmax; [assumption | now apply String.eqb_eq].
    + right. split; [| reflexivity]. intros d Hd Hk.
      specialize (Hspec d Hd). apply String.eqb_neq in Hspec. contradiction.
  - intros raw t Hv answer. subst answer.
    rewrite (mongo_get_as_of now db key raw t Hc Hv).
    pose proof (find_one_spec
                  (fun d => String.eqb (doc_key d) key && (doc_timestamp d <=? t))
                  (collection db)) as Hspec.
    destruct (sort_timestamp_desc_first _) as [m|].
    + left. destruct Hspec as (Hin & Hq & Hmax).
      apply andb_true_iff in Hq as [Hk Hle].
      apply String.eqb_eq in Hk. apply Z.leb_le in Hle.
      exists m. repeat split; try assumption.
      intros d' Hd Hk' Hle'. apply Hmax; [assumption |].
      apply andb_true_iff. split; [now apply String.eqb_eq | now apply Z.leb_le].
    + right. split; [| reflexivity]. intros d Hd Hk.
      specialize (Hspec d Hd). apply andb_false_iff in Hspec as [Hne | Hgt].
      * apply String.eqb_neq in Hne. contradiction.
      * now apply Z.leb_gt in Hgt.
Qed.

Lemma mongo_read_returns_newest_document_witness :
  fst (MongoServer.get_object 9000 None
         (Mongo [Document "k" (JNum 1) 2; Document "k" (JNum 2) 5] true)
         "k" (Some (QString "4")))
  = json_ok [("value", JNum 1)].
Proof.
  destruct (mongo_read_returns_newest_document 9000
              (Mongo [Document "k" (JNum 1) 2; Document "k" (JNum 2) 5] true)
              "k" eq_refl) as [_ H].
  destruct (H (QString "4") 4 eq_refl) as [[d (Hin & _ & Hle & _ & ->)] | [Hnone _]].
  - destruct Hin as [<- | [<- | []]]; [reflexivity |].
    simpl in Hle. lia.
  - specialize (Hnone (Document "k" (JNum 1) 2) (or_introl eq_refl) eq_refl).
    simpl in Hnone. lia.
Defined.

Lemma mongo_post_valid now db key v :
  isConnected db = true ->
  validateKey key = Valid key ->
  MongoServer.post_object now None db (JObj [(key, v)])
  = MongoServer.Outcome
      (Mongo (collection db ++ [Document key v (unix_seconds now)]) true)
      (json_ok [("key", JStr key); ("value", v);
                ("timestamp", JNum (unix_seconds now))])
      [CallStoreValue key v].
Proof.
  intros Hc Hk. unfold MongoServer.post_object. simpl. rewrite Hk.
  unfold storeValue. rewrite Hc. reflexivity.
Qed.

(** X9. A write through server-mongodb.js followed by a read, when every
    document the key already has is older than the write: the write is
    answered with the key, the value and the timestamp, the collection gains
    that one document and keeps the others, and both the latest read and
    the read at the acknowledged timestamp return the value exactly as it
    was written, whatever JSON value it is. *)
Theorem mongo_write_then_read_round_trip :
  forall (now now' : Z) (db : mongo) (key : string) (v : json),
    isConnected db = true ->
    validateKey key = Valid key ->
    (forall d, In d (collection db) -> doc_key d = key ->
               doc_timestamp d < unix_seconds now) ->
    let o := MongoServer.post_object now None db (JObj [(key, v)]) in
    MongoServer.resp o = json_ok [("key", JStr key); ("value", v);
                                  ("timestamp", JNum (unix_seconds now))]
    /\ collection (MongoServer.db_after o)
       = (collection db ++ [Document key v (unix_seconds now)])%list
    /\ fst (MongoServer.get_object now' None (MongoServer.db_after o) key None)
       = json_ok [("value", v)]
    /\ (forall raw,
           validateTimestamp now' raw = Valid (unix_seconds now) ->
           fst (MongoServer.get_object now' None (MongoServer.db_after o) key
                  (Some raw))
           = json_ok [("value", v)]).
Proof.
  intros now now' db key v Hc Hk Hold o. subst o.
  rewrite (mongo_post_valid now db key v Hc Hk). simpl MongoServer.resp.
  simpl MongoServer.db_after.
  set (new := Document key v (unix_seconds now)).
  set (db' := Mongo (collection db ++ [new]) true).
  assert (Hc' : isConnected db' = true) by reflexivity.
  assert (Hnew : In new (collection db')).
  { simpl. apply in_app_iff. right. now left. }
  assert (Hin' : forall d, In d (collection db') -> doc_key d = key ->
                           doc_timestamp d <= unix_seconds now ->
                           doc_timestamp d >= unix_seconds now -> d = new).
  { intros d Hd Hkd _ Hge. simpl in Hd. apply in_app_iff in Hd as [Hd | [<- | []]].
    - specialize (Hold d Hd Hkd). lia.
    - reflexivity. }
  split; [reflexivity |]. split; [reflexivity |].
  split.
  - rewrite (mongo_get_latest now' db' key Hc').
    pose proof (find_one_spec (fun d => String.eqb (doc_key d) key) (collection db'))
      as Hspec.
    destruct (sort_timestamp_desc_first _) as [m|].
    + destruct Hspec as (Hd & Hkd & Hmax). apply String.eqb_eq in Hkd.
      specialize (Hmax new Hnew (String.eqb_refl key)). simpl in Hmax.
      assert (Hdn : m = new).
      { simpl in Hd. apply in_app_iff in Hd as [Hd | [<- | []]]; [| reflexivity].
        specialize (Hold m Hd Hkd). lia. }
      now rewrite Hdn.
    + exfalso. specialize (Hspec new Hnew). simpl in Hspec.
      rewrite String.eqb_refl in Hspec. discriminate.
  - intros raw Hv.
    rewrite (mongo_get_as_of now' db' key raw _ Hc' Hv).
    pose proof (find_one_spec
                  (fun d => String.eqb (doc_key d) key
                            && (doc_timestamp d <=? unix_seconds now))
                  (collection db')) as Hspec.
    assert (Hq : String.eqb (doc_key new) key
                 && (doc_timestamp new <=? unix_seconds now) = true).
    { simpl. rewrite String.eqb_refl. apply Z.leb_refl. }
    destruct (sort_timestamp_desc_first _) as [m|].
    + destruct Hspec as (Hd & Hqm & Hmax).
      apply andb_true_iff in Hqm as [Hkd Hle].
      apply String.eqb_eq in Hkd. apply Z.leb_le in Hle.
      specialize (Hmax new Hnew Hq). simpl in Hmax.
      assert (Hdn : m = new) by (apply Hin'; [assumption | assumption | lia | lia]).
      now rewrite Hdn.
    + exfalso. specialize (Hspec new Hnew). congruence.
Qed.

Lemma mongo_write_then_read_round_trip_witness :
  let db := Mongo [Document "k" (JStr "old") 2] true in
  let o := MongoServer.post_object 5000 None db (JObj [("k", JArr [JNum 1])]) in
  fst (MongoServer.get_object 9000 None (MongoServer.db_after o) "k" None)
  = json_ok [("value", JArr [JNum 1])].
Proof.
  intros db o.
  refine (proj1 (proj2 (proj2
            (mongo_write_then_read_round_trip 5000 9000 db "k" (JArr [JNum 1])
               eq_refl eq_refl _)))).
  intros d [<- | []] _. reflexivity.
Defined.

Lemma distinct_incl keys k : In k (distinct keys) <-> In k keys.
Proof.
  induction keys as [|a keys IH]; simpl; [tauto |].
  destruct (existsb (String.eqb a) keys) eqn:He.
  - rewrite IH. split; [now right |]. intros [<- | H]; [| assumption].
    apply existsb_exists in He as [x [Hx Hax]]. apply String.eqb_eq in Hax.
    now subst x.
  - simpl. now rewrite IH.
Qed.

Lemma distinct_le keys : (List.length (distinct keys) <= List.length keys)%nat.
Proof.
  induction keys as [|a keys IH]; simpl; [lia |].
  destruct (existsb (String.eqb a) keys); simpl; lia.
Qed.

Lemma distinct_NoDup keys : List.NoDup (distinct keys).
Proof.
  induction keys as [|a keys IH]; simpl; [constructor |].
  destruct (existsb (String.eqb a) keys) eqn:He; [assumption |].
  constructor; [| assumption]. rewrite distinct_incl. intros Hin.
  assert (Ht : existsb (String.eqb a) keys = true).
  { apply existsb_exists. exists a. split; [assumption | apply String.eqb_refl]. }
  congruence.
Qed.

(** X10. GET /health of server-mongodb.js answers 200 exactly when the
    database is connected and answers the ping; otherwise it answers 503.
    A healthy answer stays healthy when the statistics queries fail: the
    statistics then read zero and carry the error.  When they succeed,
    [total_records] is the number of documents and [unique_keys] the number
    of different keys among them, which is at most [total_records] and is
    zero only for an empty collection.  A database that is not connected
    reports zero for both, and [close] without an error leaves it so. *)
Theorem mongo_health_and_stats :
  forall (ping stats_fault : option string) (name : string) (dbStats : db_stats)
         (db : mongo) (iso : string) (uptime : json),
    let h := healthCheck ping stats_fault name dbStats db in
    let answer := MongoServer.get_health iso uptime h in
    (status answer = 200 <-> isConnected db = true /\ ping = None)
    /\ (status answer = 200 \/ status answer = 503)
    /\ (status answer = 200 ->
        exists st,
          h = HealthConnected name st
          /\ body_field "stats" answer = Some (MongoServer.stats_json st)
          /\ match stats_fault with
             | Some message =>
                 total_records st = 0%nat /\ unique_keys st = 0%nat
                 /\ stats_error st = Some message
             | None =>
                 total_records st = List.length (collection db)
                 /\ (unique_keys st <= total_records st)%nat
                 /\ (unique_keys st = 0%nat <-> collection db = [])
                 /\ (exists keys,
                        List.NoDup keys /\ unique_keys st = List.length keys
                        /\ forall k, In k keys <->
                                     exists d, In d (collection db) /\ doc_key d = k)
                 /\ stats_error st = None
             end)
    /\ (let st := getStats stats_fault dbStats (close None db) in
        total_records st = 0%nat /\ unique_keys st = 0%nat
        /\ stats_error st = None)
    /\ status (MongoServer.get_health iso uptime
                 (healthCheck ping stats_fault name dbStats (close None db))) = 503.
Proof.
  intros ping sf name dbStats db iso uptime h answer. subst answer h.
  unfold healthCheck, getStats, close.
  destruct (isConnected db) eqn:Hc; simpl negb; cbv iota.
  - destruct ping as [m|]; simpl.
    + split; [split; [discriminate | intros [_ H]; discriminate] |].
      split; [now right |]. split; [discriminate |]. repeat split.
    + split; [split; [now split | reflexivity] |].
      split; [now left |]. split; [| repeat split].
      intros _. destruct sf as [m|].
      * eexists. split; [reflexivity |]. split; [reflexivity |]. now repeat split.
      * eexists. split; [reflexivity |]. split; [reflexivity |]. simpl.
        split; [reflexivity |]. split.
        { rewrite <- (length_map doc_key (collection db)). apply distinct_le. }
        split.
        { split.
          - intros H0. destruct (collection db) as [|d l] eqn:Hl; [reflexivity |].
            exfalso.
            assert (Hin : In (doc_key d) (distinct (map doc_key (d :: l)))).
            { apply distinct_incl. now left. }
            destruct (distinct (map doc_key (d :: l))); [destruct Hin | discriminate].
          - intros ->. reflexivity. }
        split; [| reflexivity].
        exists (distinct (map doc_key (collection db))).
        split; [apply distinct_NoDup |]. split; [reflexivity |].
        intros k. rewrite distinct_incl, in_map_iff.
        split; intros [d [H1 H2]]; exists d; now split.
  - simpl. split; [split; [discriminate | intros [H _]; discriminate] |].
    split; [now right |]. split; [discriminate |]. repeat split.
Qed.

End MongoStore.

(** ** Reading back what was written, over the SQLite backends *)
Section ReadBack.

Import Sqlite.

Lemma serverless_post_valid now db key v :
  validateKey key = Valid key ->
  ServerlessServer.post_object now None db (JObj [(key, v)])
  = (insert_or_replace db key (Database.valueStr v) (unix_seconds now),
     json_ok [("key", JStr key); ("value", v);
              ("timestamp", JNum (unix_seconds now))],
     [CallStoreValue key v]).
Proof. intros H. unfold ServerlessServer.post_object. simpl. now rewrite H. Qed.

Lemma serverless_get_as_of_row now db key raw t r :
  validateKey key = Valid key ->
  validateTimestamp now raw = Valid t ->
  select_as_of db key t = Some r ->
  fst (ServerlessServer.get_object now None db key (Some raw))
  = json_ok_value (parse_or_raw (row_value r)) [].
Proof.
  intros Hkey Hts Hsel. unfold ServerlessServer.get_object. rewrite Hkey.
  rewrite (valid_timestamp_truthy now raw t Hts), Hts.
  unfold ServerlessDatabase.getValueAtTimestamp, get. now rewrite Hsel.
Qed.

Lemma serverless_get_latest_row now db key r :
  validateKey key = Valid key ->
  select_latest db key = Some r ->
  fst (ServerlessServer.get_object now None db key None)
  = json_ok_value (parse_or_raw (row_value r)) [].
Proof.
  intros Hkey Hsel. unfold ServerlessServer.get_object. rewrite Hkey. simpl.
  unfold ServerlessDatabase.getLatestValue, get. now rewrite Hsel.
Qed.

(** X11. A value that is not a string (numbers being safe integers, the
    keys of an object distinct and none an array index), written through
    server.js or through the serverless server, is read back as written by the read at the
    timestamp the write was acknowledged with, whatever the table held
    before, a row of the same key and second included: that row is
    replaced.  Over the serverless server the latest read returns it too,
    as long as no row of the key is newer than the write. *)
Theorem point_in_time_read_returns_the_written_value :
  forall (now now' : Z) (db : table) (key : string) (v : json)
         (raw : query_value),
    validateKey key = Valid key ->
    wf_json v = true ->
    is_string v = false ->
    validateTimestamp now' raw = Valid (unix_seconds now) ->
    (let o := Server.post_object now None db (JObj [(key, v)]) in
     fst (Server.get_object now' None (Server.db_after o) key (Some raw))
     = json_ok [("value", v)])
    /\ (let '(db', answer, _) :=
            ServerlessServer.post_object now None db (JObj [(key, v)]) in
        answer = json_ok [("key", JStr key); ("value", v);
                          ("timestamp", JNum (unix_seconds now))]
        /\ fst (ServerlessServer.get_object now' None db' key (Some raw))
           = json_ok [("value", v)]
        /\ ((forall r, In r (rows db) -> row_key r = key ->
                       row_timestamp r <= unix_seconds now) ->
            fst (ServerlessServer.get_object now' None db' key None)
            = json_ok [("value", v)])).
Proof.
  intros now now' db key v raw Hkey Hwf Hstr Hts.
  pose proof (insert_or_replace_read db key (Database.valueStr v) (unix_seconds now))
    as Hsel.
  split.
  - intros o. subst o. rewrite (server_post_valid now db key v Hkey).
    simpl Server.db_after.
    rewrite (server_get_as_of_row now' _ key raw _ _ Hkey Hts Hsel). simpl fst.
    simpl row_value. now rewrite parse_stored_payload.
  - rewrite (serverless_post_valid now db key v Hkey).
    split; [reflexivity |]. split.
    + rewrite (serverless_get_as_of_row now' _ key raw _ _ Hkey Hts Hsel).
      simpl row_value. now rewrite parse_stored_payload.
    + intros Hold.
      pose proof (insert_or_replace_latest db key (Database.valueStr v)
                    (unix_seconds now) Hold) as Hlatest.
      rewrite (serverless_get_latest_row now' _ key _ Hkey Hlatest).
      simpl row_value. now rewrite parse_stored_payload.
Qed.

Lemma point_in_time_read_returns_the_written_value_witness :
  let db := Table [Row 1 "k" "old" 5] 1 in
  let o := Server.post_object 5000 None db (JObj [("k", JArr [JNum 1; JNull])]) in
  fst (Server.get_object 9000 None (Server.db_after o) "k" (Some (QString "5")))
  = json_ok [("value", JArr [JNum 1; JNull])].
Proof.
  intros db o.
  exact (proj1 (point_in_time_read_returns_the_written_value 5000 9000 db "k"
                  (JArr [JNum 1; JNull]) (QString "5")
                  eq_refl eq_refl eq_refl eq_refl)).
Defined.

End ReadBack.

(** ** The production server *)
Section Production.

Import Sqlite.

(** The identifiers and the date of the write, then those of the read. *)
Variables requestId errorId iso : string.
Variables requestId' errorId' iso' : string.

Lemma includes_nonempty ct :
  includes ct "application/json" = true -> String.eqb ct "" = false.
Proof. destruct ct; [discriminate | reflexivity]. Qed.

Lemma production_post_valid ct now db key v :
  includes ct "application/json" = true ->
  validateKey key = Valid key ->
  Z.of_nat (String.length (JSON_stringify v)) <= ProductionServer.value_limit ->
  ProductionServer.post_object requestId errorId iso (Some ct) now None db
    (JObj [(key, v)])
  = ProductionServer.Outcome
      (insert_or_replace db key (Database.valueStr v) (unix_seconds now))
      (Response 201
         (JObj [("key", JStr key); ("value", v);
                ("timestamp", JNum (unix_seconds now));
                ("requestId", JStr requestId);
                ("size", JNum (Z.of_nat (String.length (JSON_stringify v))))]))
      [CallStoreValue key v].
Proof.
  intros Hct Hkey Hsize. unfold ProductionServer.post_object.
  rewrite Hct, (includes_nonempty ct Hct). simpl negb. cbv iota.
  cbn [validateValue List.length Nat.ltb Nat.leb Object_entries]. rewrite Hkey.
  assert (Hlim : (ProductionServer.value_limit
                  <? Z.of_nat (String.length (JSON_stringify v))) = false)
    by (apply Z.ltb_ge; lia).
  rewrite Hlim. reflexivity.
Qed.

Lemma parse_again_number z :
  wf_json (JNum z) = true -> parse_again (JNum z) = JNum z.
Proof.
  intros Hwf. unfold parse_again.
  change (js_to_string (JNum z)) with (JSON_stringify (JNum z)).
  now rewrite JSON_parse_stringify.
Qed.

Lemma parse_again_object fields : parse_again (JObj fields) = JObj fields.
Proof. reflexivity. Qed.

Lemma parse_again_singleton z :
  wf_json (JNum z) = true -> parse_again (JArr [JNum z]) = JNum z.
Proof.
  intros Hwf. unfold parse_again.
  change (js_to_string (JArr [JNum z])) with (JSON_stringify (JNum z)).
  now rewrite JSON_parse_stringify.
Qed.

Lemma parse_again_empty : parse_again (JArr []) = JArr [].
Proof. reflexivity. Qed.

Lemma json_ok_value_status value rest : status (json_ok_value value rest) = 200.
Proof. destruct value; reflexivity. Qed.

Lemma json_ok_value_value value rest :
  body_value (json_ok_value value rest) = Some value.
Proof. destruct value; reflexivity. Qed.

Lemma json_ok_value_field value name x rest :
  String.eqb name "value" = false ->
  body_field name (json_ok_value value ((name, x) :: rest)) = Some x.
Proof.
  intros Hname.
  assert (Hsym : String.eqb "value" name = false)
    by now rewrite String.eqb_sym.
  destruct value; unfold body_field, json_ok_value, json_ok;
    cbn [body lookup_field]; rewrite ?Hsym, ?Hname, String.eqb_refl;
    reflexivity.
Qed.

(** X12. A value that is not a string (numbers being safe integers, the
    keys of an object distinct and none an array index), written through the
    production server with a JSON content type and a text of at most 1 MB,
    is answered 201 with the size of its text.  The latest read then
    answers with the value as written and the timestamp of the write, as
    long as no row of the key is newer.  The read at the acknowledged
    timestamp hands the value [getValueAtTimestamp] has parsed to JSON.parse
    once more, which reads the text [String(value)]: an object, a number, a
    boolean, null and the empty array are returned as written, an array
    that holds one number is returned as that number. *)
Theorem production_write_then_read :
  forall (ct : string) (now now' : Z) (db : table) (key : string) (v : json)
         (raw : query_value),
    includes ct "application/json" = true ->
    validateKey key = Valid key ->
    wf_json v = true ->
    is_string v = false ->
    Z.of_nat (String.length (JSON_stringify v)) <= ProductionServer.value_limit ->
    validateTimestamp now' raw = Valid (unix_seconds now) ->
    let o := ProductionServer.post_object requestId errorId iso (Some ct) now None
               db (JObj [(key, v)]) in
    let latest := fst (ProductionServer.get_object requestId' errorId' iso' now' None
                         (ProductionServer.db_after o) key None) in
    let as_of := fst (ProductionServer.get_object requestId' errorId' iso' now' None
                        (ProductionServer.db_after o) key (Some raw)) in
    let rest := [("timestamp", JNum (unix_seconds now));
                 ("requestId", JStr requestId'); ("retrievedAt", JStr iso')] in
    status (ProductionServer.resp o) = 201
    /\ body_field "size" (ProductionServer.resp o)
       = Some (JNum (Z.of_nat (String.length (JSON_stringify v))))
    /\ ((forall r, In r (rows db) -> row_key r = key ->
                   row_timestamp r <= unix_seconds now) ->
        latest = json_ok (("value", v) :: rest))
    /\ as_of = json_ok_value (parse_again v) rest
    /\ status as_of = 200
    /\ body_value as_of = Some (parse_again v)
    /\ body_field "timestamp" as_of = Some (JNum (unix_seconds now))
    /\ match v with
       | JNull | JBool _ | JNum _ | JObj _ | JArr [] => parse_again v = v
       | JArr [JNum z] => parse_again v = JNum z /\ parse_again v <> v
       | _ => True
       end.
Proof.
  intros ct now now' db key v raw Hct Hkey Hwf Hstr Hsize Hts o latest as_of rest.
  assert (Has_of : as_of = json_ok_value (parse_again v) rest).
  { subst as_of o rest.
    rewrite (production_post_valid ct now db key v Hct Hkey Hsize).
    simpl ProductionServer.db_after.
    unfold ProductionServer.get_object. rewrite Hkey.
    rewrite (valid_timestamp_truthy now' raw _ Hts), Hts.
    unfold Database.getValueAtTimestamp, get.
    rewrite insert_or_replace_read. simpl row_value.
    rewrite (parse_stored_payload v Hwf Hstr). reflexivity. }
  subst latest o.
  rewrite (production_post_valid ct now db key v Hct Hkey Hsize).
  simpl ProductionServer.resp. simpl ProductionServer.db_after.
  split; [reflexivity |]. split; [reflexivity |].
  split; [| split; [| split; [| split; [| split]]]].
  - intros Hold.
    pose proof (insert_or_replace_latest db key (Database.valueStr v)
                  (unix_seconds now) Hold) as Hlatest.
    unfold ProductionServer.get_object. rewrite Hkey. simpl truthy. cbv iota.
    unfold Database.getLatestValue, get. rewrite Hlatest.
    simpl row_value. rewrite (parse_stored_payload v Hwf Hstr). reflexivity.
  - exact Has_of.
  - rewrite Has_of. apply json_ok_value_status.
  - rewrite Has_of. apply json_ok_value_value.
  - rewrite Has_of. subst rest. now apply json_ok_value_field.
  - destruct v as [|b|z|s|items|fields]; try exact I.
    + reflexivity.
    + destruct b; reflexivity.
    + now apply parse_again_number.
    + destruct items as [|x l]; [apply parse_again_empty |].
      destruct x as [| |z| | |], l as [|y l]; try exact I.
      assert (Hz : wf_json (JNum z) = true).
      { simpl in Hwf. now rewrite andb_true_r in Hwf. }
      rewrite (parse_again_singleton z Hz). split; [reflexivity | discriminate].
    + apply parse_again_object.
Qed.

End Production.

Lemma production_write_then_read_witness :
  let db := Sqlite.Table [Sqlite.Row 1 "k" "old" 3; Sqlite.Row 2 "j" "x" 4] 2 in
  let o := ProductionServer.post_object "req_1" "err_1" "2026-01-01T00:00:05.000Z"
             (Some "application/json") 5000 None db
             (JObj [("k", JArr [JNum 7])]) in
  fst (ProductionServer.get_object "req_2" "err_2" "2026-01-01T00:00:09.000Z"
         9000 None (ProductionServer.db_after o) "k" None)
  = json_ok [("value", JArr [JNum 7]); ("timestamp", JNum 5);
             ("requestId", JStr "req_2");
             ("retrievedAt", JStr "2026-01-01T00:00:09.000Z")]
  /\ fst (ProductionServer.get_object "req_2" "err_2" "2026-01-01T00:00:09.000Z"
            9000 None (ProductionServer.db_after o) "k" (Some (QString "5")))
     = json_ok [("value", JNum 7); ("timestamp", JNum 5);
                ("requestId", JStr "req_2");
                ("retrievedAt", JStr "2026-01-01T00:00:09.000Z")].
Proof.
  intros db o.
  assert (Hsize : Z.of_nat (String.length (JSON_stringify (JArr [JNum 7])))
                  <= ProductionServer.value_limit) by (vm_compute; discriminate).
  pose proof (production_write_then_read
                "req_1" "err_1" "2026-01-01T00:00:05.000Z"
                "req_2" "err_2" "2026-01-01T00:00:09.000Z"
                "application/json" 5000 9000 db
                "k" (JArr [JNum 7]) (QString "5")
                eq_refl eq_refl eq_refl eq_refl Hsize eq_refl) as H.
  destruct H as (_ & _ & Hlatest & Has_of & _ & _ & _ & Hp & _).
  split.
  - apply Hlatest.
    intros r [<- | [<- | []]] Hk; [vm_compute; discriminate | discriminate Hk].
  - rewrite Hp in Has_of. exact Has_of.
Defined.

(** ** What a write request does to the store *)
Section WriteOutcomes.

Import Sqlite.

Lemma storeValue_ok db key value ts :
  exists s,
    Database.storeValue None db key value ts
    = (insert_or_replace db key (Database.valueStr value) ts, Resolved s).
Proof. unfold Database.storeValue, Database.storeValue_on. simpl. eauto. Qed.

Lemma storeValue_rejects err db key value ts :
  Database.storeValue (Some err) db key value ts = (db, Rejected (rejection err)).
Proof.
  unfold Database.storeValue, Database.storeValue_on, run_insert_or_replace,
    rejection. simpl.
  destruct (err_code err); reflexivity.
Qed.

Lemma server_post_on_valid run now db key value :
  validateKey key = Valid key ->
  Server.post_object_on run now db (JObj [(key, value)])
  = Server.Outcome
      (fst (run db key (Database.valueStr value) (unix_seconds now)))
      (match snd (run db key (Database.valueStr value) (unix_seconds now)) with
       | None => json_ok [("key", JStr key); ("value", value);
                          ("timestamp", JNum (unix_seconds now))]
       | Some _ => json_error 500 "Internal server error"
       end)
      [CallStoreValue key value].
Proof.
  intros Hv. unfold Server.post_object_on.
  cbn [validateValue List.length Nat.ltb Nat.leb Object_entries].
  rewrite Hv. unfold Database.storeValue_on.
  destruct (run db key (Database.valueStr value) (unix_seconds now))
    as [db' [err|]]; simpl; [destruct (err_code err) |]; reflexivity.
Qed.

(** X13. What POST /object does, by the request alone.  A body that is not
    an object with exactly one property, or whose key [validateKey] refuses,
    is answered 400 before any backend call, the store being the one before
    the request, and no other request is answered 400.  Otherwise the
    backend is called once, with the key and the value of the property.  In
    server.js the table is then the one [db.run] leaves, the answer is 200
    exactly when [db.run] reports no error, in which case the modelled
    statement has inserted or replaced the row of (key, timestamp), and 500
    exactly when it reports one; the table is the one before the request
    after a 500 for an engine that runs a statement as a whole or not at
    all.  The serverless server answers likewise by the failure of the
    statement.  server-mongodb.js answers 200 exactly when the database is
    connected and insertOne does not fail, the collection then being the
    old one followed by the new document; it answers 500 otherwise, and
    when the database is not connected the collection is untouched.
    api/index.js then answers 200, the version being pushed under the key,
    and it never answers 500. *)
Theorem write_request_outcomes :
  (forall b key value,
      stored_property b = Some (key, value) <->
      b = JObj [(key, value)] /\ validateKey key = Valid key)
  /\ (forall (run : engine) now db b,
         let o := Server.post_object_on run now db b in
         (status (Server.resp o) = 400 <-> stored_property b = None)
         /\ (stored_property b = None ->
             Server.db_after o = db /\ Server.calls o = [])
         /\ (forall key value,
                stored_property b = Some (key, value) ->
                let ran := run db key (Database.valueStr value) (unix_seconds now) in
                Server.db_after o = fst ran
                /\ Server.calls o = [CallStoreValue key value]
                /\ (status (Server.resp o) = 200 <-> snd ran = None)
                /\ (status (Server.resp o) = 500 <-> snd ran <> None)
                /\ (statement_atomic run -> status (Server.resp o) = 500 ->
                    Server.db_after o = db)))
  /\ (forall now db key value,
         validateKey key = Valid key ->
         let o := Server.post_object now None db (JObj [(key, value)]) in
         status (Server.resp o) = 200
         /\ Server.db_after o
            = insert_or_replace db key (Database.valueStr value) (unix_seconds now))
  /\ (forall now fault db b,
         let '(db', answer, calls) := ServerlessServer.post_object now fault db b in
         (status answer = 400 <-> stored_property b = None)
         /\ (stored_property b = None -> db' = db /\ calls = [])
         /\ (forall key value,
                stored_property b = Some (key, value) ->
                calls = [CallStoreValue key value]
                /\ (status answer = 200 <-> fault = None)
                /\ (status answer = 500 <-> fault <> None)
                /\ (fault = None ->
                    db' = insert_or_replace db key (Database.valueStr value)
                            (unix_seconds now))))
  /\ (forall now fault db b,
         let o := MongoServer.post_object now fault db b in
         (status (MongoServer.resp o) = 400 <-> stored_property b = None)
         /\ (stored_property b = None ->
             MongoServer.db_after o = db /\ MongoServer.calls o = [])
         /\ (forall key value,
                stored_property b = Some (key, value) ->
                MongoServer.calls o = [CallStoreValue key value]
                /\ (status (MongoServer.resp o) = 200 <->
                    fault = None /\ MongoDatabase.isConnected db = true)
                /\ (status (MongoServer.resp o) = 500 <->
                    fault <> None \/ MongoDatabase.isConnected db = false)
                /\ (fault = None -> MongoDatabase.isConnected db = true ->
                    MongoDatabase.collection (MongoServer.db_after o)
                    = (MongoDatabase.collection db
                       ++ [MongoDatabase.Document key value (unix_seconds now)])%list)
                /\ (MongoDatabase.isConnected db = false ->
                    MongoServer.db_after o = db)))
  /\ (forall now (store : gmap string (list Api.version)) b,
         let o := Api.post_object now store b in
         (status (Api.resp o) = 400 <-> stored_property b = None)
         /\ status (Api.resp o) <> 500
         /\ (stored_property b = None ->
             Api.store_after o = store /\ Api.calls o = [])
         /\ (forall key value,
                stored_property b = Some (key, value) ->
                status (Api.resp o) = 200
                /\ Api.store_after o
                   = Api.push store key (Api.Version value (unix_seconds now))
                /\ Api.calls o = [CallMapPush key value (unix_seconds now)])).
Proof.
  split; [exact stored_property_some |].
  split; [| split; [| split; [| split]]].
  - intros run now db b o. subst o.
    destruct (stored_property b) as [[k v]|] eqn:Hb.
    + apply stored_property_some in Hb as [-> Hv].
      rewrite (server_post_on_valid run now db k v Hv).
      cbn [Server.resp Server.db_after Server.calls].
      split; [| split; [discriminate |]].
      { destruct (snd (run db k (Database.valueStr v) (unix_seconds now)));
          split; discriminate. }
      intros key value [= <- <-].
      split; [reflexivity |]. split; [reflexivity |].
      destruct (snd (run db k (Database.valueStr v) (unix_seconds now)))
        as [err|] eqn:Hran.
      * split; [split; discriminate |].
        split; [split; [discriminate | reflexivity] |].
        intros Hatomic _. exact (Hatomic _ _ _ _ _ Hran).
      * split; [split; reflexivity |].
        split; [split; [discriminate | congruence] |].
        intros _. discriminate.
    + destruct (server_post_on_refused run now db b Hb) as (r & -> & Hr).
      cbn [Server.resp Server.db_after Server.calls].
      split; [split; [reflexivity | exact (fun _ => Hr)] |].
      split; [split; reflexivity |]. discriminate.
  - intros now db key value Hv o. subst o.
    unfold Server.post_object.
    rewrite (server_post_on_valid _ now db key value Hv). split; reflexivity.
  - intros now fault db b.
    destruct (stored_property b) as [[k v]|] eqn:Hb.
    + apply stored_property_some in Hb as [-> Hv].
      unfold ServerlessServer.post_object.
      cbn [validateValue List.length Nat.ltb Nat.leb Object_entries].
      rewrite Hv.
      unfold ServerlessDatabase.storeValue, run_insert_or_replace.
      destruct fault as [err|]; simpl.
      * split; [split; discriminate |]. split; [discriminate |].
        intros key value [= <- <-].
        split; [reflexivity |]. split; [split; discriminate |].
        split; [split; [discriminate | reflexivity] | discriminate].
      * split; [split; discriminate |]. split; [discriminate |].
        intros key value [= <- <-].
        split; [reflexivity |]. split; [split; reflexivity |].
        split; [split; [discriminate | congruence] | reflexivity].
    + destruct (serverless_post_refused now fault db b Hb) as (r & -> & Hr).
      split; [split; [reflexivity | exact (fun _ => Hr)] |].
      split; [split; reflexivity |]. discriminate.
  - intros now fault db b o. subst o.
    destruct (stored_property b) as [[k v]|] eqn:Hb.
    + apply stored_property_some in Hb as [-> Hv].
      unfold MongoServer.post_object.
      cbn [validateValue List.length Nat.ltb Nat.leb Object_entries].
      rewrite Hv. unfold MongoDatabase.storeValue.
      destruct (MongoDatabase.isConnected db) eqn:Hc; simpl.
      * destruct fault as [failure|]; simpl.
        -- split; [split; discriminate |]. split; [discriminate |].
           intros key value [= <- <-]. split; [reflexivity |].
           split; [split; [discriminate | intros [? _]; discriminate] |].
           split; [split; [left; discriminate | reflexivity] |].
           split; discriminate.
        -- split; [split; discriminate |]. split; [discriminate |].
           intros key value [= <- <-]. split; [reflexivity |].
           split; [split; [now split | reflexivity] |].
           split; [split; [discriminate | intros [H | H]; congruence] |].
           split; [reflexivity | discriminate].
      * split; [split; discriminate |]. split; [discriminate |].
        intros key value [= <- <-]. split; [reflexivity |].
        split; [split; [discriminate | intros [_ ?]; discriminate] |].
        split; [split; [now right | reflexivity] |].
        split; [discriminate | reflexivity].
    + destruct (mongo_post_refused now fault db b Hb) as (r & -> & Hr).
      cbn [MongoServer.resp MongoServer.db_after MongoServer.calls].
      split; [split; [reflexivity | exact (fun _ => Hr)] |].
      split; [split; reflexivity |]. discriminate.
  - intros now store b o. subst o.
    destruct (stored_property b) as [[k v]|] eqn:Hb.
    + apply stored_property_some in Hb as [-> Hv].
      unfold Api.post_object.
      cbn [validateValue List.length Nat.ltb Nat.leb Object_entries].
      rewrite Hv. cbn [Api.resp Api.store_after Api.calls].
      split; [split; discriminate |]. split; [discriminate |].
      split; [discriminate |].
      intros key value [= <- <-]. repeat split.
    + destruct (api_post_refused now store b Hb) as (r & -> & Hr).
      cbn [Api.resp Api.store_after Api.calls].
      split; [split; [reflexivity | exact (fun _ => Hr)] |].
      split; [rewrite Hr; discriminate |].
      split; [split; reflexivity |]. discriminate.
Qed.

Lemma includes_append pre hay needle :
  includes hay needle = true -> includes (pre ++ hay) needle = true.
Proof.
  intros H. induction pre as [|c pre IH]; [assumption |].
  change (String c pre ++ hay) with (String c (pre ++ hay)).
  cbn [includes]. rewrite IH. apply orb_true_r.
Qed.

(** X14. What POST /object of the production server does, by the request
    alone.  It answers 400, before any call of [storeValue] and with the
    table as it was, when the content type is missing, empty or does not
    hold "application/json", and when the body is not an object with
    exactly one property whose key [validateKey] accepts.  Otherwise, when
    the JSON text of the value is longer than 1 MB it answers 413 with that
    size, again before any call and with the table as it was; when it is
    not, [storeValue] is called once: without a failure of the statement
    the answer is 201 and the row of (key, timestamp) is inserted or
    replaced, and after a failure the answer is 409 exactly when the
    message of the rejection holds "UNIQUE constraint", which the messages
    of a full and of a busy database never do, and 500 exactly when it does
    not. *)
Theorem production_write_outcomes :
  forall (requestId errorId iso : string) (contentType : option string) (now : Z)
         (fault : option sqlite_err) (db : table) (b : json),
    let o := ProductionServer.post_object requestId errorId iso contentType now
               fault db b in
    let valueSize v := Z.of_nat (String.length (JSON_stringify v)) in
    let json_type :=
      match contentType with
      | Some ct => negb (String.eqb ct "") && includes ct "application/json"
      | None => false
      end in
    (json_type = false \/ stored_property b = None ->
     status (ProductionServer.resp o) = 400
     /\ ProductionServer.db_after o = db /\ ProductionServer.calls o = [])
    /\ (forall key value,
           json_type = true ->
           stored_property b = Some (key, value) ->
           (ProductionServer.value_limit < valueSize value ->
            status (ProductionServer.resp o) = 413
            /\ body_field "size" (ProductionServer.resp o)
               = Some (JNum (valueSize value))
            /\ ProductionServer.db_after o = db /\ ProductionServer.calls o = [])
           /\ (valueSize value <= ProductionServer.value_limit ->
               ProductionServer.calls o = [CallStoreValue key value]
               /\ (fault = None ->
                   status (ProductionServer.resp o) = 201
                   /\ ProductionServer.db_after o
                      = insert_or_replace db key (Database.valueStr value)
                          (unix_seconds now))
               /\ (forall err,
                      fault = Some err ->
                      (status (ProductionServer.resp o) = 409 <->
                       includes (rejection err) "UNIQUE constraint" = true)
                      /\ (status (ProductionServer.resp o) = 500 <->
                          includes (rejection err) "UNIQUE constraint" = false)
                      /\ (err_code err = SQLITE_FULL \/ err_code err = SQLITE_BUSY ->
                          status (ProductionServer.resp o) = 500)
                      /\ (includes (err_message err) "UNIQUE constraint" = true ->
                          err_code err = SQLITE_CONSTRAINT
                          \/ err_code err = SQLITE_ERROR ->
                          status (ProductionServer.resp o) = 409)))).
Proof.
  intros requestId errorId iso contentType now fault db b o valueSize json_type.
  split.
  - intros [Htype | Hb].
    + subst o. unfold ProductionServer.post_object. fold json_type.
      rewrite Htype. repeat split.
    + subst o.
      destruct (production_post_refused requestId errorId iso contentType now
                  fault db b Hb) as (r & -> & Hr).
      repeat split. exact Hr.
  - intros key value Htype Hb.
    apply stored_property_some in Hb as [-> Hv].
    subst o. unfold ProductionServer.post_object. fold json_type.
    rewrite Htype.
    cbn [negb validateValue List.length Nat.ltb Nat.leb Object_entries].
    rewrite Hv. fold (valueSize value).
    destruct (ProductionServer.value_limit <? valueSize value) eqn:Hsize.
    + apply Z.ltb_lt in Hsize. split; [intros _; repeat split | lia].
    + apply Z.ltb_ge in Hsize. split; [lia |]. intros _.
      destruct fault as [err|].
      * rewrite (storeValue_rejects err db key value (unix_seconds now)).
        cbn [ProductionServer.db_after ProductionServer.resp ProductionServer.calls].
        split; [reflexivity |]. split; [discriminate |].
        intros err' [= <-]. unfold ProductionServer.post_failure.
        assert (Hsafe : err_code err = SQLITE_FULL \/ err_code err = SQLITE_BUSY ->
                        includes (rejection err) "UNIQUE constraint" = false).
        { unfold rejection. intros [Hc | Hc]; rewrite Hc; reflexivity. }
        assert (Hunique : includes (err_message err) "UNIQUE constraint" = true ->
                          err_code err = SQLITE_CONSTRAINT
                          \/ err_code err = SQLITE_ERROR ->
                          includes (rejection err) "UNIQUE constraint" = true).
        { unfold rejection. intros Hinc [Hc | Hc]; rewrite Hc;
            now apply includes_append. }
        destruct (includes (rejection err) "UNIQUE constraint") eqn:Hinc.
        -- split; [split; reflexivity |].
           split; [split; discriminate |].
           split; [intros Hc; specialize (Hsafe Hc); discriminate |].
           reflexivity.
        -- split; [split; discriminate |].
           split; [split; reflexivity |].
           split; [reflexivity |].
           intros Hm Hc. specialize (Hunique Hm Hc). discriminate.
      * destruct (storeValue_ok db key value (unix_seconds now)) as [s ->].
        cbn [ProductionServer.db_after ProductionServer.resp ProductionServer.calls].
        split; [reflexivity |]. split; [| discriminate].
        intros _. split; reflexivity.
Qed.

End WriteOutcomes.

(** ** Writes to MongoDB and the rest of the collection *)
Section MongoFrame.

Import MongoDatabase.

Lemma filter_snoc_out {A} (p : A -> bool) (l : list A) (x : A) :
  p x = false -> List.filter p (l ++ [x]) = List.filter p l.
Proof.
  intros H. rewrite List.filter_app. simpl. rewrite H. apply app_nil_r.
Qed.

Lemma mongo_post_db now fault db b :
  MongoServer.db_after (MongoServer.post_object now fault db b) = db
  \/ exists key value,
      b = JObj [(key, value)]
      /\ MongoServer.db_after (MongoServer.post_object now fault db b)
         = Mongo (collection db ++ [Document key value (unix_seconds now)])
                 (isConnected db).
Proof.
  unfold MongoServer.post_object.
  destruct b as [| | | |items|fields]; try (left; reflexivity).
  destruct fields as [|[k v] [|f l]]; try (left; reflexivity).
  cbn [validateValue List.length Nat.ltb Nat.leb Object_entries].
  destruct (validateKey k); [| left; reflexivity].
  unfold storeValue. destruct (negb (isConnected db)); [left; reflexivity |].
  destruct fault as [failure|]; simpl;
    [destruct (fault_applied failure); [| left; reflexivity] |];
    right; exists k, v; now split.
Qed.

Lemma mongo_get_from_selection now db1 db2 key q :
  getValue None db1 key (query_string q) = getValue None db2 key (query_string q) ->
  MongoServer.get_object now None db1 key q
  = MongoServer.get_object now None db2 key q.
Proof. intros H. unfold MongoServer.get_object. now rewrite H. Qed.

(** X15. A write through server-mongodb.js adds one document and touches no
    other: the reads of every other key, and the read of any key, the
    written one included, at a time before the second of the write, answer
    after the write as they did before it. *)
Theorem mongo_write_leaves_the_rest :
  forall (now now' : Z) (fault : option insert_fault) (db : mongo) (b : json)
         (key' : string),
    let db' := MongoServer.db_after (MongoServer.post_object now fault db b) in
    ((forall key value, b = JObj [(key, value)] -> key <> key') ->
     forall q, MongoServer.get_object now' None db' key' q
               = MongoServer.get_object now' None db key' q)
    /\ (forall raw t,
           validateTimestamp now' raw = Valid t ->
           t < unix_seconds now ->
           MongoServer.get_object now' None db' key' (Some raw)
           = MongoServer.get_object now' None db key' (Some raw)).
Proof.
  intros now now' fault db b key' db'.
  destruct (mongo_post_db now fault db b) as [Hsame | [key [value [Hb Hdb]]]];
    fold db' in Hsame || fold db' in Hdb.
  { rewrite Hsame. split; reflexivity. }
  rewrite Hdb. split.
  - intros Hne q. specialize (Hne key value Hb).
    apply mongo_get_from_selection. unfold getValue. cbn [isConnected collection].
    destruct (negb (isConnected db)); [reflexivity |].
    rewrite filter_snoc_out; [reflexivity |].
    assert (Hk : String.eqb key key' = false) by now apply String.eqb_neq.
    destruct (query_string q) as [s|]; [| exact Hk].
    destruct (String.eqb s ""); [exact Hk |].
    destruct (parseInt s); [| reflexivity]. simpl. now rewrite Hk.
  - intros raw t Hv Hlt.
    apply mongo_get_from_selection.
    apply validateTimestamp_valid_iff in Hv as [s (-> & Hpat & Ht & _)].
    cbn [query_string]. unfold getValue. cbn [isConnected collection].
    destruct (negb (isConnected db)); [reflexivity |].
    rewrite eqb_empty_false by now apply digits_pattern_nonempty.
    rewrite parseInt_digits by assumption. rewrite <- Ht.
    rewrite filter_snoc_out; [reflexivity |].
    simpl. apply andb_false_iff. right. apply Z.leb_gt. assumption.
Qed.

Lemma mongo_write_leaves_the_rest_witness :
  let db := Mongo [Document "k" (JNum 1) 2] true in
  let db' := MongoServer.db_after
               (MongoServer.post_object 5000 None db (JObj [("k", JNum 3)])) in
  MongoServer.get_object 9000 None db' "k" (Some (QString "4"))
  = MongoServer.get_object 9000 None db "k" (Some (QString "4")).
Proof.
  intros db db'.
  exact (proj2 (mongo_write_leaves_the_rest 5000 9000 None db
                  (JObj [("k", JNum 3)]) "k") (QString "4") 4 eq_refl eq_refl).
Defined.

End MongoFrame.

(** ** Opening the database *)
Section Init.

Import Database.

(** X16. [init] of src/database.js makes at most three attempts and stops at
    the first that succeeds: it resolves at attempt [n] exactly when [n] is
    the first of the three attempts that meets no error, and rejects exactly
    when all three meet one, with a message that ends in the error of the
    third.  Before the second attempt it waits 1000 ms, before the third
    2000 ms, and after the third failure it does not wait. *)
Theorem init_makes_at_most_three_attempts :
  forall (outcome : nat -> option string),
    let result := fst (init outcome) in
    let waited := snd (init outcome) in
    (forall n,
        result = Resolved n <->
        (1 <= n <= 3)%nat /\ outcome n = None
        /\ forall m, (1 <= m < n)%nat -> outcome m <> None)
    /\ ((exists message, result = Rejected message) <->
        forall m, (1 <= m <= 3)%nat -> outcome m <> None)
    /\ (forall message,
           result = Rejected message ->
           exists last,
             outcome 3%nat = Some last
             /\ message
                = "Database initialization failed after 3 attempts: " ++ last)
    /\ match result with
       | Resolved n =>
           waited = map (fun k => 1000 * Z.of_nat k) (seq 1 (n - 1))
       | Rejected _ => waited = [1000; 2000]
       end.
Proof.
  intros outcome result waited. subst result waited. unfold init.
  cbn [init_loop maxRetries Nat.eqb].
  destruct (outcome 1%nat) as [m1|] eqn:H1;
    [destruct (outcome 2%nat) as [m2|] eqn:H2;
     [destruct (outcome 3%nat) as [m3|] eqn:H3 |] |];
    cbn [fst snd app].
  - split; [| split; [| split]].
    + intros n. split; [discriminate |].
      intros (Hn & Hnone & _).
      assert (Hc : n = 1%nat \/ n = 2%nat \/ n = 3%nat) by lia.
      destruct Hc as [-> | [-> | ->]]; congruence.
    + split.
      * intros _ m Hm.
        assert (Hc : m = 1%nat \/ m = 2%nat \/ m = 3%nat) by lia.
        destruct Hc as [-> | [-> | ->]]; congruence.
      * intros _. eauto.
    + intros message H. injection H as <-. exists m3. split; reflexivity.
    + reflexivity.
  - split; [| split; [| split]].
    + intros n. split.
      * intros H. injection H as <-. split; [lia |]. split; [assumption |].
        intros m Hm. assert (Hc : m = 1%nat \/ m = 2%nat) by lia.
        destruct Hc as [-> | ->]; congruence.
      * intros (Hn & Hnone & Hfirst).
        assert (Hc : n = 1%nat \/ n = 2%nat \/ n = 3%nat) by lia.
        destruct Hc as [-> | [-> | ->]]; [congruence | congruence | reflexivity].
    + split; [intros [message H]; discriminate |].
      intros H. exfalso. apply (H 3%nat); [lia | assumption].
    + discriminate.
    + reflexivity.
  - split; [| split; [| split]].
    + intros n. split.
      * intros H. injection H as <-. split; [lia |]. split; [assumption |].
        intros m Hm. assert (Hc : m = 1%nat) by lia. subst m. congruence.
      * intros (Hn & Hnone & Hfirst).
        assert (Hc : n = 1%nat \/ n = 2%nat \/ n = 3%nat) by lia.
        destruct Hc as [-> | [-> | ->]]; [congruence | reflexivity |].
        exfalso. apply (Hfirst 2%nat); [lia | assumption].
    + split; [intros [message H]; discriminate |].
      intros H. exfalso. apply (H 2%nat); [lia | assumption].
    + discriminate.
    + reflexivity.
  - split; [| split; [| split]].
    + intros n. split.
      * intros H. injection H as <-. split; [lia |]. split; [assumption |].
        intros m Hm. lia.
      * intros (Hn & Hnone & Hfirst).
        assert (Hc : n = 1%nat \/ n = 2%nat \/ n = 3%nat) by lia.
        destruct Hc as [-> | [-> | ->]]; [reflexivity | |].
        -- exfalso. apply (Hfirst 1%nat); [lia | assumption].
        -- exfalso. apply (Hfirst 1%nat); [lia | assumption].
    + split; [intros [message H]; discriminate |].
      intros H. exfalso. apply (H 1%nat); [lia | assumption].
    + discriminate.
    + reflexivity.
Qed.

End Init.

(** ** From the answer of a write to the parameter of a read *)
Section AcknowledgedTimestamp.

Lemma decimal_acc_uint_acc u : forall acc,
  decimal_acc (Z.pos acc) (NilEmpty.string_of_uint u)
  = Z.pos (Pos.of_uint_acc u acc).
Proof.
  induction u; intros acc; cbn [NilEmpty.string_of_uint Pos.of_uint_acc decimal_acc];
    [reflexivity | rewrite <- IHu; f_equal ..].
  all: vm_compute (Z.of_N _); lia.
Qed.

Lemma decimal_acc_uint u :
  decimal_acc 0 (NilEmpty.string_of_uint u) = Z.of_N (Pos.of_uint u).
Proof.
  induction u; cbn [NilEmpty.string_of_uint Pos.of_uint decimal_acc];
    [reflexivity | exact IHu | ..].
  all: vm_compute (10 * 0 + Z.of_N _); apply decimal_acc_uint_acc.
Qed.

Lemma decimal_acc_digits n : decimal_acc 0 (digits_of_N n) = Z.of_N n.
Proof.
  unfold digits_of_N. rewrite decimal_acc_uint.
  change (Pos.of_uint (N.to_uint n)) with (N.of_uint (N.to_uint n)).
  now rewrite DecimalN.Unsigned.of_to.
Qed.

Lemma digits_pattern_digits n : digits_pattern (digits_of_N n) = true.
Proof.
  destruct (digits_of_N_shape n) as [Hne _].
  unfold digits_pattern. destruct (digits_of_N n) as [|c d] eqn:Hd; [congruence |].
  rewrite all_chars_digits, <- Hd. apply string_of_uint_digits.
Qed.

(** X17. The timestamp a write is acknowledged with can be sent back as the
    [timestamp] parameter of a read: printed in decimal, as the JSON answer
    of the write shows it, it is accepted by [validateTimestamp] and read as
    the same number, at any reading of the clock that is not more than a
    day behind the one of the write.  The clock reads milliseconds, a
    number JavaScript holds exactly. *)
Theorem acknowledged_timestamp_is_accepted :
  forall (now now' : Z),
    0 <= now <= MAX_SAFE_INTEGER ->
    now - 86400 * 1000 <= now' ->
    let timestamp := unix_seconds now in
    JSON_stringify (JNum timestamp) = stringify_number timestamp
    /\ validateTimestamp now' (QString (stringify_number timestamp))
       = Valid timestamp
    /\ truthy (Some (QString (stringify_number timestamp))) = true.
Proof.
  intros now now' [Hnow _] Hclock timestamp.
  assert (Hts : 0 <= timestamp).
  { subst timestamp. unfold unix_seconds. apply Z.div_pos; lia. }
  assert (Hle : timestamp <= unix_seconds now' + 86400).
  { subst timestamp. unfold unix_seconds.
    rewrite <- Z.div_add by lia. apply Z.div_le_mono; lia. }
  assert (Hvalid : validateTimestamp now' (QString (stringify_number timestamp))
                   = Valid timestamp).
  { apply validateTimestamp_valid_iff.
    exists (stringify_number timestamp). split; [reflexivity |].
    unfold stringify_number.
    assert (Hneg : (timestamp <? 0) = false) by (apply Z.ltb_ge; lia).
    rewrite Hneg. split; [apply digits_pattern_digits |].
    split; [| assumption]. rewrite decimal_acc_digits. lia. }
  split; [reflexivity |]. split; [assumption |].
  exact (valid_timestamp_truthy now' _ _ Hvalid).
Qed.

Lemma acknowledged_timestamp_is_accepted_witness :
  validateTimestamp 1700000009000 (QString "1700000005") = Valid 1700000005.
Proof.
  exact (proj1 (proj2 (acknowledged_timestamp_is_accepted
                         1700000005123 1700000009000
                         ltac:(unfold MAX_SAFE_INTEGER; lia) ltac:(lia)))).
Defined.

End AcknowledgedTimestamp.

(** ** The latest read over SQLite *)
Section LatestRead.

Import Sqlite.

(** X18. The latest read of a key that [validateKey] accepts, in server.js
    and in the serverless server.  When the query runs, the answer is the
    value of a row of the key whose timestamp no row of the key exceeds (the
    stored text in server.js; in the serverless server what JSON.parse makes
    of that text, or the text itself when JSON.parse throws), and 404 "Key not found" exactly when the key has no row.  When the query
    fails, [getLatestValue] of src/database.js rejects, with "Database is
    busy, please retry" for SQLITE_BUSY and with the message of SQLite after
    "Database query failed: " for any other code, and both servers answer
    500 "Internal server error". *)
Theorem latest_read_returns_newest_row :
  forall (now : Z) (fault : option sqlite_err) (db : table) (key : string),
    validateKey key = Valid key ->
    let answer := fst (Server.get_object now fault db key None) in
    let answer' := fst (ServerlessServer.get_object now fault db key None) in
    match fault with
    | Some err =>
        Database.getLatestValue fault db key
        = Rejected (match err_code err with
                    | SQLITE_BUSY => "Database is busy, please retry"
                    | _ => "Database query failed: " ++ err_message err
                    end)
        /\ answer = json_error 500 "Internal server error"
        /\ answer' = json_error 500 "Internal server error"
    | None =>
        (exists r,
            In r (rows db) /\ row_key r = key
            /\ (forall r', In r' (rows db) -> row_key r' = key ->
                           row_timestamp r' <= row_timestamp r)
            /\ answer = json_ok [("value", JStr (row_value r))]
            /\ answer' = json_ok_value (parse_or_raw (row_value r)) [])
        \/ ((forall r, In r (rows db) -> row_key r <> key)
            /\ answer = json_error 404 "Key not found"
            /\ answer' = json_error 404 "Key not found")
    end.
Proof.
  intros now fault db key Hkey answer answer'. subst answer answer'.
  unfold Server.get_object, ServerlessServer.get_object. rewrite Hkey.
  simpl truthy. cbv iota.
  unfold Server.get_latest, Database.getLatestValue,
    ServerlessDatabase.getLatestValue, get.
  destruct fault as [err|].
  - destruct (err_code err); repeat split.
  - destruct (select_latest db key) as [r|] eqn:Hsel.
    + left. apply select_latest_some in Hsel as (Hin & Hk & Hmax).
      exists r. repeat split; assumption.
    + right. rewrite select_latest_none in Hsel. repeat split. assumption.
Qed.

Lemma latest_read_returns_newest_row_witness :
  let db := Table [Row 1 "k" "a" 2; Row 2 "k" "[7]" 5; Row 3 "j" "c" 7] 3 in
  fst (Server.get_object 9000 None db "k" None) = json_ok [("value", JStr "[7]")]
  /\ fst (ServerlessServer.get_object 9000 None db "k" None)
     = json_ok [("value", JArr [JNum 7])].
Proof.
  intros db.
  pose proof (latest_read_returns_newest_row 9000 None db "k" eq_refl) as H.
  cbv zeta in H.
  destruct H as [[r (Hin & Hk & Hmax & -> & ->)] | [Hnone _]].
  - specialize (Hmax (Row 2 "k" "[7]" 5) (or_intror (or_introl eq_refl)) eq_refl).
    destruct Hin as [<- | [<- | [<- | []]]];
      [simpl in Hmax; lia | split; reflexivity | discriminate].
  - exfalso. exact (Hnone (Row 1 "k" "a" 2) (or_introl eq_refl) eq_refl).
Defined.

End LatestRead.
